(** * RTL slide translator: geometry mirroring, flip classification,
      content injection and chart axis flipping

    A shallow embedding of the core of
    [src/translator/visual_engine.py], [src/translator/content_processor.py]
    and [src/translator/chart_processor.py], of the merging and checking of
    the model's answer in [src/translator/text_translator.py] and of the
    slide selection of [main.py].

    Conventions of the embedding.
    - A Python [int] is a [Z]; a Python [float] is a primitive binary64
      [float], so the heuristics of the classifier evaluate exactly as the
      interpreter evaluates them.
    - An XML element the code looks up with [find] is an [option] field: [None]
      is the [None] that [find] returns.  An attribute read with
      [get(name, default)] is an [option] field as well, and the default is
      applied where the code applies it.  Numeric attributes hold their parsed
      value, so documents whose coordinates are not integers are outside the
      model.
    - The tree is mutated in place by the source; here every operation returns
      the updated element.  Statistics counters and log lines never influence
      the tree and are left out. *)

From Stdlib Require Import ZArith NArith Ascii String.
From Stdlib Require Import Floats.PrimFloat Floats.SpecFloat Floats.FloatOps.
From stdpp Require Import base option list strings gmap sorting pretty.

Local Open Scope string_scope.
Local Open Scope list_scope.
Local Open Scope Z_scope.

#[local] Set Warnings "-inexact-float".

(* ===================================================================== *)
(** ** Python strings *)
(* ===================================================================== *)

(** Characters are code points below 256; the helpers follow [str] on that
    range. *)
Module Py.

Definition code (c : ascii) : N := N_of_ascii c.

(** [str.isspace] restricted to U+0000..U+00FF. *)
Definition isspace (c : ascii) : bool :=
  let n := code c in
  ((9 <=? n) && (n <=? 13) || (28 <=? n) && (n <=? 32)
   || (n =? 133) || (n =? 160))%N.

Fixpoint lstrip (s : string) : string :=
  match s with
  | EmptyString => EmptyString
  | String c rest => if isspace c then lstrip rest else s
  end.

Definition rstrip (s : string) : string := String.rev (lstrip (String.rev s)).

(** [s.strip()] *)
Definition strip (s : string) : string := rstrip (lstrip s).

(** Truth value of a string: non-empty. *)
Definition truthy (s : string) : bool :=
  match s with EmptyString => false | String _ _ => true end.

(** [str.lower] on U+0000..U+00FF: A-Z, and the Latin-1 capitals
    U+00C0..U+00DE except the multiplication sign U+00D7. *)
Definition lower_char (c : ascii) : ascii :=
  let n := code c in
  if ((65 <=? n) && (n <=? 90)
      || (192 <=? n) && (n <=? 222) && negb (n =? 215))%N
  then ascii_of_N (n + 32) else c.

Fixpoint lower (s : string) : string :=
  match s with
  | EmptyString => EmptyString
  | String c rest => String (lower_char c) (lower rest)
  end.

(** [needle in haystack] *)
Fixpoint contains (needle haystack : string) : bool :=
  String.prefix needle haystack
  || match haystack with
     | EmptyString => false
     | String _ rest => contains needle rest
     end.

(** [s.split("\n")]: never empty, one more piece than there are newlines. *)
Fixpoint split_lines (s : string) : list string :=
  match s with
  | EmptyString => [EmptyString]
  | String c rest =>
      if Ascii.eqb c "010"%char then EmptyString :: split_lines rest
      else match split_lines rest with
           | [] => [String c EmptyString]
           | l :: ls => String c l :: ls
           end
  end.

(** [x in xs] for a list or a set of strings. *)
Definition mem (x : string) (xs : list string) : bool :=
  existsb (String.eqb x) xs.

End Py.

(* ===================================================================== *)
(** ** Python floats *)
(* ===================================================================== *)

Module PyFloat.

(** [float(z)]: the nearest binary64, ties to even.  Exact for
    [|z| <= 2^53], which covers every coordinate a presentation can hold. *)
Definition of_int (z : Z) : float :=
  SF2Prim (binary_normalize 53 1024 z 0 false).

(** Exact comparison of an [int] with a [float], as the interpreter does it
    (no rounding of the integer); [None] when the float is a NaN. *)
Definition compare_int (z : Z) (f : float) : option comparison :=
  match Prim2SF f with
  | S754_nan => None
  | S754_infinity false => Some Lt
  | S754_infinity true => Some Gt
  | S754_zero _ => Some (z ?= 0)
  | S754_finite s m e =>
      let v := if s then Z.neg m else Z.pos m in
      if 0 <=? e then Some (z ?= v * 2 ^ e)
      else Some (z * 2 ^ (- e) ?= v)
  end.

(** [z < f] *)
Definition int_lt (z : Z) (f : float) : bool :=
  match compare_int z f with Some Lt => true | _ => false end.

(** [z > f] *)
Definition int_gt (z : Z) (f : float) : bool :=
  match compare_int z f with Some Gt => true | _ => false end.

(** [int(f)]: truncation towards zero; [None] where Python raises (NaN,
    infinities). *)
Definition to_int (f : float) : option Z :=
  match Prim2SF f with
  | S754_nan | S754_infinity _ => None
  | S754_zero _ => Some 0
  | S754_finite s m e =>
      let a := if 0 <=? e then Z.pos m * 2 ^ e else Z.pos m / 2 ^ (- e) in
      Some (if s then - a else a)
  end.

(** [z * f] and [z - f] with an [int] on the left. *)
Definition int_mul (z : Z) (f : float) : float := PrimFloat.mul (of_int z) f.
Definition int_sub (z : Z) (f : float) : float := PrimFloat.sub (of_int z) f.

(** [a / b] on two [int]s with [b <> 0]: the correctly rounded quotient
    (the quotient of the two conversions, for operands within [2^53]). *)
Definition int_truediv (a b : Z) : float :=
  PrimFloat.div (of_int a) (of_int b).

End PyFloat.

(* ===================================================================== *)
(** ** Geometry helpers *)
(* ===================================================================== *)

(** [BoundingBox]: position and size in EMUs. *)
Record BoundingBox := {
  bb_x : Z;
  bb_y : Z;
  bb_width : Z;
  bb_height : Z
}.

Definition right_edge (b : BoundingBox) : Z := bb_x b + bb_width b.

(** [width / height if height > 0 else 0] *)
Definition aspect_ratio (b : BoundingBox) : float :=
  if 0 <? bb_height b then PyFloat.int_truediv (bb_width b) (bb_height b)
  else PyFloat.of_int 0.

(** [mirror_x(x, width, space_width, space_offset=0)] *)
Definition mirror_x (x width space_width space_offset : Z) : Z :=
  let relative_x := x - space_offset in
  let new_relative_x := space_width - (relative_x + width) in
  space_offset + new_relative_x.

(* ===================================================================== *)
(** ** The slide tree *)
(* ===================================================================== *)

(** [a:off] and [a:chOff]: attributes [x], [y]. *)
Record Off := { off_x : option Z; off_y : option Z }.

(** [a:ext] and [a:chExt]: attributes [cx], [cy]. *)
Record Ext := { ext_cx : option Z; ext_cy : option Z }.

(** [a:xfrm] (also [p:xfrm] of a graphic frame): attribute [flipH] and the
    children [a:off], [a:ext], [a:chOff], [a:chExt]. *)
Record Xfrm := {
  flipH : option string;
  off : option Off;
  ext : option Ext;
  chOff : option Off;
  chExt : option Ext
}.

(** [a:latin] / [a:cs]: a typeface specification. *)
Record Font := {
  typeface : option string;
  pitchFamily : option string;
  charset : option string
}.

(** [a:rPr]: the attributes the code reads or writes, the two font children,
    and every other attribute (size, colour, ...) kept as it is. *)
Record RPr := {
  lang : option string;
  b : option string;
  dirty : option string;
  latin : option Font;
  cs : option Font;
  rPr_other : list (string * string)
}.

(** [a:r]: optional [a:rPr], optional [a:t] with its text (an [a:t] without
    text counts as the empty string: both are false for Python). *)
Record Run := { rPr : option RPr; t : option string }.

(** [a:fld]: a text field, with its [a:t]. *)
Record Fld := { fld_t : option string }.

(** [a:defRPr] inside [a:pPr]. *)
Record DefRPr := { defRPr_lang : option string }.

(** [a:pPr]. *)
Record PPr := {
  algn : option string;
  rtl : option string;
  lvl : option Z;
  defRPr : option DefRPr
}.

(** [a:p]: its [a:r] children and its [a:fld] children, each in document
    order (the code never relates the position of a run to that of a field). *)
Record Paragraph := {
  pPr : option PPr;
  runs : list Run;
  flds : list Fld
}.

(** [a:bodyPr]. *)
Record BodyPr := { rtlCol : option string }.

(** [p:txBody] / [a:txBody]. *)
Record TxBody := { bodyPr : option BodyPr; paragraphs : list Paragraph }.

(** [p:cNvPr]: attributes [id] and [name]. *)
Record CNvPr := { cNvPr_id : option string; cNvPr_name : option string }.

(** [a:prstGeom]: attribute [prst]. *)
Record PrstGeom := { prst : option string }.

(** [p:spPr]. *)
Record SpPr := { xfrm : option Xfrm; prstGeom : option PrstGeom }.

(** The content shared by [p:sp], [p:pic] and [p:cxnSp]: the element's
    [p:cNvPr], its [p:spPr] and its [p:txBody]. *)
Record Shape := {
  cNvPr : option CNvPr;
  spPr : option SpPr;
  txBody : option TxBody
}.

(** [a:tc] and [a:tbl]. *)
Record Tc := { tc_txBody : option TxBody }.

Record GridCol := { gridCol_w : option Z }.

Record Tbl := {
  tblGrid : option (list GridCol);
  trs : list (list Tc)
}.

(** [a:graphicData], [a:graphic], [p:graphicFrame]. *)
Record GraphicData := { uri : option string; tbl : option Tbl }.

Record Graphic := { graphicData : option GraphicData }.

Record Frame := {
  frame_cNvPr : option CNvPr;
  frame_xfrm : option Xfrm;
  graphic : option Graphic
}.

(** [p:grpSpPr] and the non-recursive part of a [p:grpSp]. *)
Record GrpSpPr := { grp_xfrm : option Xfrm }.

Record GroupHead := {
  grp_cNvPr : option CNvPr;
  grpSpPr : option GrpSpPr
}.

(** The five element kinds of a shape tree.  A container ([p:spTree] or a
    [p:grpSp]) holds a list of them in document order. *)
#[warnings="-register-all"]
Inductive Node :=
| Sp (s : Shape)
| Pic (s : Shape)
| CxnSp (s : Shape)
| GrpSp (g : GroupHead) (children : list Node)
| GraphicFrame (f : Frame).

(** A slide part: [.//p:cSld/p:spTree]. *)
Record Slide := { spTree : option (list Node) }.

(** Functional setters for the attributes the code writes. *)
Definition set_off_x (o : Off) (new_x : Z) : Off :=
  {| off_x := Some new_x; off_y := off_y o |}.

Definition set_xfrm_off (xf : Xfrm) (o : option Off) : Xfrm :=
  {| flipH := flipH xf; off := o; ext := ext xf;
     chOff := chOff xf; chExt := chExt xf |}.

Definition set_xfrm_flipH (xf : Xfrm) (v : string) : Xfrm :=
  {| flipH := Some v; off := off xf; ext := ext xf;
     chOff := chOff xf; chExt := chExt xf |}.

Definition set_spPr_xfrm (sp : SpPr) (xf : option Xfrm) : SpPr :=
  {| xfrm := xf; prstGeom := prstGeom sp |}.

Definition set_shape_spPr (s : Shape) (sp : option SpPr) : Shape :=
  {| cNvPr := cNvPr s; spPr := sp; txBody := txBody s |}.

Definition set_shape_txBody (s : Shape) (tb : option TxBody) : Shape :=
  {| cNvPr := cNvPr s; spPr := spPr s; txBody := tb |}.

(** [element.find("p:spPr/a:xfrm")] *)
Definition shape_xfrm (s : Shape) : option Xfrm :=
  match spPr s with Some sp => xfrm sp | None => None end.

(* ===================================================================== *)
(** ** [RTLVisualEngine] *)
(* ===================================================================== *)

(** Shape types whose geometry is flipped horizontally. *)
Definition ARROW_GEOMETRIES : list string :=
  [ "chevron"; "homePlate"; "leftArrow"; "rightArrow";
    "stripedRightArrow"; "bentArrow"; "curvedRightArrow";
    "curvedLeftArrow"; "notchedRightArrow"; "leftRightArrow";
    "flowChartOffpageConnector" ].

(** Keywords that mark a shape as a logo. *)
Definition LOGO_KEYWORDS : list string :=
  [ "logo"; "watermark"; "brand"; "trademark"; "icon";
    "emblem"; "badge"; "seal"; "copyright" ].

Definition DEFAULT_SLIDE_WIDTH : Z := 12192000.

(** The fields of an engine that the transformation reads. *)
Record Engine := {
  slide_width : Z;
  layout_flip_ratio : float;
  flip_connectors : bool;
  flip_threshold : Z
}.

(** [_extract_slide_width]: the [cx] of [p:sldSz] of the presentation part
    ([None]: no [p:sldSz]; [Some None]: no usable [cx]), else the default. *)
Definition _extract_slide_width (sldSz : option (option Z)) : Z :=
  match sldSz with
  | Some (Some cx) => cx
  | _ => DEFAULT_SLIDE_WIDTH
  end.

(** [__init__]: fails where [int(slide_width * layout_flip_ratio)] raises. *)
Definition init (sldSz : option (option Z)) (ratio : float)
    (connectors : bool) : option Engine :=
  let w := _extract_slide_width sldSz in
  match PyFloat.to_int (PyFloat.int_mul w ratio) with
  | Some th =>
      Some {| slide_width := w; layout_flip_ratio := ratio;
              flip_connectors := connectors; flip_threshold := th |}
  | None => None
  end.

(** *** Geometry helpers of the engine *)

(** [_get_bounding_box(element, "p:spPr")] *)
Definition _get_bounding_box (element : Shape) : option BoundingBox :=
  match spPr element with
  | None => None
  | Some sp_pr =>
    match xfrm sp_pr with
    | None => None
    | Some xf =>
      match off xf, ext xf with
      | Some o, Some e =>
          Some {| bb_x := default 0 (off_x o);
                  bb_y := default 0 (off_y o);
                  bb_width := default 0 (ext_cx e);
                  bb_height := default 0 (ext_cy e) |}
      | _, _ => None
      end
    end
  end.

(** [_set_offset_x(element, "p:spPr", new_x)] *)
Definition _set_offset_x (element : Shape) (new_x : Z) : Shape :=
  match spPr element with
  | None => element
  | Some sp_pr =>
    match xfrm sp_pr with
    | None => element
    | Some xf =>
      match off xf with
      | Some o =>
          set_shape_spPr element
            (Some (set_spPr_xfrm sp_pr
                     (Some (set_xfrm_off xf (Some (set_off_x o new_x))))))
      | None => element
      end
    end
  end.

(** [_set_flip_h(element, "p:spPr")] *)
Definition _set_flip_h (element : Shape) : Shape :=
  match spPr element with
  | None => element
  | Some sp_pr =>
    match xfrm sp_pr with
    | Some xf =>
        set_shape_spPr element
          (Some (set_spPr_xfrm sp_pr (Some (set_xfrm_flipH xf "1"))))
    | None => element
    end
  end.

(** The content of a node, for the lookups the heuristics make on an element
    of any kind. *)
Definition node_shape (element : Node) : option Shape :=
  match element with
  | Sp s | Pic s | CxnSp s => Some s
  | _ => None
  end.

(** [_get_element_name]: the [name] of the element's [p:cNvPr], or [""]. *)
Definition _get_element_name (element : Node) : string :=
  let c_nv_pr :=
    match element with
    | Sp s | Pic s | CxnSp s => cNvPr s
    | GrpSp g _ => grp_cNvPr g
    | GraphicFrame f => frame_cNvPr f
    end in
  match c_nv_pr with
  | Some c => default "" (cNvPr_name c)
  | None => ""
  end.

(** *** Smart detection *)

(** All [a:t] texts below a text body ([tx_body.findall(".//a:t")]); an
    element without its [a:t] contributes nothing. *)
Definition paragraph_ts (p : Paragraph) : list string :=
  omap t (runs p) ++ omap fld_t (flds p).

Definition txBody_ts (tb : TxBody) : list string :=
  concat (map paragraph_ts (paragraphs tb)).

(** [any(t.text and t.text.strip() for t in ...)] *)
Definition has_text (tb : TxBody) : bool :=
  existsb (fun s => Py.truthy s && Py.truthy (Py.strip s)) (txBody_ts tb).

(** [element.tag.endswith("}pic")] *)
Definition is_picture (element : Node) : bool :=
  match element with Pic _ => true | _ => false end.

(** The heuristics of [_is_likely_logo], one per local variable. *)

(** [any(keyword in name_lower for keyword in self.LOGO_KEYWORDS)] *)
Definition has_logo_keyword (name : string) : bool :=
  let name_lower := Py.lower name in
  existsb (fun keyword => Py.contains keyword name_lower) LOGO_KEYWORDS.

(** [bbox.width < self.slide_width * 0.15] *)
Definition is_small (self : Engine) (bbox : BoundingBox) : bool :=
  PyFloat.int_lt (bb_width bbox) (PyFloat.int_mul (slide_width self) 0.15%float).

(** [margin = self.slide_width * 0.1];
    [bbox.x < margin or bbox.right_edge > (self.slide_width - margin)] *)
Definition in_corner (self : Engine) (bbox : BoundingBox) : bool :=
  let margin := PyFloat.int_mul (slide_width self) 0.1%float in
  let in_left_margin := PyFloat.int_lt (bb_x bbox) margin in
  let in_right_margin :=
    PyFloat.int_gt (right_edge bbox)
      (PyFloat.int_sub (slide_width self) margin) in
  in_left_margin || in_right_margin.

(** [0.5 <= bbox.aspect_ratio <= 2.0] *)
Definition aspect_between_half_and_two (bbox : BoundingBox) : bool :=
  PrimFloat.leb 0.5%float (aspect_ratio bbox)
  && PrimFloat.leb (aspect_ratio bbox) 2.0%float.

(** [0.5 <= bbox.aspect_ratio <= 2.0 if bbox.height > 0 else True] *)
Definition is_squarish (bbox : BoundingBox) : bool :=
  if 0 <? bb_height bbox then aspect_between_half_and_two bbox else true.

(** [_is_likely_logo] *)
Definition _is_likely_logo (self : Engine) (element : Node) (name : string)
    (bbox : BoundingBox) : bool :=
  if has_logo_keyword name then true
  else
    let is_picture := is_picture element in
    let is_small := is_small self bbox in
    let in_corner := in_corner self bbox in
    let is_squarish := is_squarish bbox in
    if is_picture && is_small && in_corner then true
    else is_small && in_corner && is_squarish.

(** [element.find(".//a:prstGeom")] *)
Definition node_prstGeom (element : Node) : option PrstGeom :=
  match node_shape element with
  | Some s => match spPr s with Some sp => prstGeom sp | None => None end
  | None => None
  end.

(** [element.find("p:txBody")] *)
Definition node_txBody (element : Node) : option TxBody :=
  match node_shape element with
  | Some s => txBody s
  | None => None
  end.

(** [_should_flip_shape] *)
Definition _should_flip_shape (self : Engine) (element : Node)
    (bbox : BoundingBox) (name : string) : bool :=
  if match node_txBody element with
     | Some tx_body => has_text tx_body
     | None => false
     end
  then false
  else if _is_likely_logo self element name bbox then false
  else if match node_prstGeom element with
          | Some prst_geom => Py.mem (default "" (prst prst_geom)) ARROW_GEOMETRIES
          | None => false
          end
  then true
  else
    let is_very_wide := flip_threshold self <=? bb_width bbox in
    let is_wide_aspect := PrimFloat.ltb 1.5%float (aspect_ratio bbox) in
    is_very_wide && is_wide_aspect.

(** *** Text body processing *)

Definition arabic_cs_font : Font :=
  {| typeface := Some "Simplified Arabic"; pitchFamily := Some "34";
     charset := Some "178" |}.

Definition arial_latin_font : Font :=
  {| typeface := Some "Arial"; pitchFamily := Some "34";
     charset := Some "0" |}.

(** The fonts a complex-script typeface may keep. *)
Definition arabic_fonts : list string :=
  [ "Simplified Arabic"; "Traditional Arabic"; "Arabic Typesetting"; "Arial" ].

Definition empty_rPr : RPr :=
  {| lang := None; b := None; dirty := None; latin := None; cs := None;
     rPr_other := [] |}.

Definition set_rPr_lang (r : RPr) (v : string) : RPr :=
  {| lang := Some v; b := b r; dirty := dirty r; latin := latin r;
     cs := cs r; rPr_other := rPr_other r |}.

Definition set_rPr_fonts (r : RPr) (l c : option Font) : RPr :=
  {| lang := lang r; b := b r; dirty := dirty r; latin := l; cs := c;
     rPr_other := rPr_other r |}.

(** [_process_run] *)
Definition _process_run (run : Run) : Run :=
  let r_pr := set_rPr_lang (default empty_rPr (rPr run)) "ar-SA" in
  let r_pr' :=
    match latin r_pr, cs r_pr with
    | None, None =>
        set_rPr_fonts r_pr (Some arial_latin_font) (Some arabic_cs_font)
    | Some latin_font, None =>
        set_rPr_fonts r_pr (Some latin_font) (Some arabic_cs_font)
    | l, Some cs_font =>
        let current_typeface := default "" (typeface cs_font) in
        if Py.mem (Py.lower current_typeface) (map Py.lower arabic_fonts)
        then r_pr
        else set_rPr_fonts r_pr l
               (Some {| typeface := Some "Simplified Arabic";
                        pitchFamily := pitchFamily cs_font;
                        charset := Some "178" |})
    end in
  {| rPr := Some r_pr'; t := t run |}.

Definition empty_pPr : PPr :=
  {| algn := None; rtl := None; lvl := None; defRPr := None |}.

(** [_process_paragraph] *)
Definition _process_paragraph (paragraph : Paragraph) : Paragraph :=
  let p_pr := default empty_pPr (pPr paragraph) in
  let current_align := algn p_pr in
  let new_align :=
    match current_align with
    | None => Some "r"
    | Some a => if String.eqb a "l" then Some "r"
                else if String.eqb a "r" then Some "l"
                else Some a
    end in
  {| pPr := Some {| algn := new_align; rtl := Some "1"; lvl := lvl p_pr;
                    defRPr := Some {| defRPr_lang := Some "ar-SA" |} |};
     runs := map _process_run (runs paragraph);
     flds := flds paragraph |}.

(** [_process_text_body] *)
Definition _process_text_body (tx_body : TxBody) : TxBody :=
  {| bodyPr := Some {| rtlCol := Some "1" |};
     paragraphs := map _process_paragraph (paragraphs tx_body) |}.

Definition process_cell_text (tc : Tc) : Tc :=
  {| tc_txBody := option_map _process_text_body (tc_txBody tc) |}.

(** [_process_table]: rows of more than one cell are reversed, every cell's
    text body is processed, a grid of more than one column is reversed. *)
Definition _process_table (table : Tbl) : Tbl :=
  {| tblGrid :=
       match tblGrid table with
       | Some grid_cols =>
           Some (if (1 <? length grid_cols)%nat then rev grid_cols
                 else grid_cols)
       | None => None
       end;
     trs :=
       map (fun cells =>
              if (length cells <=? 1)%nat then map process_cell_text cells
              else map process_cell_text (rev cells))
           (trs table) |}.

(** *** Shape processing *)

(** [_process_shape] *)
Definition _process_shape (self : Engine) (element : Shape)
    (space_width space_offset : Z) : Shape :=
  match _get_bounding_box element with
  | None => element
  | Some bbox =>
      let name := _get_element_name (Sp element) in
      let new_x := mirror_x (bb_x bbox) (bb_width bbox) space_width space_offset in
      let element := _set_offset_x element new_x in
      let element :=
        if _should_flip_shape self (Sp element) bbox name
        then _set_flip_h element else element in
      match txBody element with
      | Some tx_body =>
          set_shape_txBody element (Some (_process_text_body tx_body))
      | None => element
      end
  end.

(** [_process_picture] *)
Definition _process_picture (self : Engine) (element : Shape)
    (space_width space_offset : Z) : Shape :=
  match _get_bounding_box element with
  | None => element
  | Some bbox =>
      let new_x := mirror_x (bb_x bbox) (bb_width bbox) space_width space_offset in
      _set_offset_x element new_x
  end.

(** [_process_connector] *)
Definition _process_connector (self : Engine) (element : Shape)
    (space_width space_offset : Z) : Shape :=
  match _get_bounding_box element with
  | None => element
  | Some bbox =>
      let new_x := mirror_x (bb_x bbox) (bb_width bbox) space_width space_offset in
      let element := _set_offset_x element new_x in
      match spPr element with
      | Some sp_pr =>
        match xfrm sp_pr with
        | Some xf =>
            let current_flip := default "0" (flipH xf) in
            let new_flip := if String.eqb current_flip "1" then "0" else "1" in
            set_shape_spPr element
              (Some (set_spPr_xfrm sp_pr (Some (set_xfrm_flipH xf new_flip))))
        | None => element
        end
      | None => element
      end
  end.

(** [_process_graphicFrame] *)
Definition _process_graphicFrame (self : Engine) (element : Frame)
    (space_width space_offset : Z) : Frame :=
  match frame_xfrm element with
  | None => element
  | Some xf =>
    match off xf, ext xf with
    | Some o, Some e =>
        let frame_x := default 0 (off_x o) in
        let frame_width := default 0 (ext_cx e) in
        let new_x := mirror_x frame_x frame_width space_width space_offset in
        let xf' := set_xfrm_off xf (Some (set_off_x o new_x)) in
        let graphic' :=
          match graphic element with
          | None => None
          | Some g =>
            match graphicData g with
            | None => Some g
            | Some graphic_data =>
                let u := default "" (uri graphic_data) in
                if Py.contains "chart" u then Some g
                else if Py.contains "table" u then
                  Some {| graphicData :=
                            Some {| uri := uri graphic_data;
                                    tbl := option_map _process_table
                                             (tbl graphic_data) |} |}
                else Some g
            end
          end in
        {| frame_cNvPr := frame_cNvPr element; frame_xfrm := Some xf';
           graphic := graphic' |}
    | _, _ => element
    end
  end.

(** The group's own box and the coordinate space of its children, as
    [_process_group] computes them before it recurses: [None] where the
    function returns early. *)
Definition group_geometry (g : GroupHead)
    : option (Xfrm * Off * Z * Z * (Z * Z)) :=
  match grpSpPr g with
  | None => None
  | Some grp_sp_pr =>
    match grp_xfrm grp_sp_pr with
    | None => None
    | Some xf =>
      match off xf, ext xf with
      | Some o, Some e =>
          let group_x := default 0 (off_x o) in
          let group_width := default 0 (ext_cx e) in
          let child_space :=
            match chOff xf, chExt xf with
            | Some ch_off, Some ch_ext =>
                (default group_width (ext_cx ch_ext),
                 default 0 (off_x ch_off))
            | _, _ => (group_width, 0)
            end in
          Some (xf, o, group_x, group_width, child_space)
      | _, _ => None
      end
    end
  end.

Definition set_group_x (g : GroupHead) (xf : Xfrm) (o : Off) (new_x : Z)
    : GroupHead :=
  {| grp_cNvPr := grp_cNvPr g;
     grpSpPr :=
       Some {| grp_xfrm := Some (set_xfrm_off xf (Some (set_off_x o new_x))) |} |}.

(** One element of a container, by its tag; a group recurses into its
    children with the child space. *)
Fixpoint _process_element (self : Engine) (element : Node)
    (space_width space_offset : Z) : Node :=
  match element with
  | Sp s => Sp (_process_shape self s space_width space_offset)
  | Pic s => Pic (_process_picture self s space_width space_offset)
  | CxnSp s =>
      if flip_connectors self
      then CxnSp (_process_connector self s space_width space_offset)
      else element
  | GrpSp g children =>
      match group_geometry g with
      | None => element
      | Some (xf, o, group_x, group_width, (child_width, child_offset)) =>
          let new_x := mirror_x group_x group_width space_width space_offset in
          GrpSp (set_group_x g xf o new_x)
            (map (fun c => _process_element self c child_width child_offset)
                 children)
      end
  | GraphicFrame f =>
      GraphicFrame (_process_graphicFrame self f space_width space_offset)
  end.

(** [_process_container]: every child is processed in place, so the order in
    which the five passes of the source visit the children does not show in
    the resulting tree. *)
Definition _process_container (self : Engine) (container : list Node)
    (space_width space_offset : Z) : list Node :=
  map (fun c => _process_element self c space_width space_offset) container.

(** [_process_group] *)
Definition _process_group (self : Engine) (g : GroupHead)
    (children : list Node) (space_width space_offset : Z) : Node :=
  match group_geometry g with
  | None => GrpSp g children
  | Some (xf, o, group_x, group_width, (child_width, child_offset)) =>
      let new_x := mirror_x group_x group_width space_width space_offset in
      GrpSp (set_group_x g xf o new_x)
        (_process_container self children child_width child_offset)
  end.

(** [transform]: [None] is the [ValueError] raised when the part has no
    [p:spTree]. *)
Definition transform (self : Engine) (root : Slide) : option Slide :=
  match spTree root with
  | None => None
  | Some sp_tree =>
      Some {| spTree := Some (_process_container self sp_tree (slide_width self) 0) |}
  end.

(* ===================================================================== *)
(** ** [ContentProcessor]: injection of translated text *)
(* ===================================================================== *)

(** One entry of the [paragraphs] array of a translated element. *)
Record ParagraphRecord := {
  para_text : option string;
  para_level : option Z;
  para_is_bold : option bool
}.

(** A translated element; [id] is read with [elem["id"]], the other keys may
    be missing. *)
Record ContentRecord := {
  elem_id : string;
  elem_role : option string;
  elem_text : option string;
  elem_paragraphs : option (list ParagraphRecord)
}.

(** The translated JSON document. *)
Record TranslatedJson := { elements : option (list ContentRecord) }.

(** [_create_run]: the new [a:r], appended to the paragraph by the caller. *)
Definition _create_run (text : string) : Run :=
  {| rPr := Some {| lang := Some "ar-SA"; b := None; dirty := Some "0";
                    latin := None; cs := None; rPr_other := [] |};
     t := Some text |}.

(** [_create_paragraph]: the new [a:p], appended to the text body by the
    caller. *)
Definition _create_paragraph (text : string) : Paragraph :=
  {| pPr := Some {| algn := Some "r"; rtl := Some "1"; lvl := None;
                    defRPr := None |};
     runs := [_create_run text];
     flds := [] |}.

(** [_update_paragraph_text] *)
Definition _update_paragraph_text (paragraph : Paragraph) (new_text : string)
    : Paragraph :=
  match runs paragraph with
  | first_run :: _ =>
      let first_run' :=
        {| rPr := match rPr first_run with
                  | Some r_pr => Some (set_rPr_lang r_pr "ar-SA")
                  | None => None
                  end;
           t := Some new_text |} in
      {| pPr := pPr paragraph; runs := [first_run']; flds := flds paragraph |}
  | [] =>
      {| pPr := pPr paragraph; runs := [_create_run new_text];
         flds := flds paragraph |}
  end.

(** The paragraphs to inject: the non-empty [paragraphs] array, else the
    lines of [text]. *)
Definition new_paragraphs (translated : ContentRecord) : list ParagraphRecord :=
  match elem_paragraphs translated with
  | Some (p :: ps) => p :: ps
  | _ =>
      let text := default "" (elem_text translated) in
      map (fun line => {| para_text := Some line; para_level := None;
                          para_is_bold := None |})
          (Py.split_lines text)
  end.

(** One iteration of the loop over [enumerate(new_paragraphs)]: [paras] is
    the current list of [a:p] children of the text body, [n_existing] the
    length of the snapshot [existing_paras]. *)
Definition update_step (n_existing : nat) (paras : list Paragraph)
    (i : nat) (new_para : ParagraphRecord) : list Paragraph :=
  let new_text := default "" (para_text new_para) in
  if (i <? n_existing)%nat
  then alter (fun p => _update_paragraph_text p new_text) i paras
  else paras ++ [_create_paragraph new_text].

Fixpoint update_loop (n_existing : nat) (paras : list Paragraph) (i : nat)
    (news : list ParagraphRecord) : list Paragraph :=
  match news with
  | [] => paras
  | new_para :: rest =>
      update_loop n_existing (update_step n_existing paras i new_para)
        (S i) rest
  end.

(** [_update_shape_text] *)
Definition _update_shape_text (shape : Shape) (translated : ContentRecord)
    : Shape :=
  match txBody shape with
  | None => shape
  | Some tx_body =>
      let news := new_paragraphs translated in
      let existing_paras := paragraphs tx_body in
      let n_existing := length existing_paras in
      let paras := update_loop n_existing existing_paras 0 news in
      (* the trailing loop pops and removes the extra original paragraphs *)
      let extras := (n_existing - length news)%nat in
      let paras :=
        (take (n_existing - extras) paras ++ drop n_existing paras)%list in
      set_shape_txBody shape
        (Some {| bodyPr := bodyPr tx_body; paragraphs := paras |})
  end.

(** The lookup map [{elem["id"]: elem for elem in elements}]: a later element
    with the same id replaces an earlier one. *)
Definition translation_map (translated_json : TranslatedJson)
    : gmap string ContentRecord :=
  foldl (fun m elem => <[elem_id elem := elem]> m) ∅
        (default [] (elements translated_json)).

(** The body of the loop over [root.findall(".//p:sp")]. *)
Definition inject_shape (tm : gmap string ContentRecord) (shape : Shape)
    : Shape :=
  match cNvPr shape with
  | None => shape
  | Some c_nv_pr =>
      let shape_id := default "" (cNvPr_id c_nv_pr) in
      match tm !! shape_id with
      | Some translated => _update_shape_text shape translated
      | None => shape
      end
  end.

Fixpoint inject_node (tm : gmap string ContentRecord) (n : Node) : Node :=
  match n with
  | Sp s => Sp (inject_shape tm s)
  | GrpSp g children => GrpSp g (map (inject_node tm) children)
  | _ => n
  end.

(** [inject_translated_content], from the parsed part to the tree that is
    written out. *)
Definition inject_translated_content (root : Slide)
    (translated_json : TranslatedJson) : Slide :=
  let tm := translation_map translated_json in
  {| spTree := option_map (map (inject_node tm)) (spTree root) |}.

(** *** Observations on a tree *)

(** The [id] attribute of a node's [p:cNvPr]. *)
Definition node_id (n : Node) : option string :=
  match n with
  | Sp s | Pic s | CxnSp s => c ← cNvPr s; cNvPr_id c
  | GrpSp g _ => c ← grp_cNvPr g; cNvPr_id c
  | GraphicFrame f => c ← frame_cNvPr f; cNvPr_id c
  end.

(** Every node of a tree in document order, a group before its children. *)
Fixpoint nodes (n : Node) : list Node :=
  match n with
  | GrpSp _ children => n :: concat (map nodes children)
  | _ => [n]
  end.

Definition slide_nodes (root : Slide) : list Node :=
  concat (map nodes (default [] (spTree root))).

(** The ids of all shapes of a part, in document order. *)
Definition shape_ids (root : Slide) : list (option string) :=
  map node_id (slide_nodes root).

(** [root.findall(".//p:sp")] *)
Definition all_sp (root : Slide) : list Shape :=
  omap (fun n => match n with Sp s => Some s | _ => None end)
       (slide_nodes root).

(* ===================================================================== *)
(** ** [ChartProcessor]: injection into a chart part *)
(* ===================================================================== *)

(** A generic XML element, for the children of the value axis, whose order
    matters. *)
#[warnings="-register-all"]
Inductive Elem :=
| MkElem (tag : string) (attrib : list (string * string))
         (children : list Elem).

Definition tag (e : Elem) : string := let 'MkElem tg _ _ := e in tg.
Definition attrib (e : Elem) : list (string * string) :=
  let 'MkElem _ a _ := e in a.
Definition children (e : Elem) : list Elem := let 'MkElem _ _ c := e in c.

Module Xml.

(** [parent.find(tag)] on the children of [parent]: the first child with
    that tag. *)
Definition find (tg : string) (cs : list Elem) : option Elem :=
  List.find (fun c => String.eqb (tag c) tg) cs.

(** [list(parent).index(child)] for the first child with that tag. *)
Fixpoint index (tg : string) (cs : list Elem) : option nat :=
  match cs with
  | [] => None
  | c :: rest =>
      if String.eqb (tag c) tg then Some 0%nat
      else option_map S (index tg rest)
  end.

(** [elem.get(key)] *)
Fixpoint get (key : string) (a : list (string * string)) : option string :=
  match a with
  | [] => None
  | (k, v) :: rest => if String.eqb k key then Some v else get key rest
  end.

(** [elem.set(key, value)]: an existing attribute keeps its place, a new
    one goes last. *)
Fixpoint set (key value : string) (a : list (string * string))
    : list (string * string) :=
  match a with
  | [] => [(key, value)]
  | (k, v) :: rest =>
      if String.eqb k key then (k, value) :: rest
      else (k, v) :: set key value rest
  end.

(** [parent.insert(idx, child)] *)
Definition insert (idx : nat) (child : Elem) (cs : list Elem) : list Elem :=
  (take idx cs ++ child :: drop idx cs)%list.

(** In-place update of the first child with a given tag. *)
Fixpoint update_first (tg : string) (f : Elem -> Elem) (cs : list Elem)
    : list Elem :=
  match cs with
  | [] => []
  | c :: rest =>
      if String.eqb (tag c) tg then f c :: rest
      else c :: update_first tg f rest
  end.

(** Number of children with a given tag. *)
Definition count (tg : string) (cs : list Elem) : nat :=
  length (filter (fun c => tag c = tg) cs).

End Xml.

(** [c:ser]: the [val] of its [c:idx] ([None]: no [c:idx]), the text of its
    first name cell [c:tx/c:strRef/c:strCache/c:pt/c:v] ([None]: no such
    element), and for each category point the text of its [c:v]. *)
Record Ser := {
  ser_idx : option (option string);
  ser_name : option string;
  ser_cats : list (option string)
}.

(** [c:barChart]: the [val] of its [c:barDir] ([None]: no [c:barDir]). *)
Record BarChart := { barDir : option (option string) }.

(** A chart part, by what [inject_chart_text] looks up in it: the first title
    text and the [lang] of the first title run properties, every series, the
    first [c:barChart] and the children of the first [c:valAx]. *)
Record Chart := {
  title_t : option string;
  title_rPr_lang : option (option string);
  sers : list Ser;
  barChart : option BarChart;
  valAx : option (list Elem)
}.

(** The translated chart text.  A series is [(id, name)]; the id is [None]
    for the JSON [null], which [extract_chart_text] writes for a series whose
    [c:idx] has no [val]. *)
Record ChartJson := {
  chart_title : option string;
  series : option (list (option string * string));
  categories : option (list string)
}.

(** [{s["id"]: s["name"] for s in translated_json["series"]}] *)
Definition series_map (l : list (option string * string))
    : gmap (option string) string :=
  foldl (fun m s => <[s.1 := s.2]> m) ∅ l.

Definition inject_series (translated_json : ChartJson) (ser : Ser) : Ser :=
  match series translated_json with
  | None => ser
  | Some l =>
      match ser_idx ser with
      | Some series_id =>
          match series_map l !! series_id, ser_name ser with
          | Some name, Some _ =>
              {| ser_idx := ser_idx ser; ser_name := Some name;
                 ser_cats := ser_cats ser |}
          | _, _ => ser
          end
      | None => ser
      end
  end.

Definition inject_categories (translated_json : ChartJson) (ser : Ser) : Ser :=
  match categories translated_json with
  | Some (c :: cs) =>
      {| ser_idx := ser_idx ser; ser_name := ser_name ser;
         ser_cats :=
           imap (fun i cat_v =>
                   match (c :: cs) !! i, cat_v with
                   | Some new_text, Some _ => Some new_text
                   | _, _ => cat_v
                   end)
                (ser_cats ser) |}
  | _ => ser
  end.

(** The orientation element of a scaling element is found or appended, and
    its [val] is set to ["maxMin"]. *)
Definition orientation_maxMin (o : Elem) : Elem :=
  MkElem (tag o) (Xml.set "val" "maxMin" (attrib o)) (children o).

Definition set_orientation (scaling : Elem) : Elem :=
  let cs := children scaling in
  let cs' :=
    match Xml.find "c:orientation" cs with
    | Some _ => Xml.update_first "c:orientation" orientation_maxMin cs
    | None => (cs ++ [MkElem "c:orientation" [("val", "maxMin")] []])%list
    end in
  MkElem (tag scaling) (attrib scaling) cs'.

(** The value axis after the adjustment: its scaling element is found, or
    created before [c:axId] (at the end when there is no [c:axId]). *)
Definition flip_val_ax (val_ax : list Elem) : list Elem :=
  match Xml.find "c:scaling" val_ax with
  | Some _ => Xml.update_first "c:scaling" set_orientation val_ax
  | None =>
      let scaling := set_orientation (MkElem "c:scaling" [] []) in
      match Xml.index "c:axId" val_ax with
      | Some idx => Xml.insert idx scaling val_ax
      | None => (val_ax ++ [scaling])%list
      end
  end.

(** Whether the chart is a horizontal bar chart: a [c:barChart] whose
    [c:barDir] has [val="bar"]. *)
Definition is_horizontal_bar (root : Chart) : bool :=
  match barChart root with
  | Some bar_chart =>
      match barDir bar_chart with
      | Some (Some v) => String.eqb v "bar"
      | _ => false
      end
  | None => false
  end.

(** The RTL bar chart adjustment at the end of [inject_chart_text]. *)
Definition rtl_bar_chart_adjustment (root : Chart) : Chart :=
  if is_horizontal_bar root then
    {| title_t := title_t root; title_rPr_lang := title_rPr_lang root;
       sers := sers root; barChart := barChart root;
       valAx := option_map flip_val_ax (valAx root) |}
  else root.

(** [inject_chart_text], from the parsed part to the tree that is written
    out. *)
Definition inject_chart_text (root : Chart) (translated_json : ChartJson)
    : Chart :=
  let titled :=
    match chart_title translated_json, title_t root with
    | Some (String c s), Some _ =>
        {| title_t := Some (String c s);
           title_rPr_lang := option_map (fun _ => Some "ar-SA")
                               (title_rPr_lang root);
           sers := sers root; barChart := barChart root;
           valAx := valAx root |}
    | _, _ => root
    end in
  let with_series :=
    {| title_t := title_t titled; title_rPr_lang := title_rPr_lang titled;
       sers := map (fun ser => inject_categories translated_json
                                 (inject_series translated_json ser))
                   (sers titled);
       barChart := barChart titled; valAx := valAx titled |} in
  rtl_bar_chart_adjustment with_series.

(* ===================================================================== *)
(** ** Observations used by the statements *)
(* ===================================================================== *)

(** The [flipH] attribute of a shape's transform. *)
Definition shape_flipH (s : Shape) : option string :=
  match shape_xfrm s with Some xf => flipH xf | None => None end.



(** The box [(x, width)] of a transform that has both [a:off] and [a:ext]. *)
Definition xfrm_box (xf : option Xfrm) : option (Z * Z) :=
  match xf with
  | Some xf =>
      match off xf, ext xf with
      | Some o, Some e => Some (default 0 (off_x o), default 0 (ext_cx e))
      | _, _ => None
      end
  | None => None
  end.

(** The box of a group in its parent space. *)
Definition group_box (g : GroupHead) : option (Z * Z) :=
  xfrm_box (match grpSpPr g with Some p => grp_xfrm p | None => None end).

(** The box of a node, read where the engine reads it; [None] for a node the
    engine leaves alone for want of geometry. *)
Definition node_box (n : Node) : option (Z * Z) :=
  match n with
  | Sp s | Pic s | CxnSp s => xfrm_box (shape_xfrm s)
  | GrpSp g _ => group_box g
  | GraphicFrame f => xfrm_box (frame_xfrm f)
  end.

(** The children of a group node. *)
Definition node_children (n : Node) : list Node :=
  match n with GrpSp _ children => children | _ => [] end.

Definition is_connector (n : Node) : bool :=
  match n with CxnSp _ => true | _ => false end.

(** The text of a shape: the texts of the runs of each paragraph. *)
Definition shape_text (s : Shape) : option (list (list (option string))) :=
  option_map (fun tb => map (fun p => map t (runs p)) (paragraphs tb))
             (txBody s).

(** A box mirrored in a coordinate space: [x] moves, the width stays. *)
Definition mirror_box (space_width space_offset : Z) (box : Z * Z) : Z * Z :=
  (mirror_x box.1 box.2 space_width space_offset, box.2).







(** The fallback child space in the words of the claim: the group's own
    offset and width, as [(width, offset)]. *)
Definition claimed_fallback_space (group_x group_width : Z) : Z * Z :=
  (group_width, group_x).

(** The paragraphs of a text body after the loop over the translated
    paragraphs, written by recursion on both lists: an existing paragraph is
    updated in place, past the last existing one a paragraph is created. *)
Fixpoint merge_paragraphs (existing : list Paragraph)
    (news : list ParagraphRecord) : list Paragraph :=
  match news, existing with
  | [], _ => existing
  | new_para :: news', p :: existing' =>
      _update_paragraph_text p (default "" (para_text new_para))
      :: merge_paragraphs existing' news'
  | new_para :: news', [] =>
      _create_paragraph (default "" (para_text new_para))
      :: merge_paragraphs [] news'
  end.

(** The run that [_update_paragraph_text] leaves in a paragraph that had
    [first_run] as its first run. *)
Definition updated_first_run (first_run : Run) (new_text : string) : Run :=
  {| rPr := option_map (fun r_pr => set_rPr_lang r_pr "ar-SA") (rPr first_run);
     t := Some new_text |}.

(** The scaling element that [flip_val_ax] leaves in the value axis. *)
Definition flipped_scaling (val_ax : list Elem) : Elem :=
  match Xml.find "c:scaling" val_ax with
  | Some scaling => set_orientation scaling
  | None => set_orientation (MkElem "c:scaling" [] [])
  end.

(** *** Scenarios *)

(** The engine of the pipeline on a 16:9 deck: default width, ratio 0.4,
    connectors flipped. *)
Definition default_engine : Engine :=
  {| slide_width := 12192000; layout_flip_ratio := 0.4%float;
     flip_connectors := true; flip_threshold := 4876800 |}.

Definition box_xfrm (x width : Z) : Xfrm :=
  {| flipH := None;
     off := Some {| off_x := Some x; off_y := Some 0 |};
     ext := Some {| ext_cx := Some width; ext_cy := Some 1000000 |};
     chOff := None; chExt := None |}.

(** A shape without text at [(x, width)], one million EMU high. *)
Definition plain_shape (id name : string) (x width : Z)
    (geom : option string) : Shape :=
  {| cNvPr := Some {| cNvPr_id := Some id; cNvPr_name := Some name |};
     spPr := Some {| xfrm := Some (box_xfrm x width);
                     prstGeom := option_map (fun g => {| prst := Some g |}) geom |};
     txBody := None |}.

(** Scenario B: a group at parent [x = 1,000,000], width 2,000,000, child
    space [{offset 0, extent 2,000,000}], one child at [x = 500,000] of width
    500,000. *)
Definition scenario_B_head : GroupHead :=
  {| grp_cNvPr := Some {| cNvPr_id := Some "2"; cNvPr_name := Some "Group 1" |};
     grpSpPr :=
       Some {| grp_xfrm :=
         Some {| flipH := None;
                 off := Some {| off_x := Some 1000000; off_y := Some 0 |};
                 ext := Some {| ext_cx := Some 2000000; ext_cy := Some 1000000 |};
                 chOff := Some {| off_x := Some 0; off_y := Some 0 |};
                 chExt := Some {| ext_cx := Some 2000000;
                                  ext_cy := Some 1000000 |} |} |} |}.

Definition scenario_B_child : Node :=
  Sp (plain_shape "3" "Rectangle 2" 500000 500000 (Some "rect")).

(** The same group without [a:chOff] and [a:chExt]. *)
Definition undeclared_head : GroupHead :=
  {| grp_cNvPr := Some {| cNvPr_id := Some "2"; cNvPr_name := Some "Group 1" |};
     grpSpPr := Some {| grp_xfrm := Some (box_xfrm 1000000 2000000) |} |}.

(** A run and a paragraph of plain text, as PowerPoint writes them. *)
Definition plain_run (language text : string) : Run :=
  {| rPr := Some {| lang := Some language; b := Some "1"; dirty := Some "0";
                    latin := None; cs := None; rPr_other := [("sz", "2400")] |};
     t := Some text |}.

Definition plain_paragraph (language text : string) : Paragraph :=
  {| pPr := None; runs := [plain_run language text]; flds := [] |}.

(** A wide right arrow that carries the text "Next". *)
Definition text_arrow : Shape :=
  set_shape_txBody (plain_shape "5" "Arrow 4" 1000000 6000000 (Some "rightArrow"))
    (Some {| bodyPr := None; paragraphs := [plain_paragraph "en-US" "Next"] |}).


(** Scenario D: a shape with three paragraphs, a second shape the
    translation does not mention, and a record of one paragraph for the
    first. *)
Definition three_paragraphs : Shape :=
  set_shape_txBody (plain_shape "7" "Content 6" 1000000 4000000 (Some "rect"))
    (Some {| bodyPr := None;
             paragraphs := [ plain_paragraph "en-US" "First";
                             plain_paragraph "en-US" "Second";
                             plain_paragraph "en-US" "Third" ] |}).

Definition untouched_shape : Shape :=
  set_shape_txBody (plain_shape "8" "Footer 7" 1000000 4000000 (Some "rect"))
    (Some {| bodyPr := None; paragraphs := [plain_paragraph "en-US" "Footer"] |}).

Definition scenario_D_slide : Slide :=
  {| spTree := Some [Sp three_paragraphs; Sp untouched_shape] |}.

Definition one_paragraph_record : ContentRecord :=
  {| elem_id := "7"; elem_role := Some "body"; elem_text := Some "Translated";
     elem_paragraphs :=
       Some [ {| para_text := Some "Translated"; para_level := Some 0;
                 para_is_bold := Some false |} ] |}.

Definition scenario_D_json : TranslatedJson :=
  {| elements := Some [one_paragraph_record] |}.

(** Scenario E: a horizontal bar chart whose value axis has no scaling
    element yet, and a translation of its title. *)
Definition scenario_E_chart : Chart :=
  {| title_t := Some "Sales";
     title_rPr_lang := Some (Some "en-US");
     sers := [ {| ser_idx := Some (Some "0"); ser_name := Some "Q1";
                  ser_cats := [Some "North"; Some "South"] |} ];
     barChart := Some {| barDir := Some (Some "bar") |};
     valAx := Some [ MkElem "c:axId" [("val", "2")] [];
                     MkElem "c:delete" [("val", "0")] [];
                     MkElem "c:axPos" [("val", "b")] [] ] |}.

Definition scenario_E_json : ChartJson :=
  {| chart_title := Some "Translated title";
     series := Some [(Some "0", "Translated series")];
     categories := Some ["A"; "B"] |}.


(* ===================================================================== *)
(** ** Further observations *)
(* ===================================================================== *)

(** A run as the text rewriter leaves it: run properties with
    [lang="ar-SA"] and a complex-script font from the list of Arabic fonts. *)
Definition run_is_arabic (r : Run) : Prop :=
  exists r_pr cs_font,
    rPr r = Some r_pr
    /\ lang r_pr = Some "ar-SA"
    /\ cs r_pr = Some cs_font
    /\ Py.mem (Py.lower (default "" (typeface cs_font)))
              (map Py.lower arabic_fonts) = true.

(** The [algn] attribute of a paragraph. *)
Definition paragraph_algn (p : Paragraph) : option string :=
  match pPr p with Some p_pr => algn p_pr | None => None end.

(** The [rtl] attribute of a paragraph. *)
Definition paragraph_rtl (p : Paragraph) : option string :=
  match pPr p with Some p_pr => rtl p_pr | None => None end.

(** The tag of a node. *)
Definition node_tag (n : Node) : string :=
  match n with
  | Sp _ => "p:sp"
  | Pic _ => "p:pic"
  | CxnSp _ => "p:cxnSp"
  | GrpSp _ _ => "p:grpSp"
  | GraphicFrame _ => "p:graphicFrame"
  end.

(** The transform of a node. *)
Definition node_xfrm (n : Node) : option Xfrm :=
  match n with
  | Sp s | Pic s | CxnSp s => shape_xfrm s
  | GrpSp g _ =>
      match grpSpPr g with Some p => grp_xfrm p | None => None end
  | GraphicFrame f => frame_xfrm f
  end.

(** What a transform holds besides [x] and [flipH]: the [y] of its offset,
    its extent, and the child offset and extent. *)
Definition xfrm_fixed (xf : Xfrm)
    : option (option Z) * option Ext * option Off * option Ext :=
  (option_map off_y (off xf), ext xf, chOff xf, chExt xf).

Definition node_fixed (n : Node)
    : option (option (option Z) * option Ext * option Off * option Ext) :=
  option_map xfrm_fixed (node_xfrm n).

(** The texts of a node: those of its text body, for the three shape
    kinds. *)
Definition node_texts (n : Node) : option (list string) :=
  option_map txBody_ts (node_txBody n).

(** The connectors among a list of nodes. *)
Definition connectors (ns : list Node) : list Shape :=
  omap (fun n => match n with CxnSp s => Some s | _ => None end) ns.

(** A table of two columns and one row, with a text body in each cell. *)
Definition two_column_table : Tbl :=
  {| tblGrid := Some [ {| gridCol_w := Some 3000000 |};
                       {| gridCol_w := Some 1000000 |} ];
     trs := [ [ {| tc_txBody :=
                     Some {| bodyPr := None;
                             paragraphs := [plain_paragraph "en-US" "Region"] |} |};
                {| tc_txBody :=
                     Some {| bodyPr := None;
                             paragraphs := [plain_paragraph "en-US" "Sales"] |} |} ] ] |}.

(** A part with a picture without geometry, a connector and the group of
    Scenario B. *)
Definition mixed_slide : Slide :=
  {| spTree :=
       Some [ Pic {| cNvPr := Some {| cNvPr_id := Some "9";
                                       cNvPr_name := Some "Picture 8" |};
                     spPr := Some {| xfrm := None; prstGeom := None |};
                     txBody := None |};
              CxnSp (plain_shape "10" "Connector 9" 2000000 1000000 (Some "line"));
              GrpSp scenario_B_head [scenario_B_child] ] |}.

(* ===================================================================== *)
(** ** [ContentProcessor]: extraction *)
(* ===================================================================== *)

(** ["\n".join(parts)] *)
Definition join_lines (parts : list string) : string :=
  String.concat (String "010"%char EmptyString) parts.

(** ["".join(parts)] *)
Definition join_text (parts : list string) : string :=
  String.concat EmptyString parts.

(** Placeholder types. *)
Definition TITLE_TYPES : list string := [ "title"; "ctrTitle" ].
Definition SUBTITLE_TYPES : list string := [ "subTitle" ].
Definition BODY_TYPES : list string := [ "body"; "obj"; "dt"; "ftr"; "sldNum" ].

(** [p:ph] with its [type], and [p:nvPr]. *)
Record Ph := { ph_type : option string }.

Record NvPr := { ph : option Ph }.

(** A [p:sp] as the extraction reads it: the [p:nvPr] of its [p:nvSpPr]
    beside the content that the engine and the injection read.  The [cNvPr]
    of the content is the [p:cNvPr] of the [p:nvSpPr]: the extraction gives
    up on a shape that lacks either. *)
Record SpElement := { nvPr : option NvPr; content : Shape }.

(** One entry of [TextElement.paragraphs]: [{text, level, is_bold}]. *)
Record ParaInfo := { info_text : string; info_level : Z; info_is_bold : bool }.

(** [TextElement] *)
Record TextElement := {
  te_id : string;
  te_name : string;
  te_role : string;
  te_level : Z;
  te_y_position : Z;
  te_paragraphs : list ParaInfo;
  te_original_text : string
}.

(** [_determine_role] *)
Definition _determine_role (nv_pr : option NvPr) : string :=
  match nv_pr with
  | Some nv =>
      match ph nv with
      | Some p =>
          let ph_type := default "" (ph_type p) in
          if Py.mem ph_type TITLE_TYPES then "title"
          else if Py.mem ph_type SUBTITLE_TYPES then "subtitle"
          else if Py.mem ph_type BODY_TYPES then "body"
          else "content"
      | None => "content"
      end
  | None => "content"
  end.

(** [_get_y_position] *)
Definition _get_y_position (shape : Shape) : Z :=
  match spPr shape with
  | None => 999999
  | Some sp_pr =>
      match xfrm sp_pr with
      | None => 999999
      | Some xf =>
          match off xf with
          | None => 999999
          | Some o => default 999999 (off_y o)
          end
      end
  end.

(** Whether a run is bold: [b == "1" or b == "true"] on its [a:rPr]. *)
Definition run_is_bold (r : Run) : bool :=
  match rPr r with
  | Some r_pr =>
      match b r_pr with
      | Some v => String.eqb v "1" || String.eqb v "true"
      | None => false
      end
  | None => false
  end.

(** The text parts of a paragraph: the non-empty texts of its runs, then
    those of its fields. *)
Definition text_parts (p : Paragraph) : list string :=
  filter (fun s => Py.truthy s = true) (omap t (runs p))
  ++ filter (fun s => Py.truthy s = true) (omap fld_t (flds p)).

(** [_extract_paragraph] *)
Definition _extract_paragraph (p : Paragraph) : option ParaInfo :=
  let level :=
    match pPr p with
    | Some p_pr => default 0 (lvl p_pr)
    | None => 0
    end in
  let is_bold := existsb run_is_bold (runs p) in
  let text := join_text (text_parts p) in
  if Py.truthy (Py.strip text)
  then Some {| info_text := text; info_level := level; info_is_bold := is_bold |}
  else None.

(** [_extract_paragraphs] *)
Definition _extract_paragraphs (tx_body : TxBody) : list ParaInfo :=
  omap _extract_paragraph (paragraphs tx_body).

(** [_extract_shape_content] *)
Definition _extract_shape_content (shape : SpElement) : option TextElement :=
  match cNvPr (content shape) with
  | None => None
  | Some c_nv_pr =>
      let shape_id := default "" (cNvPr_id c_nv_pr) in
      let shape_name := default "" (cNvPr_name c_nv_pr) in
      match txBody (content shape) with
      | None => None
      | Some tx_body =>
          let role := _determine_role (nvPr shape) in
          let y_pos := _get_y_position (content shape) in
          let paragraphs := _extract_paragraphs tx_body in
          match paragraphs with
          | [] => None
          | _ =>
              let original_text :=
                join_lines
                  (map info_text
                     (filter (fun p => Py.truthy (Py.strip (info_text p)) = true)
                             paragraphs)) in
              let level :=
                if String.eqb role "title" then 0
                else if String.eqb role "subtitle" then 1 else 2 in
              Some {| te_id := shape_id; te_name := shape_name;
                      te_role := role; te_level := level;
                      te_y_position := y_pos; te_paragraphs := paragraphs;
                      te_original_text := original_text |}
          end
      end
  end.

(** [list.sort(key=...)] on the y position: a stable sort, here by insertion
    from the right, which keeps elements of equal key in their order. *)
Fixpoint insert_by_y (e : TextElement) (sorted : list TextElement)
    : list TextElement :=
  match sorted with
  | [] => [e]
  | e' :: rest =>
      if te_y_position e <=? te_y_position e' then e :: e' :: rest
      else e' :: insert_by_y e rest
  end.

Definition sort_by_y (l : list TextElement) : list TextElement :=
  foldr insert_by_y [] l.

(** The elements kept by the loop over the shapes, before sorting. *)
Definition extracted_elements (shapes : list SpElement) : list TextElement :=
  omap (fun shape =>
          match _extract_shape_content shape with
          | Some element =>
              if Py.truthy (Py.strip (te_original_text element))
              then Some element else None
          | None => None
          end)
       shapes.

(** One entry of the output JSON. *)
Definition element_record (element : TextElement) : ContentRecord :=
  {| elem_id := te_id element;
     elem_role := Some (te_role element);
     elem_text := Some (te_original_text element);
     elem_paragraphs :=
       Some (map (fun p => {| para_text := Some (info_text p);
                              para_level := Some (info_level p);
                              para_is_bold := Some (info_is_bold p) |})
                 (te_paragraphs element)) |}.

(** [extract_content_for_llm], from the shapes [root.findall(".//p:sp")] of
    the parsed part to the JSON document (whose [slide_context] is a
    constant). *)
Definition extract_content_for_llm (shapes : list SpElement) : TranslatedJson :=
  {| elements :=
       Some (map element_record (sort_by_y (extracted_elements shapes))) |}.

(** A string without a non-whitespace character. *)
Definition is_blank (s : string) : bool :=
  forallb Py.isspace (list_ascii_of_string s).

(** A string without a newline. *)
Definition no_newline (s : string) : bool :=
  forallb (fun c => negb (Ascii.eqb c "010"%char)) (list_ascii_of_string s).

(** A record that carries only the joined text, as a translator that drops
    the paragraph list returns it. *)
Definition text_only_record (id : string) (texts : list string) : ContentRecord :=
  {| elem_id := id; elem_role := None; elem_text := Some (join_lines texts);
     elem_paragraphs := None |}.

(** A second record for the shape of Scenario D, and a record for a shape
    that the part does not have. *)
Definition second_record_for_7 : ContentRecord :=
  {| elem_id := "7"; elem_role := Some "body"; elem_text := Some "Later";
     elem_paragraphs := None |}.

Definition stray_record : ContentRecord :=
  {| elem_id := "99"; elem_role := Some "body"; elem_text := Some "Nowhere";
     elem_paragraphs := None |}.

(** The shapes of Scenario D as the extraction reads them: a body
    placeholder and a footer. *)
Definition scenario_D_shapes : list SpElement :=
  [ {| nvPr := Some {| ph := Some {| ph_type := Some "body" |} |};
       content := three_paragraphs |};
    {| nvPr := Some {| ph := Some {| ph_type := Some "ftr" |} |};
       content := untouched_shape |} ].

(** What the extraction reads of the content of a shape. *)
Definition extraction_view (s : Shape)
    : option CNvPr * Z * option (list ParaInfo) :=
  (cNvPr s, _get_y_position s, option_map _extract_paragraphs (txBody s)).

(** The [p:sp] elements of a part for the extraction: each shape of the tree
    beside the [p:nvPr] it has in the document. *)
Definition sp_elements (nv_prs : list (option NvPr)) (root : Slide)
    : list SpElement :=
  zip_with (fun nv s => {| nvPr := nv; content := s |}) nv_prs (all_sp root).

(* ===================================================================== *)
(** ** [ChartProcessor]: extraction *)
(* ===================================================================== *)

(** The result of [extract_chart_text]: the title ([None] is the JSON
    [null]), the series as [(id, name)] (the id is [null] for a [c:idx]
    without [val]) and the categories. *)
Record ChartText := {
  text_chart_title : option string;
  text_series : list (option string * string);
  text_categories : list string
}.

(** The id under which a series is extracted: the [val] of its [c:idx], or
    its position in the chart as a decimal string. *)
Definition series_id (idx : nat) (ser : Ser) : option string :=
  match ser_idx ser with
  | Some v => v
  | None => Some (pretty idx)
  end.

(** [extract_chart_text] *)
Definition extract_chart_text (root : Chart) : ChartText :=
  {| text_chart_title :=
       match title_t root with
       | Some s => if Py.truthy s then Some s else None
       | None => None
       end;
     text_series :=
       omap id
         (imap (fun idx ser =>
                  match ser_name ser with
                  | Some name =>
                      if Py.truthy name then Some (series_id idx ser, name)
                      else None
                  | None => None
                  end)
               (sers root));
     text_categories :=
       match sers root with
       | first_series :: _ =>
           filter (fun s => Py.truthy s = true)
                  (omap id (ser_cats first_series))
       | [] => []
       end |}.

(* ===================================================================== *)
(** ** Qualified names *)
(* ===================================================================== *)

Module PyStr.

(** [s.split(sep, 1)] for a one-character [sep] that occurs in [s]: the text
    before the first [sep] and the text after it.  [None] when [sep] does not
    occur (the split then has a single piece). *)
Fixpoint split1 (sep : ascii) (s : string) : option (string * string) :=
  match s with
  | EmptyString => None
  | String c rest =>
      if Ascii.eqb c sep then Some (EmptyString, rest)
      else match split1 sep rest with
           | Some (before, after) => Some (String c before, after)
           | None => None
           end
  end.

(** [d.get(key)] on a dict written as its list of items. *)
Fixpoint dict_get {V : Type} (key : string) (d : list (string * V)) : option V :=
  match d with
  | [] => None
  | (k, v) :: rest => if String.eqb key k then Some v else dict_get key rest
  end.

End PyStr.

(** [NAMESPACES] of [visual_engine.py]. *)
Definition visual_engine_NAMESPACES : list (string * string) :=
  [("a", "http://schemas.openxmlformats.org/drawingml/2006/main");
   ("p", "http://schemas.openxmlformats.org/presentationml/2006/main");
   ("r", "http://schemas.openxmlformats.org/officeDocument/2006/relationships");
   ("mc", "http://schemas.openxmlformats.org/markup-compatibility/2006");
   ("a14", "http://schemas.microsoft.com/office/drawing/2010/main");
   ("a16", "http://schemas.microsoft.com/office/drawing/2014/main");
   ("p14", "http://schemas.microsoft.com/office/powerpoint/2010/main");
   ("p15", "http://schemas.microsoft.com/office/powerpoint/2012/main")].

(** [NAMESPACES] of [content_processor.py]. *)
Definition content_processor_NAMESPACES : list (string * string) :=
  [("a", "http://schemas.openxmlformats.org/drawingml/2006/main");
   ("p", "http://schemas.openxmlformats.org/presentationml/2006/main");
   ("r", "http://schemas.openxmlformats.org/officeDocument/2006/relationships")].

(** [NAMESPACES] of [chart_processor.py]. *)
Definition chart_processor_NAMESPACES : list (string * string) :=
  [("c", "http://schemas.openxmlformats.org/drawingml/2006/chart");
   ("a", "http://schemas.openxmlformats.org/drawingml/2006/main");
   ("r", "http://schemas.openxmlformats.org/officeDocument/2006/relationships")].

(** [qn]: the three modules define it alike, each over its own table [NS].
    [None] is the [ValueError] of an unknown prefix. *)
Definition qn (NS : list (string * string)) (tag : string) : option string :=
  if negb (Py.contains ":" tag) then Some tag
  else
    match PyStr.split1 ":" tag with
    | Some (prefix, local) =>
        match PyStr.dict_get prefix NS with
        | None => None
        | Some uri => Some ("{" ++ uri ++ "}" ++ local)%string
        end
    | None => None
    end.

(** What the proof of injectivity needs of a table: every URI holds a colon
    and no closing brace, and no two prefixes share a URI. *)
Definition clark_safe (NS : list (string * string)) : Prop :=
  Forall (fun uri => Py.contains ":" uri = true
                     /\ Py.contains "}" uri = false) (map snd NS)
  /\ NoDup (map snd NS).

(* ===================================================================== *)
(** ** Translation service: merging and checking the model's answer *)
(* ===================================================================== *)

(** [src/translator/text_translator.py].  The JSON objects are records whose
    fields are the keys the code reads; [None] is a missing key, and a key
    that is present holds a value of the type the schema gives it.  An answer
    that holds [null] or a value of another type has no record: the source
    rejects such answers in more ways than the records can show (the merge
    loop raises on a [null] list, the validation on a value of the wrong
    type), so acceptance is used below as a hypothesis, or concluded for
    answers that are records.  The call to the language model is outside the
    model: its parsed answer is an argument. *)
Module TextTranslator.

(** [TranslatedParagraph] *)
Record TranslatedParagraph := {
  tp_text : string;
  tp_lvl : Z;
  tp_bold : bool;
  tp_alignment : string;
  tp_bullet : bool
}.

(** [BoundingBox] *)
Record BBox := { bbox_x : Z; bbox_y : Z; bbox_width : Z; bbox_height : Z }.

(** [TranslatedElement] *)
Record TranslatedElement := {
  tr_id : string;
  tr_role : string;
  tr_name : string;
  tr_bbox : BBox;
  tr_paragraphs : list TranslatedParagraph
}.

(** [TranslatedSlide] *)
Record TranslatedSlide := {
  ts_slide_context : string;
  ts_elements : list TranslatedElement
}.

(** A paragraph of the original content, through the keys the merge reads. *)
Record OriginalParagraph := {
  op_lvl : option Z;
  op_bold : option bool;
  op_alignment : option string;
  op_bullet : option bool
}.

(** An element of the original content. *)
Record OriginalElement := {
  oe_id : option string;
  oe_role : option string;
  oe_name : option string;
  oe_bbox : option BBox;
  oe_paragraphs : option (list OriginalParagraph)
}.

(** The original content. *)
Record Original := {
  o_slide_context : option string;
  o_elements : option (list OriginalElement)
}.

(** A paragraph of the model's answer. *)
Record LlmParagraph := {
  lp_text : option string;
  lp_lvl : option Z;
  lp_bold : option bool;
  lp_alignment : option string;
  lp_bullet : option bool
}.

(** An element of the model's answer. *)
Record LlmElement := {
  le_id : option string;
  le_role : option string;
  le_paragraphs : option (list LlmParagraph)
}.

(** The model's answer. *)
Record LlmResponse := {
  lr_slide_context : option string;
  lr_elements : option (list LlmElement)
}.

(** A merged element: all keys are set, [id] to [llm_elem.get("id")]. *)
Record MergedElement := {
  me_id : option string;
  me_role : string;
  me_name : string;
  me_bbox : BBox;
  me_paragraphs : list TranslatedParagraph
}.

(** The merged document. *)
Record Merged := {
  m_slide_context : string;
  m_elements : list MergedElement
}.

(** The empty dict [{}] as an element and as a paragraph. *)
Definition empty_element : OriginalElement :=
  {| oe_id := None; oe_role := None; oe_name := None; oe_bbox := None;
     oe_paragraphs := None |}.

Definition empty_paragraph : OriginalParagraph :=
  {| op_lvl := None; op_bold := None; op_alignment := None;
     op_bullet := None |}.

Definition zero_bbox : BBox :=
  {| bbox_x := 0; bbox_y := 0; bbox_width := 0; bbox_height := 0 |}.

(** [{elem.get("id"): elem for elem in original.get("elements", [])}]: a
    later element replaces an earlier one of the same id. *)
Definition original_by_id (original : Original)
    : gmap (option string) OriginalElement :=
  foldl (fun m elem => <[oe_id elem := elem]> m) ∅
        (default [] (o_elements original)).

(** The body of the loop over [llm_paragraphs]. *)
Definition merge_paragraph (orig_paragraphs : list OriginalParagraph)
    (i : nat) (llm_para : LlmParagraph) : TranslatedParagraph :=
  let orig_para := default empty_paragraph (orig_paragraphs !! i) in
  {| tp_text := default "" (lp_text llm_para);
     tp_lvl := default (default 0 (op_lvl orig_para)) (lp_lvl llm_para);
     tp_bold := default (default false (op_bold orig_para)) (lp_bold llm_para);
     tp_alignment :=
       default (default "r" (op_alignment orig_para)) (lp_alignment llm_para);
     tp_bullet :=
       default (default false (op_bullet orig_para)) (lp_bullet llm_para) |}.

(** The body of the loop over the elements of the answer. *)
Definition merge_element (by_id : gmap (option string) OriginalElement)
    (llm_elem : LlmElement) : MergedElement :=
  let elem_id := le_id llm_elem in
  let orig_elem := default empty_element (by_id !! elem_id) in
  let orig_paragraphs := default [] (oe_paragraphs orig_elem) in
  let llm_paragraphs := default [] (le_paragraphs llm_elem) in
  {| me_id := elem_id;
     me_role := default (default "content" (oe_role orig_elem))
                        (le_role llm_elem);
     me_name := default "" (oe_name orig_elem);
     me_bbox := default zero_bbox (oe_bbox orig_elem);
     me_paragraphs := imap (merge_paragraph orig_paragraphs) llm_paragraphs |}.

(** [_merge_with_original] *)
Definition _merge_with_original (original : Original)
    (llm_response : LlmResponse) : Merged :=
  {| m_slide_context :=
       default (default "" (o_slide_context original))
               (lr_slide_context llm_response);
     m_elements :=
       map (merge_element (original_by_id original))
           (default [] (lr_elements llm_response)) |}.

(** [lvl: int = Field(default=0, ge=0, le=5)] *)
Definition lvl_in_range (p : TranslatedParagraph) : bool :=
  (0 <=? tp_lvl p) && (tp_lvl p <=? 5).

(** Validation of one element: [id] must be a string that [strip] does not
    empty ([id_must_not_be_empty]), every [lvl] within its bounds. *)
Definition validate_element (e : MergedElement) : option TranslatedElement :=
  match me_id e with
  | Some v =>
      if Py.truthy (Py.strip v) && forallb lvl_in_range (me_paragraphs e)
      then Some {| tr_id := v; tr_role := me_role e; tr_name := me_name e;
                   tr_bbox := me_bbox e; tr_paragraphs := me_paragraphs e |}
      else None
  | None => None
  end.

(** [TranslatedSlide.model_validate] on a merged document; [None] is the
    validation error. *)
Definition model_validate (merged_data : Merged) : option TranslatedSlide :=
  match mapM validate_element (m_elements merged_data) with
  | Some elems =>
      Some {| ts_slide_context := m_slide_context merged_data;
              ts_elements := elems |}
  | None => None
  end.

(** [_verify_ids]: [Some tt] when it returns, [None] when it raises
    [TranslationError]. *)
Definition _verify_ids (original : Original) (translated : TranslatedSlide)
    : option unit :=
  let original_ids : gset (option string) :=
    list_to_set (map oe_id (default [] (o_elements original))) in
  let translated_ids : gset (option string) :=
    list_to_set (map (fun elem => Some (tr_id elem)) (ts_elements translated)) in
  let missing_ids := original_ids ∖ translated_ids in
  if decide (missing_ids = ∅) then Some tt else None.

(** [translate], from the parsed answer on: merge, validate, verify.  [None]
    is the [TranslationError] every failure is turned into. *)
Definition translate (content : Original) (response_data : LlmResponse)
    : option TranslatedSlide :=
  let merged_data := _merge_with_original content response_data in
  match model_validate merged_data with
  | Some translated =>
      match _verify_ids content translated with
      | Some _ => Some translated
      | None => None
      end
  | None => None
  end.

(** [model_dump], through the keys [inject_translated_content] reads: [id],
    [paragraphs] and their [text]; the dump has no [text] key. *)
Definition model_dump (translated : TranslatedSlide) : TranslatedJson :=
  {| elements :=
       Some (map (fun e =>
                    {| elem_id := tr_id e;
                       elem_role := Some (tr_role e);
                       elem_text := None;
                       elem_paragraphs :=
                         Some (map (fun p => {| para_text := Some (tp_text p);
                                                para_level := None;
                                                para_is_bold := None |})
                                   (tr_paragraphs e)) |})
                 (ts_elements translated)) |}.

(** [translate_to_dict] *)
Definition translate_to_dict (content : Original) (response_data : LlmResponse)
    : option TranslatedJson :=
  option_map model_dump (translate content response_data).

(** The document [extract_content_for_llm] builds, through the keys the merge
    reads: its elements have [id], [role], [text] and [paragraphs], and its
    paragraphs [text], [level] and [is_bold]; none has [name], [bbox], [lvl],
    [bold], [alignment] or [bullet]. *)
Definition of_content (content : TranslatedJson) : Original :=
  {| o_slide_context :=
       Some "Consulting Slide - Professional business presentation";
     o_elements :=
       option_map
         (map (fun e =>
                 {| oe_id := Some (elem_id e);
                    oe_role := elem_role e;
                    oe_name := None;
                    oe_bbox := None;
                    oe_paragraphs :=
                      option_map (map (fun _ => empty_paragraph))
                                 (elem_paragraphs e) |}))
         (elements content) |}.

End TextTranslator.

(** An original content with one titled element, and an answer that
    translates it and adds an element of its own. *)
Definition translator_original : TextTranslator.Original :=
  {| TextTranslator.o_slide_context := Some "Strategy overview";
     TextTranslator.o_elements :=
       Some [ {| TextTranslator.oe_id := Some "5";
                 TextTranslator.oe_role := Some "title";
                 TextTranslator.oe_name := Some "Title 1";
                 TextTranslator.oe_bbox :=
                   Some {| TextTranslator.bbox_x := 0;
                           TextTranslator.bbox_y := 0;
                           TextTranslator.bbox_width := 9144000;
                           TextTranslator.bbox_height := 1000000 |};
                 TextTranslator.oe_paragraphs :=
                   Some [ {| TextTranslator.op_lvl := Some 0;
                             TextTranslator.op_bold := Some true;
                             TextTranslator.op_alignment := Some "ctr";
                             TextTranslator.op_bullet := Some false |} ] |} ] |}.

Definition translator_answer : TextTranslator.LlmResponse :=
  {| TextTranslator.lr_slide_context := None;
     TextTranslator.lr_elements :=
       Some [ {| TextTranslator.le_id := Some "5";
                 TextTranslator.le_role := None;
                 TextTranslator.le_paragraphs :=
                   Some [ {| TextTranslator.lp_text := Some "Kharita";
                             TextTranslator.lp_lvl := None;
                             TextTranslator.lp_bold := None;
                             TextTranslator.lp_alignment := Some "r";
                             TextTranslator.lp_bullet := None |} ] |};
              {| TextTranslator.le_id := Some "9";
                 TextTranslator.le_role := Some "footer";
                 TextTranslator.le_paragraphs := None |} ] |}.

(** An answer for the two text shapes of scenario D: a translation of the
    first, and an element without paragraphs for the second. *)
Definition scenario_D_answer : TextTranslator.LlmResponse :=
  {| TextTranslator.lr_slide_context := None;
     TextTranslator.lr_elements :=
       Some [ {| TextTranslator.le_id := Some "7";
                 TextTranslator.le_role := None;
                 TextTranslator.le_paragraphs :=
                   Some [ {| TextTranslator.lp_text := Some "Awwal";
                             TextTranslator.lp_lvl := None;
                             TextTranslator.lp_bold := None;
                             TextTranslator.lp_alignment := None;
                             TextTranslator.lp_bullet := None |} ] |};
              {| TextTranslator.le_id := Some "8";
                 TextTranslator.le_role := None;
                 TextTranslator.le_paragraphs := None |} ] |}.

(* ===================================================================== *)
(** ** Command line: the slide selection *)
(* ===================================================================== *)

(** [s.split(sep)] for a one-character [sep]: never empty, one more piece
    than there are separators. *)
Fixpoint split_on (sep : ascii) (s : string) : list string :=
  match s with
  | EmptyString => [EmptyString]
  | String c rest =>
      if Ascii.eqb c sep then EmptyString :: split_on sep rest
      else match split_on sep rest with
           | [] => [String c EmptyString]
           | l :: ls => String c l :: ls
           end
  end.

(** [list(range(start, stop))] *)
Definition range (start stop : Z) : list Z := seqZ start (stop - start).

(** [sorted(set(result))]: the members of [result], each once, ascending. *)
Definition sorted_set (result : list Z) : list Z :=
  merge_sort Z.le (remove_dups result).

(** [parse_slides_arg] of [main.py].  The builtin [int] is a parameter: it
    gives the number a string denotes, or [None] where it raises
    [ValueError]; nothing below depends on which strings it accepts. *)
Section SlidesArg.

Variable int : string -> option Z.

(** The body of the loop: the numbers one part adds to [result]. *)
Definition parse_part (part : string) : option (list Z) :=
  let part := Py.strip part in
  if Py.contains "-" part then
    match PyStr.split1 "-" part with
    | Some (start, end_) =>
        match int (Py.strip start) with
        | Some start =>
            match int (Py.strip end_) with
            | Some end_ => Some (range start (end_ + 1))
            | None => None
            end
        | None => None
        end
    | None => None
    end
  else
    match int part with
    | Some n => Some [n]
    | None => None
    end.

Definition parse_slides_arg (slides_str : string) (max_slides : Z)
    : option (list Z) :=
  if String.eqb (Py.lower slides_str) "all" then Some (range 1 (max_slides + 1))
  else
    match mapM parse_part (split_on "," slides_str) with
    | Some results => Some (sorted_set (concat results))
    | None => None
    end.

End SlidesArg.

(** A reader of plain decimal numerals, for running [parse_slides_arg] on
    examples. *)
Fixpoint decimal (acc : option Z) (s : string) : option Z :=
  match s with
  | EmptyString => acc
  | String c rest =>
      let n := Py.code c in
      if ((48 <=? n) && (n <=? 57))%N
      then decimal (Some (10 * default 0 acc + Z.of_N (n - 48))) rest
      else None
  end.



(* ===================================================================== *)
(** * Properties *)
(* ===================================================================== *)

(** Induction over the tree, with the children of a group covered. *)
Lemma Node_ind' (P : Node -> Prop) :
  (forall s, P (Sp s)) ->
  (forall s, P (Pic s)) ->
  (forall s, P (CxnSp s)) ->
  (forall g children, Forall P children -> P (GrpSp g children)) ->
  (forall f, P (GraphicFrame f)) ->
  forall n, P n.
Proof.
  intros HSp HPic HCxn HGrp HGfx.
  fix IH 1. intros [s|s|s|g children|f].
  - apply HSp.
  - apply HPic.
  - apply HCxn.
  - apply HGrp. induction children as [|c cs IHcs]; constructor.
    + apply IH.
    + exact IHcs.
  - apply HGfx.
Qed.

(** ** The coordinate mirror *)

(** C1. [mirror_x] computes
    [space_offset + (space_width - ((x - space_offset) + width))]; in a root
    space of width 12,192,000 at offset 0 a shape at [x = 0] of width 3,000,000
    goes to [x = 9,192,000]. *)
Theorem mirror_x_formula :
  (forall x width space_width space_offset,
     mirror_x x width space_width space_offset
     = space_offset + (space_width - ((x - space_offset) + width)))
  /\ mirror_x 0 3000000 12192000 0 = 9192000.
Proof. split; [intros; unfold mirror_x; lia | reflexivity]. Qed.

(** C2. Mirroring twice in the same space with the same width gives the
    original [x] back. *)
Theorem mirror_x_involution :
  forall x width space_width space_offset,
    mirror_x (mirror_x x width space_width space_offset)
             width space_width space_offset = x.
Proof. intros. unfold mirror_x. lia. Qed.

(** ** Setters and getters *)

Lemma shape_xfrm_set_offset_x s new_x :
  xfrm_box (shape_xfrm (_set_offset_x s new_x))
  = option_map (fun '(_, w) => (new_x, w)) (xfrm_box (shape_xfrm s)).
Proof.
  unfold _set_offset_x, shape_xfrm.
  destruct s as [c [[[xf|] pg]|] tb]; simpl; try reflexivity.
  destruct xf as [fl [o|] [e|] co ce]; simpl; reflexivity.
Qed.

Lemma xfrm_box_bounding_box s :
  xfrm_box (shape_xfrm s)
  = option_map (fun bbox => (bb_x bbox, bb_width bbox)) (_get_bounding_box s).
Proof.
  unfold _get_bounding_box, shape_xfrm.
  destruct s as [c [[[xf|] pg]|] tb]; simpl; try reflexivity.
  destruct xf as [fl [o|] [e|] co ce]; simpl; reflexivity.
Qed.

Lemma txBody_set_offset_x s new_x : txBody (_set_offset_x s new_x) = txBody s.
Proof.
  unfold _set_offset_x.
  destruct s as [c [[[xf|] pg]|] tb]; simpl; try reflexivity.
  destruct xf as [fl [o|] e co ce]; reflexivity.
Qed.

Lemma cNvPr_set_offset_x s new_x : cNvPr (_set_offset_x s new_x) = cNvPr s.
Proof.
  unfold _set_offset_x.
  destruct s as [c [[[xf|] pg]|] tb]; simpl; try reflexivity.
  destruct xf as [fl [o|] e co ce]; reflexivity.
Qed.

Lemma shape_flipH_set_offset_x s new_x :
  shape_flipH (_set_offset_x s new_x) = shape_flipH s.
Proof.
  unfold _set_offset_x, shape_flipH, shape_xfrm.
  destruct s as [c [[[xf|] pg]|] tb]; simpl; try reflexivity.
  destruct xf as [fl [o|] e co ce]; reflexivity.
Qed.

Lemma xfrm_box_set_flip_h s :
  xfrm_box (shape_xfrm (_set_flip_h s)) = xfrm_box (shape_xfrm s).
Proof.
  unfold _set_flip_h, shape_xfrm.
  destruct s as [c [[[xf|] pg]|] tb]; reflexivity.
Qed.

Lemma txBody_set_flip_h s : txBody (_set_flip_h s) = txBody s.
Proof.
  unfold _set_flip_h. destruct s as [c [[[xf|] pg]|] tb]; reflexivity.
Qed.

Lemma shape_xfrm_set_txBody s tb :
  shape_xfrm (set_shape_txBody s tb) = shape_xfrm s.
Proof. reflexivity. Qed.

(** ** Every element kind mirrors its own box in the space it is given *)

Lemma set_offset_x_box s space_width space_offset bbox :
  _get_bounding_box s = Some bbox ->
  xfrm_box (shape_xfrm
    (_set_offset_x s
       (mirror_x (bb_x bbox) (bb_width bbox) space_width space_offset)))
  = option_map (mirror_box space_width space_offset) (xfrm_box (shape_xfrm s)).
Proof.
  intros Hbb. rewrite shape_xfrm_set_offset_x, xfrm_box_bounding_box, Hbb.
  reflexivity.
Qed.

Lemma no_bounding_box_no_box s :
  _get_bounding_box s = None -> xfrm_box (shape_xfrm s) = None.
Proof. intros H. rewrite xfrm_box_bounding_box, H. reflexivity. Qed.

Lemma process_shape_box self s space_width space_offset :
  xfrm_box (shape_xfrm (_process_shape self s space_width space_offset))
  = option_map (mirror_box space_width space_offset) (xfrm_box (shape_xfrm s)).
Proof.
  unfold _process_shape.
  destruct (_get_bounding_box s) as [bbox|] eqn:Hbb.
  - rewrite <- (set_offset_x_box s space_width space_offset bbox Hbb).
    set (s1 := _set_offset_x s _).
    destruct (_should_flip_shape self (Sp s1) bbox _).
    + destruct (txBody (_set_flip_h s1));
        rewrite ?shape_xfrm_set_txBody; apply xfrm_box_set_flip_h.
    + destruct (txBody s1); reflexivity.
  - rewrite (no_bounding_box_no_box s Hbb). reflexivity.
Qed.

Lemma process_picture_box self s space_width space_offset :
  xfrm_box (shape_xfrm (_process_picture self s space_width space_offset))
  = option_map (mirror_box space_width space_offset) (xfrm_box (shape_xfrm s)).
Proof.
  unfold _process_picture.
  destruct (_get_bounding_box s) as [bbox|] eqn:Hbb.
  - apply set_offset_x_box, Hbb.
  - rewrite (no_bounding_box_no_box s Hbb). reflexivity.
Qed.

Lemma process_connector_box self s space_width space_offset :
  xfrm_box (shape_xfrm (_process_connector self s space_width space_offset))
  = option_map (mirror_box space_width space_offset) (xfrm_box (shape_xfrm s)).
Proof.
  unfold _process_connector.
  destruct (_get_bounding_box s) as [bbox|] eqn:Hbb.
  - rewrite <- (set_offset_x_box s space_width space_offset bbox Hbb).
    set (s1 := _set_offset_x s _).
    unfold shape_xfrm.
    destruct s1 as [c [[[xf|] pg]|] tb]; reflexivity.
  - rewrite (no_bounding_box_no_box s Hbb). reflexivity.
Qed.

Lemma process_graphicFrame_box self f space_width space_offset :
  xfrm_box (frame_xfrm (_process_graphicFrame self f space_width space_offset))
  = option_map (mirror_box space_width space_offset) (xfrm_box (frame_xfrm f)).
Proof.
  unfold _process_graphicFrame.
  destruct f as [c [xf|] g]; simpl; [|reflexivity].
  destruct xf as [fl [o|] [e|] co ce]; reflexivity.
Qed.

(** What [group_geometry] returns, in terms of the group's transform. *)
Lemma group_geometry_Some g xf o group_x group_width child_space :
  group_geometry g = Some (xf, o, group_x, group_width, child_space) ->
  grpSpPr g = Some {| grp_xfrm := Some xf |}
  /\ off xf = Some o
  /\ xfrm_box (Some xf) = Some (group_x, group_width).
Proof.
  unfold group_geometry.
  destruct g as [c [[[xf'|]]|]]; simpl; try discriminate.
  destruct xf' as [fl [o'|] [e'|] co ce]; simpl; try discriminate.
  intros [= <- <- <- <- <-]. auto.
Qed.

Lemma group_geometry_None g :
  group_geometry g = None -> group_box g = None.
Proof.
  unfold group_geometry, group_box.
  destruct g as [c [[[xf'|]]|]]; simpl; try reflexivity.
  destruct xf' as [fl [o'|] [e'|] co ce]; simpl; try reflexivity.
  discriminate.
Qed.

Lemma set_group_x_box g xf o new_x w :
  off xf = Some o ->
  xfrm_box (Some xf) = Some w ->
  group_box (set_group_x g xf o new_x) = Some (new_x, w.2).
Proof.
  unfold group_box. simpl. destruct xf as [fl o' [e|] co ce]; simpl.
  - intros ->. intros [= <-]. reflexivity.
  - intros ->. discriminate.
Qed.

Lemma process_element_box self n space_width space_offset :
  node_box (_process_element self n space_width space_offset)
  = if is_connector n && negb (flip_connectors self) then node_box n
    else option_map (mirror_box space_width space_offset) (node_box n).
Proof.
  destruct n as [s|s|s|g children|f]; simpl.
  - apply process_shape_box.
  - apply process_picture_box.
  - destruct (flip_connectors self); simpl; [apply process_connector_box|reflexivity].
  - destruct (group_geometry g) as [[[[[xf o] gx] gw] [cw co]]|] eqn:Hg.
    + apply group_geometry_Some in Hg as (Hpr & Ho & Hbox).
      cbn [node_box].
      rewrite (set_group_x_box g xf o _ (gx, gw) Ho Hbox).
      unfold group_box. rewrite Hpr. simpl grp_xfrm. rewrite Hbox.
      reflexivity.
    + simpl. rewrite (group_geometry_None g Hg). reflexivity.
  - apply process_graphicFrame_box.
Qed.

(** ** The walker on groups *)

Lemma process_element_GrpSp self g children space_width space_offset :
  _process_element self (GrpSp g children) space_width space_offset
  = _process_group self g children space_width space_offset.
Proof.
  unfold _process_group, _process_container. simpl.
  destruct (group_geometry g) as [[[[[xf o] gx] gw] [cw co]]|]; reflexivity.
Qed.

Lemma process_container_lookup self container space_width space_offset i c :
  container !! i = Some c ->
  _process_container self container space_width space_offset !! i
  = Some (_process_element self c space_width space_offset).
Proof.
  intros Hc. unfold _process_container.
  change (map ?f ?l) with (f <$> l). rewrite list_lookup_fmap, Hc. reflexivity.
Qed.

Lemma group_geometry_declared g xf o e ch_off ch_ext :
  grpSpPr g = Some {| grp_xfrm := Some xf |} ->
  off xf = Some o -> ext xf = Some e ->
  chOff xf = Some ch_off -> chExt xf = Some ch_ext ->
  group_geometry g
  = Some (xf, o, default 0 (off_x o), default 0 (ext_cx e),
          (default (default 0 (ext_cx e)) (ext_cx ch_ext),
           default 0 (off_x ch_off))).
Proof.
  intros Hpr Ho He Hco Hce. unfold group_geometry.
  rewrite Hpr. simpl. rewrite Ho, He, Hco, Hce. reflexivity.
Qed.

(** C3. A group's own [x] is mirrored in the parent space; its children are
    processed in the child space the group declares, whatever the parent space
    and the group's position in it.  In Scenario B the group goes to
    [x = 9,192,000] and its child to [x = 1,000,000]. *)
Theorem group_in_parent_space_children_in_child_space :
  (forall self g children space_width space_offset xf o e ch_off ch_ext,
     grpSpPr g = Some {| grp_xfrm := Some xf |} ->
     off xf = Some o -> ext xf = Some e ->
     chOff xf = Some ch_off -> chExt xf = Some ch_ext ->
     let group_x := default 0 (off_x o) in
     let group_width := default 0 (ext_cx e) in
     let child_width := default group_width (ext_cx ch_ext) in
     let child_offset := default 0 (off_x ch_off) in
     (exists g',
        _process_element self (GrpSp g children) space_width space_offset
        = GrpSp g' (_process_container self children child_width child_offset)
        /\ group_box g'
           = Some (mirror_x group_x group_width space_width space_offset,
                   group_width))
     /\ (forall i c box,
           children !! i = Some c -> node_box c = Some box ->
           (is_connector c = true -> flip_connectors self = true) ->
           exists c',
             node_children
               (_process_element self (GrpSp g children) space_width space_offset)
             !! i = Some c'
             /\ node_box c'
                = Some (mirror_x box.1 box.2 child_width child_offset, box.2))
     /\ (forall space_width' space_offset',
           node_children
             (_process_element self (GrpSp g children) space_width' space_offset')
           = node_children
               (_process_element self (GrpSp g children) space_width space_offset)))
  /\ (exists g' c',
        _process_container default_engine
          [GrpSp scenario_B_head [scenario_B_child]] 12192000 0
        = [GrpSp g' [c']]
        /\ group_box g' = Some (9192000, 2000000)
        /\ node_box c' = Some (1000000, 500000)).
Proof.
  split.
  - intros self g children space_width space_offset xf o e ch_off ch_ext
      Hpr Ho He Hco Hce group_x group_width child_width child_offset.
    pose proof (group_geometry_declared g xf o e ch_off ch_ext Hpr Ho He Hco Hce)
      as Hgeo.
    assert (Hproc : forall W O,
      _process_element self (GrpSp g children) W O
      = GrpSp (set_group_x g xf o (mirror_x group_x group_width W O))
              (_process_container self children child_width child_offset)).
    { intros W O. rewrite process_element_GrpSp. unfold _process_group.
      rewrite Hgeo. reflexivity. }
    split; [|split].
    + eexists. split; [apply Hproc|].
      apply (set_group_x_box g xf o _ (group_x, group_width) Ho).
      unfold xfrm_box. rewrite Ho, He. reflexivity.
    + intros i c box Hc Hbox Hcxn. rewrite Hproc. simpl.
      eexists. split; [apply process_container_lookup, Hc|].
      rewrite process_element_box, Hbox.
      destruct (is_connector c) eqn:Hic; [rewrite (Hcxn eq_refl)|]; reflexivity.
    + intros W' O'. rewrite !Hproc. reflexivity.
  - do 2 eexists. split; [vm_compute; reflexivity|]. split; reflexivity.
Qed.

(** The hypotheses of C3 hold for the group of Scenario B. *)
Lemma group_in_parent_space_children_in_child_space_witness :
  exists g',
    _process_element default_engine (GrpSp scenario_B_head [scenario_B_child])
      12192000 0
    = GrpSp g' (_process_container default_engine [scenario_B_child] 2000000 0)
    /\ group_box g' = Some (mirror_x 1000000 2000000 12192000 0, 2000000).
Proof.
  exact (proj1 (proj1 group_in_parent_space_children_in_child_space
    default_engine scenario_B_head [scenario_B_child] 12192000 0
    _ _ _ _ _ eq_refl eq_refl eq_refl eq_refl eq_refl)).
Defined.

(** C9, as stated, fails: for a group at [x = 1,000,000] of width 2,000,000
    that declares no child space, the children are not processed in the space
    at the group's own offset (neither its original offset nor its mirrored
    one); the child lands at [x = 1,000,000], where the claimed space would
    put it at [x = 3,000,000]. *)
Lemma fallback_space_is_not_at_group_offset :
  let out :=
    _process_element default_engine (GrpSp undeclared_head [scenario_B_child])
      12192000 0 in
  map node_box (node_children out) = [Some (1000000, 500000)]
  /\ (let '(w, o) := claimed_fallback_space 1000000 2000000 in
      node_children out
      <> _process_container default_engine [scenario_B_child] w o)
  /\ (let '(w, o) := claimed_fallback_space 9192000 2000000 in
      node_children out
      <> _process_container default_engine [scenario_B_child] w o).
Proof.
  split; [vm_compute; reflexivity|].
  split; intros H; apply (f_equal (map node_box)) in H;
    vm_compute in H; discriminate H.
Qed.

(** C9, amended. A group that lacks [a:chOff] or [a:chExt] has its children
    processed in the space of offset 0 and of the group's own width. *)
Theorem undeclared_child_space_is_zero_offset_group_width :
  forall self g children space_width space_offset xf o e,
    grpSpPr g = Some {| grp_xfrm := Some xf |} ->
    off xf = Some o -> ext xf = Some e ->
    chOff xf = None \/ chExt xf = None ->
    let group_width := default 0 (ext_cx e) in
    exists g',
      _process_element self (GrpSp g children) space_width space_offset
      = GrpSp g' (_process_container self children group_width 0).
Proof.
  intros self g children space_width space_offset xf o e Hpr Ho He Hch
    group_width.
  rewrite process_element_GrpSp. unfold _process_group, group_geometry.
  rewrite Hpr. simpl. rewrite Ho, He.
  destruct Hch as [-> | Hce].
  - eexists. reflexivity.
  - rewrite Hce. destruct (chOff xf); eexists; reflexivity.
Qed.

Lemma undeclared_child_space_is_zero_offset_group_width_witness :
  exists g',
    _process_element default_engine (GrpSp undeclared_head [scenario_B_child])
      12192000 0
    = GrpSp g' (_process_container default_engine [scenario_B_child] 2000000 0).
Proof.
  exact (undeclared_child_space_is_zero_offset_group_width
    default_engine undeclared_head [scenario_B_child] 12192000 0
    _ _ _ eq_refl eq_refl eq_refl (or_introl eq_refl)).
Defined.

(** ** The classifier *)

Lemma strip_nonempty_truthy txt :
  Py.strip txt <> "" -> Py.truthy txt && Py.truthy (Py.strip txt) = true.
Proof.
  intros Hs. destruct txt as [|c rest]; [exfalso; apply Hs; reflexivity|].
  simpl Py.truthy at 1. destruct (Py.strip (String c rest)); [congruence|reflexivity].
Qed.

Lemma run_text_has_text tb p r txt :
  p ∈ paragraphs tb -> r ∈ runs p -> t r = Some txt -> Py.strip txt <> "" ->
  has_text tb = true.
Proof.
  intros Hp Hr Ht Hs. unfold has_text. apply existsb_exists.
  exists txt. split; [|apply strip_nonempty_truthy, Hs].
  unfold txBody_ts. apply in_concat. exists (paragraph_ts p). split.
  - apply in_map, list_elem_of_In, Hp.
  - apply list_elem_of_In. unfold paragraph_ts. apply elem_of_app. left.
    apply list_elem_of_omap. exists r. split; assumption.
Qed.

Lemma prstGeom_set_offset_x s new_x :
  node_prstGeom (Sp (_set_offset_x s new_x)) = node_prstGeom (Sp s).
Proof.
  unfold _set_offset_x, node_prstGeom. simpl.
  destruct s as [c [[[xf|] pg]|] tb]; simpl; try reflexivity.
  destruct xf as [fl [o|] e co ce]; reflexivity.
Qed.

Lemma should_flip_set_offset_x self s new_x bbox name :
  _should_flip_shape self (Sp (_set_offset_x s new_x)) bbox name
  = _should_flip_shape self (Sp s) bbox name.
Proof.
  unfold _should_flip_shape. rewrite prstGeom_set_offset_x.
  unfold node_txBody. simpl. rewrite txBody_set_offset_x. reflexivity.
Qed.

(** A shape the classifier does not flip keeps its [flipH] attribute. *)
Lemma process_shape_keeps_flipH self s space_width space_offset :
  (forall bbox, _get_bounding_box s = Some bbox ->
     _should_flip_shape self (Sp s) bbox (_get_element_name (Sp s)) = false) ->
  shape_flipH (_process_shape self s space_width space_offset) = shape_flipH s.
Proof.
  intros Hno. unfold _process_shape.
  destruct (_get_bounding_box s) as [bbox|] eqn:Hbb; [|reflexivity].
  rewrite should_flip_set_offset_x, (Hno bbox eq_refl).
  set (s1 := _set_offset_x s _).
  transitivity (shape_flipH s1); [|apply shape_flipH_set_offset_x].
  destruct (txBody s1); reflexivity.
Qed.

(** C4. A shape whose text body has a run with non-whitespace text is never
    given the horizontal flip, whatever its geometry, width or aspect ratio:
    the classifier answers no, and the shape keeps its [flipH] attribute. *)
Theorem text_shape_never_flipped :
  forall self s tb p r txt,
    txBody s = Some tb ->
    p ∈ paragraphs tb -> r ∈ runs p -> t r = Some txt ->
    Py.strip txt <> "" ->
    (forall bbox name, _should_flip_shape self (Sp s) bbox name = false)
    /\ (forall space_width space_offset,
          shape_flipH (_process_shape self s space_width space_offset)
          = shape_flipH s).
Proof.
  intros self s tb p r txt Htb Hp Hr Ht Hs.
  assert (Hno : forall bbox name, _should_flip_shape self (Sp s) bbox name = false).
  { intros bbox name. unfold _should_flip_shape, node_txBody. simpl.
    rewrite Htb, (run_text_has_text tb p r txt Hp Hr Ht Hs). reflexivity. }
  split; [exact Hno|].
  intros space_width space_offset. apply process_shape_keeps_flipH.
  intros bbox _. apply Hno.
Qed.

Lemma text_shape_never_flipped_witness :
  (forall bbox name,
     _should_flip_shape default_engine (Sp text_arrow) bbox name = false)
  /\ (forall space_width space_offset,
        shape_flipH (_process_shape default_engine text_arrow
                       space_width space_offset)
        = shape_flipH text_arrow).
Proof.
  apply (text_shape_never_flipped default_engine text_arrow
           {| bodyPr := None; paragraphs := [plain_paragraph "en-US" "Next"] |}
           (plain_paragraph "en-US" "Next") (plain_run "en-US" "Next") "Next").
  - reflexivity.
  - apply list_elem_of_here.
  - apply list_elem_of_here.
  - reflexivity.
  - vm_compute. discriminate.
Defined.







(** ** Running the transform twice *)



















(** [default_engine] is the engine that [__init__] builds when the
    presentation part gives no slide size. *)
Lemma init_default_engine : init None 0.4%float true = Some default_engine.
Proof. vm_compute. reflexivity. Qed.




(** ** Content injection *)

Lemma translation_map_lookup_None translated_json k :
  k ∉ map elem_id (default [] (elements translated_json)) ->
  translation_map translated_json !! k = None.
Proof.
  unfold translation_map. generalize (default [] (elements translated_json)).
  intros l. assert (H0 : (∅ : gmap string ContentRecord) !! k = None)
    by apply lookup_empty.
  revert H0. generalize (∅ : gmap string ContentRecord).
  induction l as [|e l IH]; intros m Hm Hk; [exact Hm|].
  simpl. apply IH.
  - rewrite lookup_insert_ne; [exact Hm|].
    intros Heq. apply Hk. simpl. rewrite Heq. apply list_elem_of_here.
  - intros Hin. apply Hk. simpl. apply list_elem_of_further, Hin.
Qed.

Lemma cNvPr_update_shape_text shape translated :
  cNvPr (_update_shape_text shape translated) = cNvPr shape.
Proof. unfold _update_shape_text. destruct (txBody shape); reflexivity. Qed.

Lemma cNvPr_inject_shape tm shape : cNvPr (inject_shape tm shape) = cNvPr shape.
Proof.
  unfold inject_shape. destruct (cNvPr shape) as [c|] eqn:Hc; [|exact Hc].
  destruct (tm !! _); [rewrite cNvPr_update_shape_text|]; exact Hc.
Qed.

Lemma node_id_inject_node tm n : node_id (inject_node tm n) = node_id n.
Proof.
  destruct n as [s|s|s|g ch|f]; simpl; try reflexivity.
  rewrite cNvPr_inject_shape. reflexivity.
Qed.

Lemma nodes_inject_node tm n :
  nodes (inject_node tm n) = map (inject_node tm) (nodes n).
Proof.
  induction n as [s|s|s|g ch IH|f] using Node_ind'; try reflexivity.
  simpl. f_equal.
  induction IH as [|c cs Hc _ IHcs]; [reflexivity|].
  simpl. rewrite map_app, Hc, IHcs. reflexivity.
Qed.

Lemma slide_nodes_inject root translated_json :
  slide_nodes (inject_translated_content root translated_json)
  = map (inject_node (translation_map translated_json)) (slide_nodes root).
Proof.
  unfold slide_nodes, inject_translated_content. simpl.
  destruct (spTree root) as [l|]; simpl; [|reflexivity].
  induction l as [|c cs IH]; [reflexivity|].
  simpl. rewrite map_app, nodes_inject_node, IH. reflexivity.
Qed.

Lemma all_sp_inject root translated_json :
  all_sp (inject_translated_content root translated_json)
  = map (inject_shape (translation_map translated_json)) (all_sp root).
Proof.
  unfold all_sp. rewrite slide_nodes_inject.
  induction (slide_nodes root) as [|n ns IH]; [reflexivity|].
  destruct n as [s|s|s|g ch|f]; simpl; try exact IH.
  f_equal. exact IH.
Qed.

Lemma inject_shape_absent translated_json s :
  (forall c, cNvPr s = Some c ->
     default "" (cNvPr_id c)
     ∉ map elem_id (default [] (elements translated_json))) ->
  inject_shape (translation_map translated_json) s = s.
Proof.
  intros Habs. unfold inject_shape.
  destruct (cNvPr s) as [c|]; [|reflexivity].
  rewrite translation_map_lookup_None; [reflexivity|]. apply Habs. reflexivity.
Qed.

(** C5. Injection neither adds nor removes a shape and changes no id: the
    shapes of the part and their ids are the same before and after, in the
    same order; and a shape whose id no translated element carries (or that
    has no [p:cNvPr] at all) is left exactly as it was, text included. *)
Theorem injection_preserves_shape_ids :
  forall root translated_json,
    let root' := inject_translated_content root translated_json in
    shape_ids root' = shape_ids root
    /\ length (slide_nodes root') = length (slide_nodes root)
    /\ length (all_sp root') = length (all_sp root)
    /\ (forall i s,
          all_sp root !! i = Some s ->
          (forall c, cNvPr s = Some c ->
             default "" (cNvPr_id c)
             ∉ map elem_id (default [] (elements translated_json))) ->
          all_sp root' !! i = Some s
          /\ (forall s', all_sp root' !! i = Some s' ->
                shape_text s' = shape_text s)).
Proof.
  intros root translated_json root'. subst root'.
  split; [|split; [|split]].
  - unfold shape_ids. rewrite slide_nodes_inject, map_map.
    apply map_ext. intros n. apply node_id_inject_node.
  - rewrite slide_nodes_inject. apply length_map.
  - rewrite all_sp_inject. apply length_map.
  - intros i s Hs Habs.
    assert (H : all_sp (inject_translated_content root translated_json) !! i
                = Some s).
    { rewrite all_sp_inject. change (map ?f ?l) with (f <$> l).
      rewrite list_lookup_fmap, Hs. simpl.
      rewrite (inject_shape_absent translated_json s Habs). reflexivity. }
    split; [exact H|]. intros s' Hs'. rewrite H in Hs'.
    injection Hs' as <-. reflexivity.
Qed.

Lemma injection_preserves_shape_ids_witness :
  all_sp (inject_translated_content scenario_D_slide scenario_D_json) !! 1%nat
  = Some untouched_shape
  /\ (forall s',
        all_sp (inject_translated_content scenario_D_slide scenario_D_json)
        !! 1%nat = Some s' ->
        shape_text s' = shape_text untouched_shape).
Proof.
  apply (proj2 (proj2 (proj2
    (injection_preserves_shape_ids scenario_D_slide scenario_D_json)))
    1%nat untouched_shape).
  - reflexivity.
  - intros c [= <-]. vm_compute. intros H.
    apply list_elem_of_In in H. destruct H as [H|[]]. discriminate H.
Defined.

(** *** The paragraph loop *)

Lemma merge_paragraphs_nil news :
  merge_paragraphs [] news
  = map (fun np => _create_paragraph (default "" (para_text np))) news.
Proof. induction news as [|np news IH]; simpl; [|rewrite IH]; reflexivity. Qed.

(** Past the last existing paragraph the loop only appends. *)
Lemma update_loop_append n_existing news :
  forall paras i,
    (n_existing <= i)%nat ->
    update_loop n_existing paras i news
    = (paras ++ merge_paragraphs [] news)%list.
Proof.
  induction news as [|np news IH]; intros paras i Hi; simpl.
  - rewrite app_nil_r. reflexivity.
  - unfold update_step. destruct (Nat.ltb_spec i n_existing) as [Hlt|_]; [lia|].
    rewrite IH by lia. rewrite <- app_assoc. reflexivity.
Qed.

(** The loop, started after [done], computes [merge_paragraphs] on the
    paragraphs that are left. *)
Lemma update_loop_merge news :
  forall done existing,
    update_loop (length done + length existing) (done ++ existing)
      (length done) news
    = (done ++ merge_paragraphs existing news)%list.
Proof.
  induction news as [|np news IH]; intros done existing; [reflexivity|].
  destruct existing as [|p existing']; simpl.
  - unfold update_step.
    destruct (Nat.ltb_spec (length done) (length done + 0)) as [Hlt|_]; [lia|].
    rewrite update_loop_append by lia.
    rewrite app_nil_r, <- app_assoc. reflexivity.
  - unfold update_step.
    destruct (Nat.ltb_spec (length done) (length done + S (length existing')))
      as [_|Hge]; [|lia].
    replace (alter _ (length done) (done ++ p :: existing'))
      with ((done ++ [_update_paragraph_text p (default "" (para_text np))])
            ++ existing')%list.
    + replace (length done + S (length existing'))%nat
        with (length (done ++ [_update_paragraph_text p
                                 (default "" (para_text np))])
              + length existing')%nat
        by (rewrite length_app; simpl; lia).
      replace (S (length done))
        with (length (done ++ [_update_paragraph_text p
                                 (default "" (para_text np))]))
        by (rewrite length_app; simpl; lia).
      rewrite IH, <- app_assoc. reflexivity.
    + rewrite <- app_assoc. simpl.
      rewrite alter_app_r_alt by lia.
      replace (length done - length done)%nat with 0%nat by lia. reflexivity.
Qed.

(** After the trailing removal: the updated paragraphs, then the created
    ones. *)
Lemma trim_merge_paragraphs news :
  forall existing,
    let n_existing := length existing in
    let paras := merge_paragraphs existing news in
    (take (n_existing - (n_existing - length news)) paras
     ++ drop n_existing paras)%list
    = (zip_with (fun p np => _update_paragraph_text p (default "" (para_text np)))
         existing news
       ++ map (fun np => _create_paragraph (default "" (para_text np)))
              (drop n_existing news))%list.
Proof.
  induction news as [|np news IH]; intros existing; simpl.
  - rewrite Nat.sub_0_r, Nat.sub_diag, drop_all.
    destruct existing; reflexivity.
  - destruct existing as [|p existing']; simpl.
    + rewrite merge_paragraphs_nil. reflexivity.
    + replace (S (length existing') - (length existing' - length news))%nat
        with (S (length existing' - (length existing' - length news)))
        by lia.
      simpl. f_equal. apply IH.
Qed.

(** The paragraphs of a shape after [_update_shape_text]. *)
Lemma update_shape_text_paragraphs shape translated tx_body :
  txBody shape = Some tx_body ->
  txBody (_update_shape_text shape translated)
  = Some {| bodyPr := bodyPr tx_body;
            paragraphs :=
              (zip_with (fun p np =>
                           _update_paragraph_text p (default "" (para_text np)))
                 (paragraphs tx_body) (new_paragraphs translated)
               ++ map (fun np => _create_paragraph (default "" (para_text np)))
                      (drop (length (paragraphs tx_body))
                            (new_paragraphs translated)))%list |}.
Proof.
  intros Htb. unfold _update_shape_text. rewrite Htb. simpl. do 2 f_equal.
  pose proof (update_loop_merge (new_paragraphs translated) []
                (paragraphs tx_body)) as Hloop.
  simpl in Hloop. rewrite Hloop. apply trim_merge_paragraphs.
Qed.

Lemma new_paragraphs_given translated ps :
  elem_paragraphs translated = Some ps -> ps <> [] ->
  new_paragraphs translated = ps.
Proof.
  intros Hps Hne. unfold new_paragraphs. rewrite Hps.
  destruct ps; [congruence|reflexivity].
Qed.

Lemma update_paragraph_text_runs p new_text :
  pPr (_update_paragraph_text p new_text) = pPr p
  /\ flds (_update_paragraph_text p new_text) = flds p
  /\ runs (_update_paragraph_text p new_text)
     = [match runs p with
        | first_run :: _ => updated_first_run first_run new_text
        | [] => _create_run new_text
        end].
Proof.
  unfold _update_paragraph_text, updated_first_run.
  destruct (runs p) as [|r rs]; simpl; [auto|].
  destruct (rPr r); auto.
Qed.

Lemma set_rPr_lang_idle r_pr v :
  lang r_pr = Some v -> set_rPr_lang r_pr v = r_pr.
Proof. destruct r_pr. simpl. intros ->. reflexivity. Qed.

(** C6, as stated, fails on the run properties: after a record of one
    paragraph is injected into the shape of three paragraphs, the one
    paragraph left has one run, whose properties are not those of the original
    first run: the language went from [en-US] to [ar-SA]. *)
Lemma injection_rewrites_first_run_language :
  exists tx_body' p' r',
    txBody (_update_shape_text three_paragraphs one_paragraph_record)
    = Some tx_body'
    /\ paragraphs tx_body' = [p']
    /\ runs p' = [r']
    /\ rPr r' <> rPr (plain_run "en-US" "First")
    /\ rPr r' = rPr (plain_run "ar-SA" "First").
Proof.
  do 3 eexists. split; [vm_compute; reflexivity|].
  split; [reflexivity|]. split; [reflexivity|].
  split; [discriminate|reflexivity].
Qed.

(** C6, amended. A record with a non-empty paragraph list shorter than the
    shape's: translated paragraph [i] goes onto original paragraph [i], whose
    paragraph properties stay, whose first run is kept with the new text and
    with its properties unchanged but for [lang], set to ["ar-SA"] (a fresh
    run when the paragraph had none), and whose other runs go; the original
    paragraphs past the last translated one are deleted.  With one translated
    paragraph and three original ones, one paragraph is left, and its single
    run has the first run's properties with [lang="ar-SA"]: the very same
    properties where that was the language already. *)
Theorem fewer_paragraphs_update_in_place :
  forall shape translated tx_body ps,
    txBody shape = Some tx_body ->
    elem_paragraphs translated = Some ps -> ps <> [] ->
    (length ps < length (paragraphs tx_body))%nat ->
    exists tx_body',
      txBody (_update_shape_text shape translated) = Some tx_body'
      /\ length (paragraphs tx_body') = length ps
      /\ (forall i p np,
            paragraphs tx_body !! i = Some p -> ps !! i = Some np ->
            exists p',
              paragraphs tx_body' !! i = Some p'
              /\ pPr p' = pPr p
              /\ runs p'
                 = [match runs p with
                    | first_run :: _ =>
                        updated_first_run first_run (default "" (para_text np))
                    | [] => _create_run (default "" (para_text np))
                    end])
      /\ (forall np p1 p2 p3 first_run other_runs,
            ps = [np] -> paragraphs tx_body = [p1; p2; p3] ->
            runs p1 = first_run :: other_runs ->
            exists p' r',
              paragraphs tx_body' = [p'] /\ runs p' = [r']
              /\ t r' = Some (default "" (para_text np))
              /\ rPr r'
                 = option_map (fun r_pr => set_rPr_lang r_pr "ar-SA")
                              (rPr first_run)
              /\ (forall r_pr, rPr first_run = Some r_pr ->
                    lang r_pr = Some "ar-SA" -> rPr r' = rPr first_run)).
Proof.
  intros shape translated tx_body ps Htb Hps Hne Hlen.
  rewrite (update_shape_text_paragraphs shape translated tx_body Htb).
  rewrite (new_paragraphs_given translated ps Hps Hne).
  rewrite drop_ge by lia. simpl map. rewrite app_nil_r.
  eexists. split; [reflexivity|]. simpl paragraphs.
  split; [|split].
  - rewrite length_zip_with. lia.
  - intros i p np Hp Hnp. eexists. split.
    + rewrite lookup_zip_with, Hp. simpl. rewrite Hnp. reflexivity.
    + destruct (update_paragraph_text_runs p (default "" (para_text np)))
        as (Hpr & _ & Hruns). split; assumption.
  - intros np p1 p2 p3 first_run other_runs -> Hparas Hruns.
    rewrite Hparas. simpl zip_with.
    destruct (update_paragraph_text_runs p1 (default "" (para_text np)))
      as (_ & _ & Hr). rewrite Hruns in Hr.
    do 2 eexists. split; [reflexivity|]. split; [exact Hr|].
    split; [reflexivity|]. split; [reflexivity|].
    intros r_pr Hrpr Hlang. simpl. rewrite Hrpr. simpl.
    rewrite (set_rPr_lang_idle r_pr "ar-SA" Hlang). reflexivity.
Qed.

Lemma fewer_paragraphs_update_in_place_witness :
  exists tx_body',
    txBody (_update_shape_text three_paragraphs one_paragraph_record)
    = Some tx_body'
    /\ length (paragraphs tx_body') = 1%nat.
Proof.
  destruct (fewer_paragraphs_update_in_place three_paragraphs
              one_paragraph_record
              {| bodyPr := None;
                 paragraphs := [ plain_paragraph "en-US" "First";
                                 plain_paragraph "en-US" "Second";
                                 plain_paragraph "en-US" "Third" ] |}
              [ {| para_text := Some "Translated"; para_level := Some 0;
                   para_is_bold := Some false |} ]
              eq_refl eq_refl ltac:(discriminate) ltac:(simpl; lia))
    as (tx_body' & Htx & Hlen & _).
  exists tx_body'. split; [exact Htx|exact Hlen].
Defined.

(** ** The chart axis flip *)

Lemma find_update_first tg f cs c :
  Xml.find tg cs = Some c -> tag (f c) = tg ->
  Xml.find tg (Xml.update_first tg f cs) = Some (f c).
Proof.
  unfold Xml.find. intros Hfind Htag.
  induction cs as [|c0 cs IH]; simpl in *; [discriminate|].
  destruct (String.eqb (tag c0) tg) eqn:E; simpl.
  - injection Hfind as ->. rewrite Htag, String.eqb_refl. reflexivity.
  - rewrite E. apply IH, Hfind.
Qed.

Lemma update_first_idem tg f cs :
  (forall c, tag c = tg -> tag (f c) = tg /\ f (f c) = f c) ->
  Xml.update_first tg f (Xml.update_first tg f cs) = Xml.update_first tg f cs.
Proof.
  intros Hf. induction cs as [|c0 cs IH]; simpl; [reflexivity|].
  destruct (String.eqb_spec (tag c0) tg) as [E|E]; simpl.
  - destruct (Hf c0 E) as [Ht Hff]. rewrite Ht, String.eqb_refl, Hff.
    reflexivity.
  - destruct (String.eqb_spec (tag c0) tg); [contradiction|].
    rewrite IH. reflexivity.
Qed.

Lemma update_first_absent tg f cs :
  Xml.find tg cs = None -> Xml.update_first tg f cs = cs.
Proof.
  unfold Xml.find. induction cs as [|c0 cs IH]; simpl; [reflexivity|].
  destruct (String.eqb (tag c0) tg); [discriminate|].
  intros H. rewrite (IH H). reflexivity.
Qed.

Lemma find_app tg cs1 cs2 :
  Xml.find tg (cs1 ++ cs2)
  = match Xml.find tg cs1 with
    | Some c => Some c
    | None => Xml.find tg cs2
    end.
Proof.
  unfold Xml.find. induction cs1 as [|c0 cs1 IH]; simpl; [reflexivity|].
  destruct (String.eqb (tag c0) tg); [reflexivity|apply IH].
Qed.

Lemma update_first_app_absent tg f cs1 cs2 :
  Xml.find tg cs1 = None ->
  Xml.update_first tg f (cs1 ++ cs2) = cs1 ++ Xml.update_first tg f cs2.
Proof.
  unfold Xml.find. induction cs1 as [|c0 cs1 IH]; simpl; [reflexivity|].
  destruct (String.eqb (tag c0) tg); [discriminate|].
  intros H. rewrite (IH H). reflexivity.
Qed.

Lemma find_take_absent tg cs n :
  Xml.find tg cs = None -> Xml.find tg (take n cs) = None.
Proof.
  unfold Xml.find. revert n. induction cs as [|c0 cs IH]; intros [|n]; simpl;
    try reflexivity.
  destruct (String.eqb (tag c0) tg); [discriminate|]. apply IH.
Qed.

Lemma get_set key value a : Xml.get key (Xml.set key value a) = Some value.
Proof.
  induction a as [|[k v] a IH]; simpl.
  - rewrite String.eqb_refl. reflexivity.
  - destruct (String.eqb k key) eqn:E; simpl; rewrite E; [reflexivity|exact IH].
Qed.

Lemma set_set key value a :
  Xml.set key value (Xml.set key value a) = Xml.set key value a.
Proof.
  induction a as [|[k v] a IH]; simpl.
  - rewrite String.eqb_refl. reflexivity.
  - destruct (String.eqb k key) eqn:E; simpl; rewrite E; [reflexivity|].
    rewrite IH. reflexivity.
Qed.

Lemma count_cons tg c cs :
  Xml.count tg (c :: cs)
  = ((if String.eqb (tag c) tg then 1 else 0) + Xml.count tg cs)%nat.
Proof.
  unfold Xml.count. rewrite filter_cons.
  destruct (String.eqb_spec (tag c) tg); case_decide; try contradiction;
    reflexivity.
Qed.

Lemma count_app tg cs1 cs2 :
  Xml.count tg (cs1 ++ cs2) = (Xml.count tg cs1 + Xml.count tg cs2)%nat.
Proof. unfold Xml.count. rewrite filter_app, length_app. reflexivity. Qed.

Lemma count_absent tg cs : Xml.find tg cs = None -> Xml.count tg cs = 0%nat.
Proof.
  unfold Xml.find. induction cs as [|c0 cs IH]; simpl; [reflexivity|].
  rewrite count_cons. destruct (String.eqb (tag c0) tg); [discriminate|].
  exact IH.
Qed.

Lemma count_present tg cs c :
  Xml.find tg cs = Some c -> (1 <= Xml.count tg cs)%nat.
Proof.
  unfold Xml.find. induction cs as [|c0 cs IH]; simpl; [discriminate|].
  rewrite count_cons. destruct (String.eqb (tag c0) tg); [lia|].
  intros H. specialize (IH H). lia.
Qed.

Lemma count_update_first tg tg' f cs :
  (forall c, tag (f c) = tag c) ->
  Xml.count tg' (Xml.update_first tg f cs) = Xml.count tg' cs.
Proof.
  intros Hf. induction cs as [|c0 cs IH]; simpl; [reflexivity|].
  destruct (String.eqb (tag c0) tg); rewrite !count_cons, ?Hf, ?IH; reflexivity.
Qed.

Lemma count_take_drop tg cs n :
  (Xml.count tg (take n cs) + Xml.count tg (drop n cs))%nat = Xml.count tg cs.
Proof. rewrite <- count_app, take_drop. reflexivity. Qed.

Lemma tag_set_orientation scaling : tag (set_orientation scaling) = tag scaling.
Proof. destruct scaling. reflexivity. Qed.

Lemma orientation_maxMin_idem o :
  tag o = "c:orientation" ->
  tag (orientation_maxMin o) = "c:orientation"
  /\ orientation_maxMin (orientation_maxMin o) = orientation_maxMin o.
Proof.
  intros Ht. split; [exact Ht|]. unfold orientation_maxMin. simpl.
  rewrite set_set. reflexivity.
Qed.

(** After [set_orientation] the scaling element has an orientation child
    whose [val] is ["maxMin"]. *)
Lemma set_orientation_found scaling :
  exists orientation,
    Xml.find "c:orientation" (children (set_orientation scaling))
    = Some orientation
    /\ Xml.get "val" (attrib orientation) = Some "maxMin".
Proof.
  destruct scaling as [tg a cs]. unfold set_orientation. simpl.
  destruct (Xml.find "c:orientation" cs) as [o|] eqn:Hfind.
  - exists (orientation_maxMin o). split; [|apply get_set].
    apply find_update_first; [exact Hfind|].
    unfold Xml.find in Hfind. apply find_some in Hfind as [_ Ht].
    apply String.eqb_eq in Ht. exact Ht.
  - eexists. split; [rewrite find_app, Hfind; reflexivity|reflexivity].
Qed.

Lemma set_orientation_idem scaling :
  set_orientation (set_orientation scaling) = set_orientation scaling.
Proof.
  destruct scaling as [tg a cs]. unfold set_orientation. simpl.
  destruct (Xml.find "c:orientation" cs) as [o|] eqn:Hfind.
  - assert (Ht : tag o = "c:orientation").
    { unfold Xml.find in Hfind. apply find_some in Hfind as [_ Ht].
      apply String.eqb_eq in Ht. exact Ht. }
    rewrite (find_update_first "c:orientation" orientation_maxMin cs o Hfind Ht).
    rewrite update_first_idem; [reflexivity|].
    intros c Hc. apply orientation_maxMin_idem, Hc.
  - rewrite find_app, Hfind. simpl.
    rewrite update_first_app_absent by exact Hfind. reflexivity.
Qed.

(** [set_orientation] adds an orientation element only where there was
    none. *)
Lemma set_orientation_count scaling :
  Xml.count "c:orientation" (children (set_orientation scaling))
  = Nat.max 1 (Xml.count "c:orientation" (children scaling)).
Proof.
  destruct scaling as [tg a cs]. unfold set_orientation. simpl.
  destruct (Xml.find "c:orientation" cs) as [o|] eqn:Hfind.
  - rewrite count_update_first by reflexivity.
    pose proof (count_present _ _ _ Hfind). lia.
  - rewrite count_app, (count_absent _ _ Hfind). reflexivity.
Qed.

Lemma find_scaling_tag val_ax scaling :
  Xml.find "c:scaling" val_ax = Some scaling -> tag scaling = "c:scaling".
Proof.
  unfold Xml.find. intros H. apply find_some in H as [_ Ht].
  apply String.eqb_eq in Ht. exact Ht.
Qed.

(** The element at the index that [Xml.index] returns carries the tag, and no
    earlier element does. *)
Lemma index_lookup tg cs idx :
  Xml.index tg cs = Some idx ->
  exists c, cs !! idx = Some c /\ tag c = tg.
Proof.
  revert idx. induction cs as [|c0 cs IH]; intros idx; simpl; [discriminate|].
  destruct (String.eqb_spec (tag c0) tg) as [E|E].
  - intros [= <-]. exists c0. split; [reflexivity|exact E].
  - destruct (Xml.index tg cs) as [i|]; simpl; [|discriminate].
    intros [= <-]. apply (IH i eq_refl).
Qed.

Lemma flip_val_ax_found val_ax :
  Xml.find "c:scaling" (flip_val_ax val_ax) = Some (flipped_scaling val_ax).
Proof.
  unfold flip_val_ax, flipped_scaling.
  destruct (Xml.find "c:scaling" val_ax) as [scaling|] eqn:Hfind.
  - apply find_update_first; [exact Hfind|].
    rewrite tag_set_orientation. apply (find_scaling_tag _ _ Hfind).
  - destruct (Xml.index "c:axId" val_ax) as [idx|]; unfold Xml.insert.
    + rewrite find_app, (find_take_absent _ _ idx Hfind). reflexivity.
    + rewrite find_app, Hfind. reflexivity.
Qed.

Lemma flip_val_ax_idem val_ax :
  flip_val_ax (flip_val_ax val_ax) = flip_val_ax val_ax.
Proof.
  unfold flip_val_ax at 1. rewrite flip_val_ax_found.
  unfold flip_val_ax.
  destruct (Xml.find "c:scaling" val_ax) as [scaling|] eqn:Hfind.
  - apply update_first_idem. intros c Hc.
    rewrite tag_set_orientation, set_orientation_idem. auto.
  - destruct (Xml.index "c:axId" val_ax) as [idx|]; unfold Xml.insert.
    + rewrite update_first_app_absent by (apply find_take_absent, Hfind).
      simpl. rewrite set_orientation_idem. reflexivity.
    + rewrite update_first_app_absent by exact Hfind.
      simpl. rewrite set_orientation_idem. reflexivity.
Qed.

Lemma flip_val_ax_count val_ax :
  Xml.count "c:scaling" (flip_val_ax val_ax)
  = Nat.max 1 (Xml.count "c:scaling" val_ax).
Proof.
  unfold flip_val_ax.
  destruct (Xml.find "c:scaling" val_ax) as [scaling|] eqn:Hfind.
  - rewrite count_update_first by apply tag_set_orientation.
    pose proof (count_present _ _ _ Hfind). lia.
  - pose proof (count_absent _ _ Hfind) as H0.
    destruct (Xml.index "c:axId" val_ax) as [idx|]; unfold Xml.insert.
    + rewrite count_app, count_cons. simpl.
      pose proof (count_take_drop "c:scaling" val_ax idx). lia.
    + rewrite count_app, count_cons. simpl. unfold Xml.count at 2. simpl. lia.
Qed.

(** A scaling element created for want of one sits right before the first
    [c:axId]. *)
Lemma flip_val_ax_before_axId val_ax idx :
  Xml.find "c:scaling" val_ax = None ->
  Xml.index "c:axId" val_ax = Some idx ->
  flip_val_ax val_ax
  = take idx val_ax ++ flipped_scaling val_ax :: drop idx val_ax
  /\ flip_val_ax val_ax !! idx = Some (flipped_scaling val_ax)
  /\ exists ax_id,
       flip_val_ax val_ax !! S idx = Some ax_id /\ tag ax_id = "c:axId".
Proof.
  intros Hfind Hidx. unfold flip_val_ax, flipped_scaling.
  rewrite Hfind, Hidx. unfold Xml.insert.
  destruct (index_lookup _ _ _ Hidx) as (ax_id & Hl & Ht).
  assert (Hlen : length (take idx val_ax) = idx).
  { rewrite length_take. apply lookup_lt_Some in Hl. lia. }
  split; [reflexivity|]. split.
  - rewrite lookup_app_r by lia. rewrite Hlen, Nat.sub_diag. reflexivity.
  - exists ax_id. split; [|exact Ht].
    rewrite lookup_app_r by lia. rewrite Hlen.
    replace (S idx - idx)%nat with 1%nat by lia. simpl.
    rewrite lookup_drop, Nat.add_0_r. exact Hl.
Qed.

(** *** Injecting the same chart text twice *)

Lemma imap_idem {A} (g : nat -> A -> A) l :
  (forall i x, g i (g i x) = g i x) -> imap g (imap g l) = imap g l.
Proof.
  revert g. induction l as [|x l IH]; intros g Hg; [reflexivity|].
  simpl. rewrite Hg. f_equal. apply IH. intros i y. apply Hg.
Qed.

Lemma inject_series_categories_idem translated_json ser :
  let step ser :=
    inject_categories translated_json (inject_series translated_json ser) in
  step (step ser) = step ser.
Proof.
  destruct ser as [idx name cats], translated_json as [ti se ca].
  unfold inject_categories, inject_series. simpl.
  assert (Hcats : forall l : list string,
    imap (fun i cat_v => match l !! i, cat_v with
                         | Some new_text, Some _ => Some new_text
                         | _, _ => cat_v end)
      (imap (fun i cat_v => match l !! i, cat_v with
                            | Some new_text, Some _ => Some new_text
                            | _, _ => cat_v end) cats)
    = imap (fun i cat_v => match l !! i, cat_v with
                           | Some new_text, Some _ => Some new_text
                           | _, _ => cat_v end) cats).
  { intros l. apply imap_idem. intros i [x|]; destruct (l !! i); reflexivity. }
  destruct se as [l|]; [destruct idx as [id|]|]; simpl;
    try (destruct (series_map l !! id) as [nm|] eqn:E);
    try destruct name as [n0|]; simpl; rewrite ?E;
    destruct ca as [[|c cs]|]; simpl; rewrite ?E; simpl; rewrite ?Hcats;
    reflexivity.
Qed.

Lemma is_horizontal_bar_inject root translated_json :
  is_horizontal_bar (inject_chart_text root translated_json)
  = is_horizontal_bar root.
Proof.
  unfold inject_chart_text, rtl_bar_chart_adjustment, is_horizontal_bar.
  destruct (chart_title translated_json) as [[|c s]|], (title_t root); simpl;
    destruct (barChart root) as [[[[v|]|]]|]; simpl; try reflexivity;
    try (destruct (String.eqb v "bar") eqn:E; simpl; rewrite ?E; reflexivity).
Qed.

Lemma valAx_inject root translated_json :
  valAx (inject_chart_text root translated_json)
  = if is_horizontal_bar root then option_map flip_val_ax (valAx root)
    else valAx root.
Proof.
  unfold inject_chart_text, rtl_bar_chart_adjustment, is_horizontal_bar.
  destruct (chart_title translated_json) as [[|c s]|], (title_t root); simpl;
    destruct (barChart root) as [[[[v|]|]]|]; simpl; try reflexivity;
    try (destruct (String.eqb v "bar") eqn:E; simpl; reflexivity).
Qed.

Lemma inject_chart_text_idem root translated_json :
  inject_chart_text (inject_chart_text root translated_json) translated_json
  = inject_chart_text root translated_json.
Proof.
  destruct root as [tt tl ss bc va].
  unfold inject_chart_text at 1.
  assert (Hss : forall l,
    map (fun ser => inject_categories translated_json
                      (inject_series translated_json ser))
        (map (fun ser => inject_categories translated_json
                           (inject_series translated_json ser)) l)
    = map (fun ser => inject_categories translated_json
                        (inject_series translated_json ser)) l).
  { intros l. rewrite map_map. apply map_ext. intros ser.
    apply (inject_series_categories_idem translated_json ser). }
  unfold inject_chart_text, rtl_bar_chart_adjustment, is_horizontal_bar.
  destruct (chart_title translated_json) as [[|c s]|], tt as [t0|]; simpl;
    destruct bc as [[[[v|]|]]|]; simpl; rewrite ?Hss; try reflexivity;
    try (destruct (String.eqb v "bar") eqn:E; simpl; rewrite ?E, ?Hss; simpl;
         try reflexivity;
         destruct va as [val_ax|]; simpl; rewrite ?flip_val_ax_idem;
         destruct tl; reflexivity);
    destruct tl; reflexivity.
Qed.

(** C8. The axis flip applies only to a chart whose bar direction is ["bar"]:
    for any other chart the value axis is left as it is.  On such a chart the
    value axis gets a scaling element whose orientation has [val="maxMin"]
    (reversed); a scaling element that had to be created sits right before the
    [c:axId] element; neither the scaling nor the orientation element is
    duplicated; and injecting again into the output changes nothing. *)
Theorem bar_chart_axis_flip_once :
  forall root translated_json,
    let out := inject_chart_text root translated_json in
    (is_horizontal_bar root = false ->
       valAx out = valAx root /\ rtl_bar_chart_adjustment root = root)
    /\ (forall val_ax,
          is_horizontal_bar root = true -> valAx root = Some val_ax ->
          exists val_ax' scaling orientation,
            valAx out = Some val_ax'
            /\ Xml.find "c:scaling" val_ax' = Some scaling
            /\ Xml.find "c:orientation" (children scaling) = Some orientation
            /\ Xml.get "val" (attrib orientation) = Some "maxMin"
            /\ (forall idx,
                  Xml.find "c:scaling" val_ax = None ->
                  Xml.index "c:axId" val_ax = Some idx ->
                  val_ax' = take idx val_ax ++ scaling :: drop idx val_ax
                  /\ val_ax' !! idx = Some scaling
                  /\ exists ax_id,
                       val_ax' !! S idx = Some ax_id /\ tag ax_id = "c:axId")
            /\ Xml.count "c:scaling" val_ax'
               = Nat.max 1 (Xml.count "c:scaling" val_ax)
            /\ (forall scaling0,
                  Xml.find "c:scaling" val_ax = Some scaling0 ->
                  Xml.count "c:orientation" (children scaling)
                  = Nat.max 1 (Xml.count "c:orientation" (children scaling0))))
    /\ inject_chart_text out translated_json = out
    /\ (forall val_ax' val_ax'',
          valAx out = Some val_ax' ->
          valAx (inject_chart_text out translated_json) = Some val_ax'' ->
          val_ax'' = val_ax'
          /\ Xml.count "c:scaling" val_ax'' = Xml.count "c:scaling" val_ax').
Proof.
  intros root translated_json out. subst out.
  split; [|split; [|split]].
  - intros Hbar. split.
    + rewrite valAx_inject, Hbar. reflexivity.
    + unfold rtl_bar_chart_adjustment. rewrite Hbar. reflexivity.
  - intros val_ax Hbar Hax.
    destruct (set_orientation_found
                (match Xml.find "c:scaling" val_ax with
                 | Some scaling => scaling
                 | None => MkElem "c:scaling" [] []
                 end)) as (orientation & Hfo & Hval).
    assert (Hfs : flipped_scaling val_ax
                  = set_orientation
                      (match Xml.find "c:scaling" val_ax with
                       | Some scaling => scaling
                       | None => MkElem "c:scaling" [] []
                       end)).
    { unfold flipped_scaling. destruct (Xml.find "c:scaling" val_ax); reflexivity. }
    exists (flip_val_ax val_ax), (flipped_scaling val_ax), orientation.
    split; [rewrite valAx_inject, Hbar, Hax; reflexivity|].
    split; [apply flip_val_ax_found|].
    split; [rewrite Hfs; exact Hfo|].
    split; [exact Hval|].
    split; [intros idx Hnone Hidx; apply flip_val_ax_before_axId; assumption|].
    split; [apply flip_val_ax_count|].
    intros scaling0 Hs0. unfold flipped_scaling. rewrite Hs0.
    apply set_orientation_count.
  - apply inject_chart_text_idem.
  - intros val_ax' val_ax'' H1 H2. rewrite inject_chart_text_idem, H1 in H2.
    injection H2 as <-. split; reflexivity.
Qed.

Lemma bar_chart_axis_flip_once_witness :
  exists val_ax' scaling orientation,
    valAx (inject_chart_text scenario_E_chart scenario_E_json) = Some val_ax'
    /\ Xml.find "c:scaling" val_ax' = Some scaling
    /\ Xml.find "c:orientation" (children scaling) = Some orientation
    /\ Xml.get "val" (attrib orientation) = Some "maxMin".
Proof.
  destruct (proj1 (proj2 (bar_chart_axis_flip_once scenario_E_chart
                            scenario_E_json))
              [ MkElem "c:axId" [("val", "2")] [];
                MkElem "c:delete" [("val", "0")] [];
                MkElem "c:axPos" [("val", "b")] [] ]
              eq_refl eq_refl)
    as (val_ax' & scaling & orientation & H1 & H2 & H3 & H4 & _).
  exists val_ax', scaling, orientation. auto.
Defined.

(** Scenario E, evaluated: the scaling element goes before [c:axId]. *)
Lemma scenario_E_value_axis :
  valAx (inject_chart_text scenario_E_chart scenario_E_json)
  = Some [ MkElem "c:scaling" []
             [MkElem "c:orientation" [("val", "maxMin")] []];
           MkElem "c:axId" [("val", "2")] [];
           MkElem "c:delete" [("val", "0")] [];
           MkElem "c:axPos" [("val", "b")] [] ].
Proof. vm_compute. reflexivity. Qed.

(* ===================================================================== *)
(** * Further properties of the engine *)
(* ===================================================================== *)

(** X1. Mirroring keeps a shape inside its coordinate space, puts its right
    edge where its left edge was (measured from the other side), reverses the
    left-to-right order of two shapes and keeps the gap between them. *)
Theorem mirror_x_inside_and_order_reversed :
  forall space_width space_offset,
    (forall x width,
       space_offset <= x -> x + width <= space_offset + space_width ->
       space_offset <= mirror_x x width space_width space_offset
       /\ mirror_x x width space_width space_offset + width
          <= space_offset + space_width)
    /\ (forall x width,
          mirror_x x width space_width space_offset + width
          = space_offset + space_width - (x - space_offset))
    /\ (forall x1 width1 x2 width2,
          x1 + width1 <= x2 ->
          mirror_x x2 width2 space_width space_offset + width2
          <= mirror_x x1 width1 space_width space_offset)
    /\ (forall x1 width1 x2 width2,
          mirror_x x1 width1 space_width space_offset
          - (mirror_x x2 width2 space_width space_offset + width2)
          = x2 - (x1 + width1)).
Proof.
  intros space_width space_offset. unfold mirror_x.
  repeat split; intros; lia.
Qed.

Lemma mirror_x_inside_and_order_reversed_witness :
  0 <= mirror_x 1000000 3000000 12192000 0
  /\ mirror_x 1000000 3000000 12192000 0 + 3000000 <= 0 + 12192000.
Proof.
  apply (proj1 (mirror_x_inside_and_order_reversed 12192000 0)); lia.
Defined.

(** ** The text rewriter *)

Lemma arabic_default_allowed :
  Py.mem (Py.lower "Simplified Arabic") (map Py.lower arabic_fonts) = true.
Proof. vm_compute. reflexivity. Qed.

Ltac font_cbn := cbn -[Py.mem Py.lower arabic_fonts map].

Ltac font_case :=
  match goal with
  | |- context [Py.mem (Py.lower (default "" (typeface ?cf)))
                       (map Py.lower arabic_fonts)] =>
      let E := fresh "E" in
      destruct (Py.mem (Py.lower (default "" (typeface cf)))
                       (map Py.lower arabic_fonts)) eqn:E;
      font_cbn; rewrite ?E, ?arabic_default_allowed; font_cbn
  end.

(** X2. [_process_run] leaves every run with [lang="ar-SA"] and a
    complex-script font from the allowed list, keeps the run's text, and does
    nothing more when applied again. *)
Theorem process_run_arabic_idempotent :
  forall run,
    run_is_arabic (_process_run run)
    /\ t (_process_run run) = t run
    /\ _process_run (_process_run run) = _process_run run.
Proof.
  intros [[[lg bd dt [lf|] [cf|] ot]|] tx]; unfold _process_run, run_is_arabic;
    font_cbn; try font_case; rewrite ?arabic_default_allowed;
    (split; [|split; reflexivity]);
    do 2 eexists; (split; [reflexivity|]); (split; [reflexivity|]);
    (split; [reflexivity|]); first [assumption | apply arabic_default_allowed].
Qed.

(** X3. [_process_paragraph] marks the paragraph right-to-left and swaps
    left and right alignment: left (or no alignment) becomes right, right
    becomes left, any other value stays; so a second pass restores an
    alignment that was written in the paragraph. *)
Theorem process_paragraph_swaps_alignment :
  forall p,
    let p' := _process_paragraph p in
    paragraph_rtl p' = Some "1"
    /\ (paragraph_algn p = None \/ paragraph_algn p = Some "l" ->
        paragraph_algn p' = Some "r")
    /\ (paragraph_algn p = Some "r" -> paragraph_algn p' = Some "l")
    /\ (forall a, paragraph_algn p = Some a -> a <> "l" -> a <> "r" ->
          paragraph_algn p' = Some a)
    /\ (forall a, paragraph_algn p = Some a ->
          paragraph_algn (_process_paragraph p') = Some a).
Proof.
  intros p p'. subst p'. unfold paragraph_rtl, paragraph_algn, _process_paragraph.
  destruct p as [[[al rt lv dr]|] rs fs]; simpl.
  - split; [reflexivity|]. split; [|split; [|split]].
    + intros [-> | ->]; reflexivity.
    + intros ->. reflexivity.
    + intros a -> Hl Hr.
      destruct (String.eqb_spec a "l"); [contradiction|].
      destruct (String.eqb_spec a "r"); [contradiction|]. reflexivity.
    + intros a ->.
      destruct (String.eqb_spec a "l") as [->|Hl]; [reflexivity|].
      destruct (String.eqb_spec a "r") as [->|Hr]; [reflexivity|].
      simpl. destruct (String.eqb_spec a "l"); [contradiction|].
      destruct (String.eqb_spec a "r"); [contradiction|]. reflexivity.
  - split; [reflexivity|]. split; [reflexivity|].
    split; [discriminate|]. split; discriminate.
Qed.

Lemma process_paragraph_swaps_alignment_witness :
  paragraph_algn (_process_paragraph (plain_paragraph "en-US" "Next"))
  = Some "r".
Proof.
  apply (proj1 (proj2 (process_paragraph_swaps_alignment
                         (plain_paragraph "en-US" "Next")))).
  left. reflexivity.
Defined.

Lemma process_run_t run : t (_process_run run) = t run.
Proof. reflexivity. Qed.

Lemma paragraph_ts_process_paragraph p :
  paragraph_ts (_process_paragraph p) = paragraph_ts p.
Proof.
  unfold paragraph_ts, _process_paragraph. simpl. f_equal.
  induction (runs p) as [|r rs IH]; [reflexivity|].
  simpl. destruct (t r); [f_equal|]; exact IH.
Qed.

Lemma txBody_ts_process_text_body tb :
  txBody_ts (_process_text_body tb) = txBody_ts tb.
Proof.
  unfold txBody_ts, _process_text_body. simpl. f_equal.
  rewrite map_map. apply map_ext. intros p. apply paragraph_ts_process_paragraph.
Qed.

Lemma process_run_is_arabic run : run_is_arabic (_process_run run).
Proof.
  destruct run as [[[lg bd dt [lf|] [cf|] ot]|] tx];
    unfold _process_run, run_is_arabic;
    font_cbn; try font_case;
    do 2 eexists; (split; [reflexivity|]); (split; [reflexivity|]);
    (split; [reflexivity|]); first [assumption | apply arabic_default_allowed].
Qed.

(** X4. [_process_text_body] changes no text: the texts of the body, run by
    run, are what they were, so a shape has text after the pass exactly when
    it had before.  It leaves the body with [rtlCol="1"], every paragraph with
    [rtl="1"] and every run in Arabic. *)
Theorem process_text_body_keeps_text_sets_rtl :
  forall tb,
    let tb' := _process_text_body tb in
    txBody_ts tb' = txBody_ts tb
    /\ has_text tb' = has_text tb
    /\ map (fun p => map t (runs p)) (paragraphs tb')
       = map (fun p => map t (runs p)) (paragraphs tb)
    /\ bodyPr tb' = Some {| rtlCol := Some "1" |}
    /\ Forall (fun p => paragraph_rtl p = Some "1"
                        /\ Forall run_is_arabic (runs p))
              (paragraphs tb').
Proof.
  intros tb tb'. subst tb'.
  split; [apply txBody_ts_process_text_body|].
  split; [unfold has_text; rewrite txBody_ts_process_text_body; reflexivity|].
  split; [|split; [reflexivity|]].
  - unfold _process_text_body. simpl. rewrite map_map. apply map_ext.
    intros p. unfold _process_paragraph. simpl. rewrite map_map.
    apply map_ext. intros r. apply process_run_t.
  - unfold _process_text_body. simpl. apply Forall_forall.
    intros p' Hp'. apply list_elem_of_In, in_map_iff in Hp' as (p & <- & _).
    split; [reflexivity|].
    unfold _process_paragraph. simpl. apply Forall_forall.
    intros r' Hr'. apply list_elem_of_In, in_map_iff in Hr' as (r & <- & _).
    apply process_run_is_arabic.
Qed.

(** ** The table restructurer *)

Lemma rev_short {A} (l : list A) : (length l <= 1)%nat -> rev l = l.
Proof. destruct l as [|x [|y l]]; simpl; intros; try reflexivity; lia. Qed.

Lemma zip_rev {A B} (l : list A) (k : list B) :
  length l = length k -> zip (rev l) (rev k) = rev (zip l k).
Proof.
  revert k. induction l as [|x l IH]; intros [|y k] Hlen; simpl in *;
    try reflexivity; try discriminate.
  rewrite zip_with_app by (rewrite !length_rev; lia).
  rewrite IH by lia. reflexivity.
Qed.

Lemma process_table_rows table :
  trs (_process_table table)
  = map (fun cells => map process_cell_text (rev cells)) (trs table).
Proof.
  unfold _process_table. simpl. apply map_ext. intros cells.
  destruct (Nat.leb_spec (length cells) 1) as [H|H]; [|reflexivity].
  rewrite (rev_short cells H). reflexivity.
Qed.

Lemma process_table_grid table :
  tblGrid (_process_table table) = option_map (@rev GridCol) (tblGrid table).
Proof.
  unfold _process_table. simpl. destruct (tblGrid table) as [cols|]; simpl;
    [|reflexivity].
  destruct (Nat.ltb_spec 1 (length cols)) as [H|H]; [reflexivity|].
  rewrite (rev_short cols) by lia. reflexivity.
Qed.

(** X5. [_process_table] reverses the cells of every row and the column
    definitions alike, so each cell keeps the width it had; it keeps the
    number of rows and of cells of each row; and a second pass puts cells and
    columns back in their original order. *)
Theorem process_table_reverses_columns :
  forall table,
    let table' := _process_table table in
    trs table' = map (fun cells => map process_cell_text (rev cells)) (trs table)
    /\ tblGrid table' = option_map (@rev GridCol) (tblGrid table)
    /\ map length (trs table') = map length (trs table)
    /\ (forall cols i cells,
          tblGrid table = Some cols -> trs table !! i = Some cells ->
          length cells = length cols ->
          exists cols' cells',
            tblGrid table' = Some cols' /\ trs table' !! i = Some cells'
            /\ zip cols' cells'
               = rev (zip cols (map process_cell_text cells)))
    /\ trs (_process_table table')
       = map (map (fun tc => process_cell_text (process_cell_text tc)))
             (trs table)
    /\ tblGrid (_process_table table') = tblGrid table.
Proof.
  intros table table'. subst table'.
  split; [apply process_table_rows|]. split; [apply process_table_grid|].
  split; [|split; [|split]].
  - rewrite process_table_rows, map_map. apply map_ext. intros cells.
    rewrite length_map, length_rev. reflexivity.
  - intros cols i cells Hcols Hrow Hlen.
    exists (rev cols), (map process_cell_text (rev cells)).
    split; [rewrite process_table_grid, Hcols; reflexivity|].
    split.
    + rewrite process_table_rows. change (map ?f ?l) with (f <$> l) at 1.
      rewrite list_lookup_fmap, Hrow. reflexivity.
    + rewrite map_rev.
      apply zip_rev. rewrite length_map. symmetry. exact Hlen.
  - rewrite !process_table_rows, map_map. apply map_ext. intros cells.
    cbv beta. rewrite !map_rev, rev_involutive, map_map. reflexivity.
  - rewrite !process_table_grid. destruct (tblGrid table) as [cols|]; simpl;
      [rewrite rev_involutive|]; reflexivity.
Qed.

Lemma process_table_reverses_columns_witness :
  exists cols' cells',
    tblGrid (_process_table two_column_table) = Some cols'
    /\ trs (_process_table two_column_table) !! 0%nat = Some cells'
    /\ zip cols' cells'
       = rev (zip [ {| gridCol_w := Some 3000000 |};
                    {| gridCol_w := Some 1000000 |} ]
                  (map process_cell_text
                       (default [] (trs two_column_table !! 0%nat)))).
Proof.
  exact (proj1 (proj2 (proj2 (proj2
           (process_table_reverses_columns two_column_table))))
           _ 0%nat _ eq_refl eq_refl eq_refl).
Defined.

(** ** What the walker keeps *)

(** An observation of a node that a pass does not change is unchanged on
    every node of the tree. *)
Lemma process_element_nodes_invariant {A} (f : Node -> A) self :
  (forall n space_width space_offset,
     f (_process_element self n space_width space_offset) = f n) ->
  forall n space_width space_offset,
    map f (nodes (_process_element self n space_width space_offset))
    = map f (nodes n).
Proof.
  intros Hf n.
  induction n as [s|s|s|g ch IH|f0] using Node_ind';
    intros space_width space_offset.
  - simpl. f_equal. apply (Hf (Sp s)).
  - simpl. f_equal. apply (Hf (Pic s)).
  - pose proof (Hf (CxnSp s) space_width space_offset) as H. revert H.
    simpl. destruct (flip_connectors self); simpl; intros H; rewrite ?H;
      reflexivity.
  - pose proof (Hf (GrpSp g ch) space_width space_offset) as H. revert H.
    simpl _process_element.
    destruct (group_geometry g) as [[[[[xf o] gx] gw] [cw co]]|];
      [|reflexivity].
    intros H. simpl. rewrite H. f_equal. clear H.
    induction IH as [|c cs Hc _ IHcs]; [reflexivity|].
    simpl. rewrite !map_app. f_equal; [apply Hc|apply IHcs].
  - simpl. f_equal. apply (Hf (GraphicFrame f0)).
Qed.

Lemma transform_nodes_invariant {A} (f : Node -> A) self root root' :
  (forall n space_width space_offset,
     f (_process_element self n space_width space_offset) = f n) ->
  transform self root = Some root' ->
  map f (slide_nodes root') = map f (slide_nodes root).
Proof.
  intros Hf. unfold transform, slide_nodes.
  destruct (spTree root) as [sp_tree|]; [|discriminate].
  intros [= <-]. simpl. unfold _process_container.
  induction sp_tree as [|c cs IH]; [reflexivity|].
  simpl. rewrite !map_app. f_equal;
    [apply process_element_nodes_invariant, Hf|apply IH].
Qed.

Lemma node_tag_process_element self n space_width space_offset :
  node_tag (_process_element self n space_width space_offset) = node_tag n.
Proof.
  destruct n as [s|s|s|g ch|f]; simpl; try reflexivity.
  - destruct (flip_connectors self); reflexivity.
  - destruct (group_geometry g) as [[[[[xf o] gx] gw] [cw co]]|]; reflexivity.
Qed.

Lemma cNvPr_set_flip_h s : cNvPr (_set_flip_h s) = cNvPr s.
Proof.
  unfold _set_flip_h. destruct s as [c [[[xf|] pg]|] tb]; reflexivity.
Qed.

Lemma cNvPr_process_shape self s space_width space_offset :
  cNvPr (_process_shape self s space_width space_offset) = cNvPr s.
Proof.
  unfold _process_shape. destruct (_get_bounding_box s) as [bbox|]; [|reflexivity].
  set (s1 := _set_offset_x s _).
  assert (H1 : cNvPr s1 = cNvPr s) by apply cNvPr_set_offset_x.
  destruct (_should_flip_shape self (Sp s1) bbox _).
  - destruct (txBody (_set_flip_h s1)); simpl; rewrite cNvPr_set_flip_h; exact H1.
  - destruct (txBody s1); exact H1.
Qed.

Lemma cNvPr_process_connector self s space_width space_offset :
  cNvPr (_process_connector self s space_width space_offset) = cNvPr s.
Proof.
  unfold _process_connector.
  destruct (_get_bounding_box s) as [bbox|]; [|reflexivity].
  set (s1 := _set_offset_x s _).
  assert (H1 : cNvPr s1 = cNvPr s) by apply cNvPr_set_offset_x.
  destruct (spPr s1) as [sp|]; [|exact H1].
  destruct (xfrm sp); exact H1.
Qed.

Lemma node_id_process_element self n space_width space_offset :
  node_id (_process_element self n space_width space_offset) = node_id n.
Proof.
  destruct n as [s|s|s|g ch|f]; simpl.
  - rewrite cNvPr_process_shape. reflexivity.
  - unfold _process_picture. destruct (_get_bounding_box s); [|reflexivity].
    rewrite cNvPr_set_offset_x. reflexivity.
  - destruct (flip_connectors self); simpl; [|reflexivity].
    rewrite cNvPr_process_connector. reflexivity.
  - destruct (group_geometry g) as [[[[[xf o] gx] gw] [cw co]]|]; reflexivity.
  - unfold _process_graphicFrame. destruct (frame_xfrm f) as [xf|]; [|reflexivity].
    destruct (off xf), (ext xf); reflexivity.
Qed.

Lemma xfrm_fixed_set_off xf o new_x :
  off xf = Some o ->
  xfrm_fixed (set_xfrm_off xf (Some (set_off_x o new_x))) = xfrm_fixed xf.
Proof. unfold xfrm_fixed. simpl. intros ->. reflexivity. Qed.

Lemma shape_fixed_set_offset_x s new_x :
  option_map xfrm_fixed (shape_xfrm (_set_offset_x s new_x))
  = option_map xfrm_fixed (shape_xfrm s).
Proof.
  unfold _set_offset_x, shape_xfrm.
  destruct s as [c [[[xf|] pg]|] tb]; simpl; try reflexivity.
  destruct (off xf) as [o|] eqn:Ho; simpl; [|reflexivity].
  rewrite (xfrm_fixed_set_off xf o new_x Ho). reflexivity.
Qed.

Lemma shape_fixed_set_flip_h s :
  option_map xfrm_fixed (shape_xfrm (_set_flip_h s))
  = option_map xfrm_fixed (shape_xfrm s).
Proof.
  unfold _set_flip_h, shape_xfrm.
  destruct s as [c [[[xf|] pg]|] tb]; reflexivity.
Qed.

Lemma node_fixed_process_element self n space_width space_offset :
  node_fixed (_process_element self n space_width space_offset) = node_fixed n.
Proof.
  unfold node_fixed. destruct n as [s|s|s|g ch|f]; simpl.
  - unfold _process_shape.
    destruct (_get_bounding_box s) as [bbox|]; [|reflexivity].
    set (s1 := _set_offset_x s _).
    assert (H1 : option_map xfrm_fixed (shape_xfrm s1)
                 = option_map xfrm_fixed (shape_xfrm s))
      by apply shape_fixed_set_offset_x.
    destruct (_should_flip_shape self (Sp s1) bbox _).
    + rewrite <- H1, <- (shape_fixed_set_flip_h s1).
      destruct (txBody (_set_flip_h s1)); reflexivity.
    + rewrite <- H1. destruct (txBody s1); reflexivity.
  - unfold _process_picture.
    destruct (_get_bounding_box s); [apply shape_fixed_set_offset_x|reflexivity].
  - destruct (flip_connectors self); [|reflexivity]. simpl.
    unfold _process_connector.
    destruct (_get_bounding_box s) as [bbox|]; [|reflexivity].
    rewrite <- (shape_fixed_set_offset_x s
                  (mirror_x (bb_x bbox) (bb_width bbox) space_width space_offset)).
    set (s1 := _set_offset_x s _). unfold shape_xfrm.
    destruct s1 as [c [[[xf|] pg]|] tb]; reflexivity.
  - destruct (group_geometry g) as [[[[[xf o] gx] gw] [cw co]]|] eqn:Hg;
      [|reflexivity].
    apply group_geometry_Some in Hg as (Hpr & Ho & _).
    simpl. rewrite Hpr. simpl.
    rewrite (xfrm_fixed_set_off xf o _ Ho). reflexivity.
  - unfold _process_graphicFrame.
    destruct (frame_xfrm f) as [xf|] eqn:Hx; [|rewrite Hx; reflexivity].
    destruct (off xf) as [o|] eqn:Ho; [|rewrite Hx; reflexivity].
    destruct (ext xf) as [e|] eqn:He; [|rewrite Hx; reflexivity].
    simpl. rewrite (xfrm_fixed_set_off xf o _ Ho). reflexivity.
Qed.

Lemma texts_after_text_body s :
  option_map txBody_ts
    (txBody match txBody s with
            | Some tx_body =>
                set_shape_txBody s (Some (_process_text_body tx_body))
            | None => s
            end)
  = option_map txBody_ts (txBody s).
Proof.
  destruct (txBody s) as [tb|] eqn:E; simpl;
    [rewrite txBody_ts_process_text_body|rewrite E]; reflexivity.
Qed.

Lemma node_texts_process_element self n space_width space_offset :
  node_texts (_process_element self n space_width space_offset) = node_texts n.
Proof.
  unfold node_texts, node_txBody. destruct n as [s|s|s|g ch|f]; simpl.
  - unfold _process_shape.
    destruct (_get_bounding_box s) as [bbox|]; [|reflexivity].
    set (s1 := _set_offset_x s _).
    assert (H1 : txBody s1 = txBody s) by apply txBody_set_offset_x.
    destruct (_should_flip_shape self (Sp s1) bbox _).
    + rewrite texts_after_text_body, txBody_set_flip_h, H1. reflexivity.
    + rewrite texts_after_text_body, H1. reflexivity.
  - unfold _process_picture.
    destruct (_get_bounding_box s); [rewrite txBody_set_offset_x|]; reflexivity.
  - destruct (flip_connectors self); [|reflexivity]. simpl.
    unfold _process_connector.
    destruct (_get_bounding_box s) as [bbox|]; [|reflexivity].
    rewrite <- (txBody_set_offset_x s
                  (mirror_x (bb_x bbox) (bb_width bbox) space_width space_offset)).
    set (s1 := _set_offset_x s _).
    destruct s1 as [c [[[xf|] pg]|] tb]; reflexivity.
  - destruct (group_geometry g) as [[[[[xf o] gx] gw] [cw co]]|]; reflexivity.
  - reflexivity.
Qed.

(** X6. [transform] fails exactly on a part without a shape tree.  When it
    succeeds the tree has the same nodes in the same order, with the same
    tags and ids; no node's [y], extent or child space changes (only [x] and
    [flipH] can); and no text of any shape changes. *)
Theorem transform_keeps_structure_and_text :
  forall self root,
    (transform self root = None <-> spTree root = None)
    /\ (forall root',
          transform self root = Some root' ->
          map node_tag (slide_nodes root') = map node_tag (slide_nodes root)
          /\ map node_id (slide_nodes root') = map node_id (slide_nodes root)
          /\ map node_fixed (slide_nodes root')
             = map node_fixed (slide_nodes root)
          /\ map node_texts (slide_nodes root')
             = map node_texts (slide_nodes root)).
Proof.
  intros self root. split.
  - unfold transform. destruct (spTree root); split; congruence.
  - intros root' Ht. repeat split;
      apply (transform_nodes_invariant _ self root root'); try exact Ht.
    + apply node_tag_process_element.
    + apply node_id_process_element.
    + apply node_fixed_process_element.
    + apply node_texts_process_element.
Qed.

Lemma transform_keeps_structure_and_text_witness :
  exists root',
    transform default_engine mixed_slide = Some root'
    /\ map node_id (slide_nodes root') = map node_id (slide_nodes mixed_slide).
Proof.
  eexists. split; [reflexivity|].
  exact (proj1 (proj2 (proj2 (transform_keeps_structure_and_text
           default_engine mixed_slide) _ eq_refl))).
Defined.

Lemma group_box_None_geometry g : group_box g = None -> group_geometry g = None.
Proof.
  unfold group_box, group_geometry.
  destruct g as [c [[[xf|]]|]]; simpl; try reflexivity.
  destruct xf as [fl [o|] [e|] co ce]; simpl; try reflexivity. discriminate.
Qed.

Lemma process_element_without_box self n space_width space_offset :
  node_box n = None -> _process_element self n space_width space_offset = n.
Proof.
  destruct n as [s|s|s|g ch|f]; simpl.
  - rewrite xfrm_box_bounding_box. unfold _process_shape.
    destruct (_get_bounding_box s); [discriminate|reflexivity].
  - rewrite xfrm_box_bounding_box. unfold _process_picture.
    destruct (_get_bounding_box s); [discriminate|reflexivity].
  - rewrite xfrm_box_bounding_box. unfold _process_connector.
    destruct (_get_bounding_box s); [discriminate|].
    destruct (flip_connectors self); reflexivity.
  - intros H. rewrite (group_box_None_geometry g H). reflexivity.
  - unfold _process_graphicFrame, xfrm_box.
    destruct (frame_xfrm f) as [xf|]; [|reflexivity].
    destruct (off xf), (ext xf); try reflexivity. discriminate.
Qed.

(** X7. An element without geometry (no transform, or a transform without
    offset or extent) is skipped whole: a shape keeps its text body as it is,
    no direction flag set, and a group keeps all its descendants as they are,
    whatever geometry they have.  A part whose top-level elements all lack
    geometry comes out of [transform] unchanged. *)
Theorem element_without_geometry_untouched :
  forall self,
    (forall n space_width space_offset,
       node_box n = None ->
       _process_element self n space_width space_offset = n)
    /\ (forall sp_tree,
          Forall (fun n => node_box n = None) sp_tree ->
          transform self {| spTree := Some sp_tree |}
          = Some {| spTree := Some sp_tree |}).
Proof.
  intros self. split; [intros; apply process_element_without_box; assumption|].
  intros sp_tree Hall. unfold transform. simpl. do 3 f_equal.
  unfold _process_container.
  induction Hall as [|n ns Hn _ IH]; [reflexivity|].
  simpl. rewrite (process_element_without_box self n _ _ Hn), IH. reflexivity.
Qed.

Lemma element_without_geometry_untouched_witness :
  _process_element default_engine
    (GrpSp {| grp_cNvPr := None; grpSpPr := None |} [scenario_B_child])
    12192000 0
  = GrpSp {| grp_cNvPr := None; grpSpPr := None |} [scenario_B_child].
Proof.
  apply (proj1 (element_without_geometry_untouched default_engine)).
  reflexivity.
Defined.

Lemma connector_of_process_element self n space_width space_offset :
  flip_connectors self = false ->
  connectors [_process_element self n space_width space_offset]
  = connectors [n].
Proof.
  intros Hfc. destruct n as [s|s|s|g ch|f]; simpl; rewrite ?Hfc;
    try reflexivity.
  destruct (group_geometry g) as [[[[[xf o] gx] gw] [cw co]]|]; reflexivity.
Qed.

Lemma connectors_map ns ns' :
  map (fun n => connectors [n]) ns' = map (fun n => connectors [n]) ns ->
  connectors ns' = connectors ns.
Proof.
  revert ns'. induction ns as [|n ns IH]; intros [|n' ns']; simpl;
    try discriminate; [reflexivity|].
  intros [= Hn Hns]. specialize (IH ns' Hns). unfold connectors in *.
  simpl in *. destruct n', n; simpl in *; try discriminate;
    try (injection Hn as ->); rewrite ?IH; reflexivity.
Qed.

(** X8. With [flip_connectors] off the walker leaves every connector of the
    part exactly as it was, at any depth: neither moved nor flipped. *)
Theorem connectors_untouched_when_disabled :
  forall self root root',
    flip_connectors self = false ->
    transform self root = Some root' ->
    connectors (slide_nodes root') = connectors (slide_nodes root).
Proof.
  intros self root root' Hfc Ht. apply connectors_map.
  apply (transform_nodes_invariant _ self root root'); [|exact Ht].
  intros n space_width space_offset.
  apply connector_of_process_element, Hfc.
Qed.

Lemma connectors_untouched_when_disabled_witness :
  exists root',
    transform {| slide_width := 12192000; layout_flip_ratio := 0.4%float;
                 flip_connectors := false; flip_threshold := 4876800 |}
              mixed_slide = Some root'
    /\ connectors (slide_nodes root') = connectors (slide_nodes mixed_slide).
Proof.
  eexists. split; [reflexivity|].
  apply (connectors_untouched_when_disabled
           {| slide_width := 12192000; layout_flip_ratio := 0.4%float;
              flip_connectors := false; flip_threshold := 4876800 |}
           mixed_slide); reflexivity.
Defined.

(* ===================================================================== *)
(** * Further properties of the content processor *)
(* ===================================================================== *)

Lemma new_paragraphs_nonempty translated : new_paragraphs translated <> [].
Proof.
  unfold new_paragraphs.
  destruct (elem_paragraphs translated) as [[|p ps]|]; try discriminate;
    destruct (default "" (elem_text translated)) as [|c s]; simpl;
    try discriminate;
    destruct (Ascii.eqb c "010"); try discriminate;
    destruct (Py.split_lines s); discriminate.
Qed.

Lemma injected_texts existing news :
  map (fun p => map t (runs p))
      (zip_with (fun p np => _update_paragraph_text p (default "" (para_text np)))
                existing news
       ++ map (fun np => _create_paragraph (default "" (para_text np)))
              (drop (length existing) news))
  = map (fun np => [Some (default "" (para_text np))]) news.
Proof.
  revert existing. induction news as [|np news IH]; intros [|p existing];
    simpl; try reflexivity.
  - f_equal. apply (IH []).
  - f_equal; [|apply IH].
    destruct (update_paragraph_text_runs p (default "" (para_text np)))
      as (_ & _ & ->).
    destruct (runs p); reflexivity.
Qed.

Lemma injected_created existing news :
  drop (length existing)
       (zip_with (fun p np => _update_paragraph_text p (default "" (para_text np)))
                 existing news
        ++ map (fun np => _create_paragraph (default "" (para_text np)))
               (drop (length existing) news))
  = map (fun np => _create_paragraph (default "" (para_text np)))
        (drop (length existing) news).
Proof.
  revert news. induction existing as [|p ps IH]; intros news.
  - reflexivity.
  - destruct news as [|np news]; [reflexivity|]. simpl. apply IH.
Qed.

(** X9. After [_update_shape_text] the text body has exactly one paragraph
    per translated paragraph (at least one), each with a single run that
    carries the translated text of its position, whether the record has
    fewer, as many or more paragraphs than the shape; the paragraphs past the
    original ones are new right-to-left paragraphs. *)
Theorem update_shape_text_one_run_per_paragraph :
  forall shape translated tx_body,
    txBody shape = Some tx_body ->
    exists tx_body',
      txBody (_update_shape_text shape translated) = Some tx_body'
      /\ bodyPr tx_body' = bodyPr tx_body
      /\ map (fun p => map t (runs p)) (paragraphs tx_body')
         = map (fun np => [Some (default "" (para_text np))])
               (new_paragraphs translated)
      /\ (0 < length (paragraphs tx_body'))%nat
      /\ drop (length (paragraphs tx_body)) (paragraphs tx_body')
         = map (fun np => _create_paragraph (default "" (para_text np)))
               (drop (length (paragraphs tx_body)) (new_paragraphs translated)).
Proof.
  intros shape translated tx_body Htb.
  rewrite (update_shape_text_paragraphs shape translated tx_body Htb).
  eexists. split; [reflexivity|]. simpl. split; [reflexivity|].
  pose proof (injected_texts (paragraphs tx_body) (new_paragraphs translated))
    as Htexts.
  split; [exact Htexts|]. split.
  - apply (f_equal length) in Htexts. rewrite !length_map in Htexts.
    rewrite Htexts. pose proof (new_paragraphs_nonempty translated).
    destruct (new_paragraphs translated); [congruence|simpl; lia].
  - apply injected_created.
Qed.

Lemma update_shape_text_one_run_per_paragraph_witness :
  exists tx_body',
    txBody (_update_shape_text three_paragraphs one_paragraph_record)
    = Some tx_body'
    /\ map (fun p => map t (runs p)) (paragraphs tx_body')
       = [[Some "Translated"]].
Proof.
  destruct (update_shape_text_one_run_per_paragraph three_paragraphs
              one_paragraph_record _ eq_refl)
    as (tx_body' & H1 & _ & H2 & _).
  exists tx_body'. split; [exact H1|exact H2].
Defined.

(** *** Splitting and joining lines *)

Lemma split_lines_nonempty s : Py.split_lines s <> [].
Proof.
  destruct s as [|c s]; simpl; [discriminate|].
  destruct (Ascii.eqb c "010"); [discriminate|].
  destruct (Py.split_lines s); discriminate.
Qed.

Lemma join_lines_cons x l ls :
  join_lines (x :: l :: ls)
  = (x ++ String "010"%char (join_lines (l :: ls)))%string.
Proof. reflexivity. Qed.

Lemma join_split_lines s : join_lines (Py.split_lines s) = s.
Proof.
  induction s as [|c s IH]; [reflexivity|]. simpl.
  pose proof (split_lines_nonempty s) as Hne.
  destruct (Py.split_lines s) as [|l ls]; [congruence|].
  destruct (Ascii.eqb_spec c "010"%char) as [->|_].
  - rewrite join_lines_cons, IH. reflexivity.
  - destruct ls as [|l' ls].
    + unfold join_lines in *. simpl in *. rewrite IH. reflexivity.
    + rewrite <- IH, !join_lines_cons. reflexivity.
Qed.

Lemma split_lines_app_newline x rest :
  no_newline x = true ->
  Py.split_lines (x ++ String "010"%char rest)%string
  = x :: Py.split_lines rest.
Proof.
  induction x as [|c x IH]; simpl; [reflexivity|].
  unfold no_newline. simpl. intros H. apply andb_prop in H as [Hc Hx].
  apply negb_true_iff in Hc. rewrite Hc, (IH Hx). reflexivity.
Qed.

Lemma split_lines_no_newline x : no_newline x = true -> Py.split_lines x = [x].
Proof.
  induction x as [|c x IH]; simpl; [reflexivity|].
  unfold no_newline. simpl. intros H. apply andb_prop in H as [Hc Hx].
  apply negb_true_iff in Hc. rewrite Hc, (IH Hx). reflexivity.
Qed.

Lemma split_join_lines texts :
  texts <> [] -> Forall (fun x => no_newline x = true) texts ->
  Py.split_lines (join_lines texts) = texts.
Proof.
  intros Hne Hall. induction Hall as [|x [|y r] Hx Hr IH]; [congruence| |].
  - apply split_lines_no_newline, Hx.
  - rewrite join_lines_cons, (split_lines_app_newline _ _ Hx).
    rewrite IH by discriminate. reflexivity.
Qed.

(** X10. A record without a paragraph list is injected line by line: joining
    the lines it is split into gives its text back, and a text made by
    joining paragraphs without a newline, as the extraction joins
    them, is split into exactly those paragraphs. *)
Theorem text_fallback_splits_joined_paragraphs :
  (forall translated,
     elem_paragraphs translated = None \/ elem_paragraphs translated = Some [] ->
     join_lines (map (fun np => default "" (para_text np))
                     (new_paragraphs translated))
     = default "" (elem_text translated))
  /\ (forall id texts,
        texts <> [] -> Forall (fun x => no_newline x = true) texts ->
        map para_text (new_paragraphs (text_only_record id texts))
        = map Some texts).
Proof.
  split.
  - intros translated Hps. unfold new_paragraphs.
    destruct Hps as [-> | ->]; rewrite map_map; simpl; rewrite map_id;
      apply join_split_lines.
  - intros id texts Hne Hall. unfold new_paragraphs, text_only_record. simpl.
    rewrite (split_join_lines texts Hne Hall), map_map. reflexivity.
Qed.

Lemma text_fallback_splits_joined_paragraphs_witness :
  map para_text (new_paragraphs (text_only_record "7" ["First"; "Second"]))
  = [Some "First"; Some "Second"].
Proof.
  apply (proj2 text_fallback_splits_joined_paragraphs "7" ["First"; "Second"]).
  - discriminate.
  - repeat constructor.
Defined.

(** *** Injecting twice *)

Lemma set_rPr_lang_twice r_pr v :
  set_rPr_lang (set_rPr_lang r_pr v) v = set_rPr_lang r_pr v.
Proof. reflexivity. Qed.

Lemma update_paragraph_text_twice p new_text :
  _update_paragraph_text (_update_paragraph_text p new_text) new_text
  = _update_paragraph_text p new_text.
Proof.
  unfold _update_paragraph_text.
  destruct (runs p) as [|r rs]; simpl; [reflexivity|].
  destruct (rPr r); reflexivity.
Qed.

Lemma update_created_paragraph new_text :
  _update_paragraph_text (_create_paragraph new_text) new_text
  = _create_paragraph new_text.
Proof. reflexivity. Qed.

Lemma injected_again existing news :
  let upd := fun p np =>
    _update_paragraph_text p (default "" (para_text np)) in
  let mk := fun np => _create_paragraph (default "" (para_text np)) in
  zip_with upd
    (zip_with upd existing news ++ map mk (drop (length existing) news)) news
  = zip_with upd existing news ++ map mk (drop (length existing) news).
Proof.
  intros upd mk. revert existing.
  induction news as [|np news IH]; intros [|p existing]; simpl;
    try reflexivity.
  - f_equal. apply (IH []).
  - f_equal; [apply update_paragraph_text_twice|apply IH].
Qed.

Lemma injected_length existing news :
  length (zip_with (fun p np =>
                      _update_paragraph_text p (default "" (para_text np)))
                   existing news
          ++ map (fun np => _create_paragraph (default "" (para_text np)))
                 (drop (length existing) news))
  = length news.
Proof.
  pose proof (injected_texts existing news) as H.
  apply (f_equal length) in H. rewrite !length_map in H. exact H.
Qed.

Lemma update_shape_text_twice shape translated :
  _update_shape_text (_update_shape_text shape translated) translated
  = _update_shape_text shape translated.
Proof.
  destruct (txBody shape) as [tb|] eqn:Htb.
  - pose proof (update_shape_text_paragraphs shape translated tb Htb) as H1.
    pose proof (update_shape_text_paragraphs _ translated _ H1) as H2.
    simpl in H2. rewrite injected_length, drop_all in H2. simpl in H2.
    rewrite app_nil_r, injected_again in H2.
    rewrite <- H1 in H2.
    assert (Hc : forall s, cNvPr (_update_shape_text s translated) = cNvPr s)
      by (intros; apply cNvPr_update_shape_text).
    assert (Hs : forall s, spPr (_update_shape_text s translated) = spPr s).
    { intros s. unfold _update_shape_text. destruct (txBody s); reflexivity. }
    destruct (_update_shape_text (_update_shape_text shape translated) translated)
      as [c2 s2 t2] eqn:E2.
    destruct (_update_shape_text shape translated) as [c1 s1 t1] eqn:E1.
    pose proof (Hc {| cNvPr := c1; spPr := s1; txBody := t1 |}) as Hc'.
    pose proof (Hs {| cNvPr := c1; spPr := s1; txBody := t1 |}) as Hs'.
    rewrite E2 in Hc', Hs'. simpl in *. congruence.
  - unfold _update_shape_text. rewrite Htb. unfold _update_shape_text.
    rewrite Htb. reflexivity.
Qed.

Lemma inject_shape_twice tm shape :
  inject_shape tm (inject_shape tm shape) = inject_shape tm shape.
Proof.
  unfold inject_shape at 1. rewrite cNvPr_inject_shape.
  unfold inject_shape.
  destruct (cNvPr shape) as [c|]; [|reflexivity].
  destruct (tm !! default "" (cNvPr_id c)) as [translated|]; [|reflexivity].
  apply update_shape_text_twice.
Qed.

Lemma inject_node_twice tm n :
  inject_node tm (inject_node tm n) = inject_node tm n.
Proof.
  induction n as [s|s|s|g ch IH|f] using Node_ind'; simpl; try reflexivity.
  - rewrite inject_shape_twice. reflexivity.
  - f_equal. rewrite map_map.
    induction IH as [|c cs Hc _ IHcs]; [reflexivity|].
    simpl. rewrite Hc, IHcs. reflexivity.
Qed.

(** X11. Injecting the same translation twice gives what injecting it once
    gives: the second run finds one paragraph per translated paragraph, each
    with the one run it needs, and rewrites them into themselves. *)
Theorem injection_idempotent :
  forall root translated_json,
    inject_translated_content
      (inject_translated_content root translated_json) translated_json
    = inject_translated_content root translated_json.
Proof.
  intros root translated_json. unfold inject_translated_content. simpl.
  f_equal. destruct (spTree root) as [l|]; simpl; [|reflexivity].
  f_equal. rewrite map_map. apply map_ext. intros n. apply inject_node_twice.
Qed.

(** *** What injection keeps *)

Lemma update_paragraph_text_rtl p new_text :
  paragraph_rtl (_update_paragraph_text p new_text) = paragraph_rtl p
  /\ paragraph_algn (_update_paragraph_text p new_text) = paragraph_algn p.
Proof.
  unfold paragraph_rtl, paragraph_algn.
  destruct (update_paragraph_text_runs p new_text) as (-> & _ & _). auto.
Qed.

Lemma update_paragraph_text_lang p new_text :
  Forall (fun r => forall r_pr, rPr r = Some r_pr -> lang r_pr = Some "ar-SA")
         (runs (_update_paragraph_text p new_text)).
Proof.
  destruct (update_paragraph_text_runs p new_text) as (_ & _ & ->).
  constructor; [|constructor].
  destruct (runs p) as [|r rs]; simpl.
  - intros r_pr [= <-]. reflexivity.
  - destruct (rPr r); simpl; [|discriminate]. intros r_pr [= <-]. reflexivity.
Qed.

(** X12. Injection does not take back what the direction rewriter set: the
    body properties stay as they are, every paragraph that was right-to-left
    still is and keeps its alignment, a created paragraph is right-to-left and
    right-aligned, and every run left in the body that has properties has
    [lang="ar-SA"]. *)
Theorem injection_keeps_rtl_flags :
  forall shape translated tx_body,
    txBody shape = Some tx_body ->
    Forall (fun p => paragraph_rtl p = Some "1") (paragraphs tx_body) ->
    exists tx_body',
      txBody (_update_shape_text shape translated) = Some tx_body'
      /\ bodyPr tx_body' = bodyPr tx_body
      /\ Forall (fun p => paragraph_rtl p = Some "1") (paragraphs tx_body')
      /\ (forall i p p',
            paragraphs tx_body !! i = Some p ->
            paragraphs tx_body' !! i = Some p' ->
            paragraph_algn p' = paragraph_algn p)
      /\ Forall (fun p =>
                   Forall (fun r => forall r_pr,
                             rPr r = Some r_pr -> lang r_pr = Some "ar-SA")
                          (runs p))
                (paragraphs tx_body').
Proof.
  intros shape translated tx_body Htb Hrtl.
  rewrite (update_shape_text_paragraphs shape translated tx_body Htb).
  eexists. split; [reflexivity|]. simpl. split; [reflexivity|].
  generalize (new_paragraphs translated) as news. intros news.
  split; [|split].
  - apply Forall_app. split.
    + revert news. induction Hrtl as [|p ps Hp _ IH]; intros [|np news]; simpl;
        constructor; [|apply IH].
      rewrite (proj1 (update_paragraph_text_rtl p _)). exact Hp.
    + apply Forall_forall. intros p Hp.
      apply list_elem_of_In, in_map_iff in Hp as (np & <- & _). reflexivity.
  - intros i p p' Hp Hp'.
    rewrite lookup_app_l in Hp'.
    + rewrite lookup_zip_with, Hp in Hp'. simpl in Hp'.
      destruct (news !! i) as [np|]; [|discriminate]. simpl in Hp'.
      injection Hp' as <-. apply update_paragraph_text_rtl.
    + apply lookup_lt_Some in Hp'. apply lookup_lt_Some in Hp.
      destruct (Nat.lt_ge_cases i (length news)) as [Hlt|Hge].
      * rewrite length_zip_with. lia.
      * rewrite length_app, length_zip_with, length_map, length_drop in Hp'.
        lia.
  - apply Forall_app. split.
    + apply Forall_forall. intros p Hp.
      apply list_elem_of_In in Hp. clear Hrtl. revert news Hp.
      induction (paragraphs tx_body) as [|p0 ps IH]; intros [|np news];
        simpl; try contradiction.
      intros [<- | Hin]; [apply update_paragraph_text_lang|].
      apply (IH news Hin).
    + apply Forall_forall. intros p Hp.
      apply list_elem_of_In, in_map_iff in Hp as (np & <- & _).
      simpl. constructor; [|constructor]. simpl. intros r_pr [= <-]. reflexivity.
Qed.

Lemma injection_keeps_rtl_flags_witness :
  exists tx_body',
    txBody (_update_shape_text
              (_process_shape default_engine three_paragraphs 12192000 0)
              one_paragraph_record) = Some tx_body'
    /\ Forall (fun p => paragraph_rtl p = Some "1") (paragraphs tx_body').
Proof.
  destruct (injection_keeps_rtl_flags
              (_process_shape default_engine three_paragraphs 12192000 0)
              one_paragraph_record
              (_process_text_body
                 {| bodyPr := None;
                    paragraphs := [ plain_paragraph "en-US" "First";
                                    plain_paragraph "en-US" "Second";
                                    plain_paragraph "en-US" "Third" ] |}))
    as (tx_body' & H1 & _ & H2 & _).
  - vm_compute. reflexivity.
  - simpl. repeat constructor.
  - exists tx_body'. split; assumption.
Defined.

Lemma spPr_inject_shape tm shape : spPr (inject_shape tm shape) = spPr shape.
Proof.
  unfold inject_shape. destruct (cNvPr shape); [|reflexivity].
  destruct (tm !! _); [|reflexivity].
  unfold _update_shape_text. destruct (txBody shape); reflexivity.
Qed.

Lemma node_xfrm_inject_node tm n : node_xfrm (inject_node tm n) = node_xfrm n.
Proof.
  destruct n as [s|s|s|g ch|f]; simpl; try reflexivity.
  unfold shape_xfrm. rewrite spPr_inject_shape. reflexivity.
Qed.

(** X13. Injection touches no geometry: every node of the part has the
    transform it had (position, size, flip, child space), so injecting after
    the engine keeps the mirrored layout. *)
Theorem injection_keeps_geometry :
  forall root translated_json,
    map node_xfrm (slide_nodes (inject_translated_content root translated_json))
    = map node_xfrm (slide_nodes root).
Proof.
  intros root translated_json. rewrite slide_nodes_inject, map_map.
  apply map_ext. intros n. apply node_xfrm_inject_node.
Qed.

(** *** The lookup map *)

Lemma translation_map_snoc l e :
  translation_map {| elements := Some (l ++ [e]) |}
  = <[elem_id e := e]> (translation_map {| elements := Some l |}).
Proof. unfold translation_map. simpl. rewrite foldl_app. reflexivity. Qed.

Lemma translation_map_last l1 e l2 :
  Forall (fun e' => elem_id e' <> elem_id e) l2 ->
  translation_map {| elements := Some (l1 ++ e :: l2) |} !! elem_id e = Some e.
Proof.
  induction l2 as [|e' l2 IH] using rev_ind; intros Hall.
  - rewrite translation_map_snoc. apply lookup_insert_eq.
  - apply Forall_app in Hall as [Hl2 He']. apply Forall_inv in He'.
    change (l1 ++ e :: l2 ++ [e']) with (l1 ++ (e :: l2) ++ [e']).
    rewrite app_assoc, translation_map_snoc, lookup_insert_ne by exact He'.
    apply IH, Hl2.
Qed.

Lemma translation_map_other l1 e l2 k :
  k <> elem_id e ->
  translation_map {| elements := Some (l1 ++ e :: l2) |} !! k
  = translation_map {| elements := Some (l1 ++ l2) |} !! k.
Proof.
  intros Hk. induction l2 as [|e' l2 IH] using rev_ind.
  - rewrite app_nil_r, translation_map_snoc, lookup_insert_ne by congruence.
    reflexivity.
  - change (l1 ++ e :: l2 ++ [e']) with (l1 ++ (e :: l2) ++ [e']).
    rewrite !app_assoc, !translation_map_snoc.
    destruct (decide (elem_id e' = k)) as [->|Hne].
    + rewrite !lookup_insert_eq. reflexivity.
    + rewrite !lookup_insert_ne by exact Hne. exact IH.
Qed.

(** X14. When several translated elements carry the same id, the last one is
    the one injected: the lookup map answers with the element after which no
    other has that id. *)
Theorem last_record_of_an_id_wins :
  forall l1 e l2 shape c_nv_pr,
    Forall (fun e' => elem_id e' <> elem_id e) l2 ->
    cNvPr shape = Some c_nv_pr ->
    default "" (cNvPr_id c_nv_pr) = elem_id e ->
    translation_map {| elements := Some (l1 ++ e :: l2) |} !! elem_id e = Some e
    /\ inject_shape (translation_map {| elements := Some (l1 ++ e :: l2) |})
                    shape
       = _update_shape_text shape e.
Proof.
  intros l1 e l2 shape c_nv_pr Hall Hc Hid.
  pose proof (translation_map_last l1 e l2 Hall) as Hl.
  split; [exact Hl|]. unfold inject_shape. rewrite Hc, Hid, Hl. reflexivity.
Qed.

Lemma last_record_of_an_id_wins_witness :
  inject_shape
    (translation_map
       {| elements := Some ([one_paragraph_record] ++ second_record_for_7 :: []) |})
    three_paragraphs
  = _update_shape_text three_paragraphs second_record_for_7.
Proof.
  apply (proj2 (last_record_of_an_id_wins [one_paragraph_record]
                  second_record_for_7 [] three_paragraphs
                  {| cNvPr_id := Some "7"; cNvPr_name := Some "Content 6" |}
                  (Forall_nil_2 _) eq_refl eq_refl)).
Defined.

Lemma inject_node_agree tm1 tm2 n :
  Forall (fun s => forall c, cNvPr s = Some c ->
            tm1 !! default "" (cNvPr_id c) = tm2 !! default "" (cNvPr_id c))
         (omap (fun n => match n with Sp s => Some s | _ => None end) (nodes n)) ->
  inject_node tm1 n = inject_node tm2 n.
Proof.
  induction n as [s|s|s|g ch IH|f] using Node_ind'; simpl; try reflexivity.
  - intros H. apply Forall_inv in H. f_equal. unfold inject_shape.
    destruct (cNvPr s) as [c|]; [|reflexivity].
    rewrite (H c eq_refl). reflexivity.
  - intros H. f_equal.
    induction IH as [|c cs Hc _ IHcs]; [reflexivity|].
    simpl in H. rewrite omap_app in H. apply Forall_app in H as [H1 H2].
    simpl. rewrite (Hc H1), (IHcs H2). reflexivity.
Qed.

(** X15. A translated element whose id no shape of the part carries is
    ignored: the part comes out as if the element were not in the JSON. *)
Theorem record_without_shape_ignored :
  forall root l1 e l2,
    Forall (fun s => forall c, cNvPr s = Some c ->
              default "" (cNvPr_id c) <> elem_id e)
           (all_sp root) ->
    inject_translated_content root {| elements := Some (l1 ++ e :: l2) |}
    = inject_translated_content root {| elements := Some (l1 ++ l2) |}.
Proof.
  intros root l1 e l2. unfold inject_translated_content, all_sp, slide_nodes.
  destruct (spTree root) as [l|]; simpl; [|reflexivity].
  intros Hall. do 2 f_equal.
  induction l as [|n ns IH]; [reflexivity|].
  simpl in Hall. rewrite omap_app in Hall. apply Forall_app in Hall as [H1 H2].
  simpl. rewrite (IH H2). f_equal.
  apply inject_node_agree. eapply Forall_impl; [exact H1|].
  intros s Hs c Hc. apply translation_map_other. apply (Hs c Hc).
Qed.

Lemma record_without_shape_ignored_witness :
  inject_translated_content scenario_D_slide
    {| elements := Some ([one_paragraph_record] ++ stray_record :: []) |}
  = inject_translated_content scenario_D_slide
      {| elements := Some ([one_paragraph_record] ++ []) |}.
Proof.
  apply (record_without_shape_ignored scenario_D_slide [one_paragraph_record]
           stray_record []).
  repeat constructor; intros c [= <-]; discriminate.
Defined.

(* ===================================================================== *)
(** * Properties of the extraction *)
(* ===================================================================== *)

(** ** Blank strings *)

Lemma chars_rev_app s1 s2 :
  list_ascii_of_string (String.rev_app s1 s2)
  = rev (list_ascii_of_string s1) ++ list_ascii_of_string s2.
Proof.
  revert s2. induction s1 as [|c s1 IH]; intros s2; simpl; [reflexivity|].
  rewrite IH. simpl. rewrite <- app_assoc. reflexivity.
Qed.

Lemma chars_rev s :
  list_ascii_of_string (String.rev s) = rev (list_ascii_of_string s).
Proof. unfold String.rev. rewrite chars_rev_app. simpl. apply app_nil_r. Qed.

Lemma chars_app s1 s2 :
  list_ascii_of_string (s1 ++ s2)%string
  = list_ascii_of_string s1 ++ list_ascii_of_string s2.
Proof. induction s1 as [|c s1 IH]; simpl; [|rewrite IH]; reflexivity. Qed.

Lemma forallb_rev {A} (f : A -> bool) l : forallb f (rev l) = forallb f l.
Proof.
  induction l as [|x l IH]; simpl; [reflexivity|].
  rewrite forallb_app, IH. simpl. rewrite andb_true_r. apply andb_comm.
Qed.

Lemma is_blank_rev s : is_blank (String.rev s) = is_blank s.
Proof. unfold is_blank. rewrite chars_rev. apply forallb_rev. Qed.

Lemma is_blank_app s1 s2 :
  is_blank (s1 ++ s2)%string = is_blank s1 && is_blank s2.
Proof. unfold is_blank. rewrite chars_app. apply forallb_app. Qed.

Lemma truthy_chars s :
  Py.truthy s = match list_ascii_of_string s with [] => false | _ => true end.
Proof. destruct s; reflexivity. Qed.

Lemma truthy_rev s : Py.truthy (String.rev s) = Py.truthy s.
Proof.
  rewrite !truthy_chars, chars_rev.
  destruct (list_ascii_of_string s) as [|c l]; [reflexivity|].
  simpl. destruct (rev l); reflexivity.
Qed.

Lemma truthy_lstrip s : Py.truthy (Py.lstrip s) = negb (is_blank s).
Proof.
  induction s as [|c s IH]; [reflexivity|]. unfold is_blank in *. simpl.
  destruct (Py.isspace c); [exact IH|reflexivity].
Qed.

Lemma is_blank_lstrip s : is_blank (Py.lstrip s) = is_blank s.
Proof.
  induction s as [|c s IH]; [reflexivity|]. simpl.
  destruct (Py.isspace c) eqn:E; [rewrite IH|]; unfold is_blank; simpl;
    rewrite E; reflexivity.
Qed.

(** [s.strip()] is non-empty exactly when [s] has a non-whitespace
    character. *)
Lemma truthy_strip s : Py.truthy (Py.strip s) = negb (is_blank s).
Proof.
  unfold Py.strip, Py.rstrip.
  rewrite truthy_rev, truthy_lstrip, is_blank_rev, is_blank_lstrip.
  reflexivity.
Qed.

Lemma is_blank_join_lines x xs :
  is_blank x = false -> is_blank (join_lines (x :: xs)) = false.
Proof.
  intros Hx. destruct xs as [|y ys].
  - exact Hx.
  - rewrite join_lines_cons, is_blank_app, Hx. reflexivity.
Qed.

(** ** What is extracted *)

Lemma extract_paragraph_Some p info :
  _extract_paragraph p = Some info ->
  info_text info = join_text (text_parts p)
  /\ is_blank (info_text info) = false.
Proof.
  unfold _extract_paragraph. rewrite truthy_strip.
  destruct (is_blank (join_text (text_parts p))) eqn:E; simpl; [discriminate|].
  intros [= <-]. simpl. split; [reflexivity|exact E].
Qed.

Lemma extract_paragraph_is_Some p :
  is_Some (_extract_paragraph p) <-> is_blank (join_text (text_parts p)) = false.
Proof.
  unfold _extract_paragraph. rewrite truthy_strip.
  destruct (is_blank (join_text (text_parts p))); simpl; split;
    intros H; try reflexivity; try discriminate; eauto.
  destruct H as [x H]. discriminate.
Qed.

Lemma extract_paragraphs_nonblank tx_body :
  Forall (fun info => is_blank (info_text info) = false)
         (_extract_paragraphs tx_body).
Proof.
  unfold _extract_paragraphs. apply Forall_forall. intros info Hin.
  apply list_elem_of_omap in Hin as (p & _ & Hp).
  apply (extract_paragraph_Some p info Hp).
Qed.

Lemma filter_nonblank_all infos :
  Forall (fun info => is_blank (info_text info) = false) infos ->
  filter (fun p => Py.truthy (Py.strip (info_text p)) = true) infos = infos.
Proof.
  induction 1 as [|info infos Hi _ IH]; [reflexivity|].
  rewrite filter_cons_True by (rewrite truthy_strip, Hi; reflexivity).
  rewrite IH. reflexivity.
Qed.

Lemma extract_shape_content_Some shape element :
  _extract_shape_content shape = Some element ->
  exists c_nv_pr tx_body,
    cNvPr (content shape) = Some c_nv_pr
    /\ txBody (content shape) = Some tx_body
    /\ te_paragraphs element = _extract_paragraphs tx_body
    /\ te_paragraphs element <> []
    /\ te_original_text element
       = join_lines (map info_text (te_paragraphs element))
    /\ te_id element = default "" (cNvPr_id c_nv_pr)
    /\ te_role element = _determine_role (nvPr shape)
    /\ te_y_position element = _get_y_position (content shape).
Proof.
  unfold _extract_shape_content.
  destruct (cNvPr (content shape)) as [c|]; [|discriminate].
  destruct (txBody (content shape)) as [tb|]; [|discriminate].
  rewrite (filter_nonblank_all _ (extract_paragraphs_nonblank tb)).
  destruct (_extract_paragraphs tb) as [|i0 infos] eqn:E; [discriminate|].
  intros [= <-]. simpl. exists c, tb.
  split; [reflexivity|]. split; [reflexivity|].
  split; [symmetry; exact E|].
  split; [discriminate|]. repeat split; reflexivity.
Qed.

(** X16. A shape is extracted exactly when it has its [p:cNvPr], a text body
    and a paragraph whose runs and fields hold a non-whitespace character.
    An extracted element has at least one paragraph, all of them with visible
    text, and its combined text, their texts joined by newlines, is not
    blank: the second emptiness test of [extract_content_for_llm] never drops
    an element. *)
Theorem extraction_keeps_exactly_visible_text :
  (forall shape,
     is_Some (_extract_shape_content shape)
     <-> exists c_nv_pr tx_body p,
           cNvPr (content shape) = Some c_nv_pr
           /\ txBody (content shape) = Some tx_body
           /\ p ∈ paragraphs tx_body
           /\ is_blank (join_text (text_parts p)) = false)
  /\ (forall shape element,
        _extract_shape_content shape = Some element ->
        te_paragraphs element <> []
        /\ Forall (fun p => is_blank (info_text p) = false)
                  (te_paragraphs element)
        /\ te_original_text element
           = join_lines (map info_text (te_paragraphs element))
        /\ Py.truthy (Py.strip (te_original_text element)) = true)
  /\ (forall shapes,
        extracted_elements shapes = omap _extract_shape_content shapes).
Proof.
  assert (Hsome : forall shape element,
            _extract_shape_content shape = Some element ->
            te_paragraphs element <> []
            /\ Forall (fun p => is_blank (info_text p) = false)
                      (te_paragraphs element)
            /\ te_original_text element
               = join_lines (map info_text (te_paragraphs element))
            /\ Py.truthy (Py.strip (te_original_text element)) = true).
  { intros shape element He.
    destruct (extract_shape_content_Some shape element He)
      as (c & tb & _ & _ & Hps & Hne & Htxt & _).
    split; [exact Hne|]. split; [rewrite Hps; apply extract_paragraphs_nonblank|].
    split; [exact Htxt|].
    rewrite truthy_strip, Htxt.
    pose proof (extract_paragraphs_nonblank tb) as Hnb. rewrite <- Hps in Hnb.
    destruct (te_paragraphs element) as [|i0 infos]; [congruence|].
    apply Forall_inv in Hnb. simpl.
    rewrite (is_blank_join_lines _ _ Hnb). reflexivity. }
  split; [|split; [exact Hsome|]].
  - intros shape. split.
    + intros [element He].
      destruct (extract_shape_content_Some shape element He)
        as (c & tb & Hc & Htb & Hps & Hne & _).
      rewrite Hps in Hne. unfold _extract_paragraphs in Hne.
      destruct (omap _extract_paragraph (paragraphs tb)) as [|i0 infos] eqn:E;
        [congruence|].
      assert (Hin : i0 ∈ omap _extract_paragraph (paragraphs tb))
        by (rewrite E; apply list_elem_of_here).
      apply list_elem_of_omap in Hin as (p & Hp & Hi).
      exists c, tb, p. repeat split; try assumption.
      apply extract_paragraph_is_Some. eauto.
    + intros (c & tb & p & Hc & Htb & Hp & Hnb).
      unfold _extract_shape_content. rewrite Hc, Htb.
      apply extract_paragraph_is_Some in Hnb as [i Hi].
      assert (Hin : i ∈ _extract_paragraphs tb).
      { unfold _extract_paragraphs. apply list_elem_of_omap. eauto. }
      destruct (_extract_paragraphs tb); [inversion Hin|eauto].
  - intros shapes. unfold extracted_elements.
    induction shapes as [|shape shapes IH]; [reflexivity|]. simpl.
    destruct (_extract_shape_content shape) as [element|] eqn:He;
      [|exact IH].
    destruct (Hsome shape element He) as (_ & _ & _ & ->).
    f_equal. exact IH.
Qed.

Lemma extraction_keeps_exactly_visible_text_witness :
  is_Some (_extract_shape_content
             {| nvPr := None; content := three_paragraphs |}).
Proof.
  apply (proj1 extraction_keeps_exactly_visible_text
           {| nvPr := None; content := three_paragraphs |}).
  exists {| cNvPr_id := Some "7"; cNvPr_name := Some "Content 6" |},
         {| bodyPr := None;
            paragraphs := [ plain_paragraph "en-US" "First";
                            plain_paragraph "en-US" "Second";
                            plain_paragraph "en-US" "Third" ] |},
         (plain_paragraph "en-US" "First").
  split; [reflexivity|]. split; [reflexivity|].
  split; [apply list_elem_of_here|reflexivity].
Defined.

(** ** The reading order *)

Lemma insert_by_y_perm e l : insert_by_y e l ≡ₚ e :: l.
Proof.
  induction l as [|e' l IH]; simpl; [reflexivity|].
  destruct (te_y_position e <=? te_y_position e'); [reflexivity|].
  rewrite IH. apply Permutation_swap.
Qed.

Lemma sort_by_y_perm l : sort_by_y l ≡ₚ l.
Proof.
  induction l as [|e l IH]; simpl; [reflexivity|].
  rewrite insert_by_y_perm, IH. reflexivity.
Qed.

Lemma insert_by_y_sorted e l :
  StronglySorted (fun a b => te_y_position a <= te_y_position b) l ->
  StronglySorted (fun a b => te_y_position a <= te_y_position b)
                 (insert_by_y e l).
Proof.
  induction 1 as [|e' l Hs IH Hall]; simpl.
  - repeat constructor.
  - destruct (Z.leb_spec (te_y_position e) (te_y_position e')) as [Hle|Hgt].
    + constructor; [constructor; assumption|].
      constructor; [exact Hle|].
      eapply Forall_impl; [exact Hall|]. simpl. intros x Hx. lia.
    + constructor; [exact IH|].
      rewrite insert_by_y_perm. constructor; [lia|exact Hall].
Qed.

Lemma sort_by_y_sorted l :
  StronglySorted (fun a b => te_y_position a <= te_y_position b) (sort_by_y l).
Proof.
  induction l as [|e l IH]; simpl; [constructor|].
  apply insert_by_y_sorted, IH.
Qed.

Lemma insert_by_y_filter y e l :
  filter (fun x => te_y_position x = y) (insert_by_y e l)
  = filter (fun x => te_y_position x = y) (e :: l).
Proof.
  induction l as [|e' l IH]; simpl; [reflexivity|].
  destruct (Z.leb_spec (te_y_position e) (te_y_position e')) as [Hle|Hgt];
    [reflexivity|].
  rewrite (filter_cons _ e'), IH, !(filter_cons _ e), !(filter_cons _ e').
  repeat case_decide; try reflexivity. lia.
Qed.

Lemma sort_by_y_filter y l :
  filter (fun x => te_y_position x = y) (sort_by_y l)
  = filter (fun x => te_y_position x = y) l.
Proof.
  induction l as [|e l IH]; simpl; [reflexivity|].
  rewrite insert_by_y_filter, !filter_cons, IH. reflexivity.
Qed.

(** X17. The extracted elements come out in ascending [y]: the output holds
    each extracted element once, is sorted by vertical position, and keeps
    elements of the same [y] in document order. *)
Theorem extraction_in_stable_reading_order :
  forall shapes,
    exists sorted,
      elements (extract_content_for_llm shapes)
      = Some (map element_record sorted)
      /\ sorted ≡ₚ extracted_elements shapes
      /\ StronglySorted (fun a b => te_y_position a <= te_y_position b) sorted
      /\ (forall y,
            filter (fun e => te_y_position e = y) sorted
            = filter (fun e => te_y_position e = y) (extracted_elements shapes)).
Proof.
  intros shapes. exists (sort_by_y (extracted_elements shapes)).
  split; [reflexivity|]. split; [apply sort_by_y_perm|].
  split; [apply sort_by_y_sorted|]. intros y. apply sort_by_y_filter.
Qed.

(** ** Extraction and the engine *)

Lemma extract_by_view nv s1 s2 :
  extraction_view s1 = extraction_view s2 ->
  _extract_shape_content {| nvPr := nv; content := s1 |}
  = _extract_shape_content {| nvPr := nv; content := s2 |}.
Proof.
  unfold extraction_view, _extract_shape_content. simpl.
  intros [= Hc Hy Hp]. rewrite Hc, Hy.
  destruct (cNvPr s2); [|reflexivity].
  destruct (txBody s1), (txBody s2); simpl in Hp; try discriminate;
    [|reflexivity].
  injection Hp as ->. reflexivity.
Qed.

Lemma run_is_bold_process_run r : run_is_bold (_process_run r) = run_is_bold r.
Proof.
  destruct r as [[[lg bd dt [lf|] [cf|] ot]|] tx]; unfold _process_run, run_is_bold;
    font_cbn; try font_case; reflexivity.
Qed.

Lemma extract_paragraph_process_paragraph p :
  _extract_paragraph (_process_paragraph p) = _extract_paragraph p.
Proof.
  unfold _extract_paragraph.
  assert (Ht : text_parts (_process_paragraph p) = text_parts p).
  { unfold text_parts, _process_paragraph. simpl. f_equal. f_equal.
    induction (runs p) as [|r rs IH]; [reflexivity|].
    simpl. destruct (t r); [f_equal|]; exact IH. }
  assert (Hb : existsb run_is_bold (runs (_process_paragraph p))
               = existsb run_is_bold (runs p)).
  { unfold _process_paragraph. simpl.
    induction (runs p) as [|r rs IH]; [reflexivity|].
    simpl. rewrite run_is_bold_process_run, IH. reflexivity. }
  assert (Hl : match pPr (_process_paragraph p) with
               | Some p_pr => default 0 (lvl p_pr) | None => 0 end
               = match pPr p with
                 | Some p_pr => default 0 (lvl p_pr) | None => 0 end).
  { unfold _process_paragraph. simpl. destruct (pPr p); reflexivity. }
  rewrite Ht, Hb, Hl. reflexivity.
Qed.

Lemma extract_paragraphs_process_text_body tb :
  _extract_paragraphs (_process_text_body tb) = _extract_paragraphs tb.
Proof.
  unfold _extract_paragraphs, _process_text_body. simpl.
  induction (paragraphs tb) as [|p ps IH]; [reflexivity|].
  simpl. rewrite extract_paragraph_process_paragraph.
  destruct (_extract_paragraph p); [f_equal|]; exact IH.
Qed.

Lemma y_position_set_offset_x s new_x :
  _get_y_position (_set_offset_x s new_x) = _get_y_position s.
Proof.
  unfold _get_y_position, _set_offset_x.
  destruct s as [c [[[xf|] pg]|] tb]; simpl; try reflexivity.
  destruct xf as [fl [o|] e co ce]; reflexivity.
Qed.

Lemma y_position_set_flip_h s :
  _get_y_position (_set_flip_h s) = _get_y_position s.
Proof.
  unfold _get_y_position, _set_flip_h.
  destruct s as [c [[[xf|] pg]|] tb]; reflexivity.
Qed.

Lemma extraction_view_text_body s :
  extraction_view
    match txBody s with
    | Some tx_body => set_shape_txBody s (Some (_process_text_body tx_body))
    | None => s
    end
  = extraction_view s.
Proof.
  unfold extraction_view.
  destruct (txBody s) as [tb|] eqn:E; simpl; rewrite ?E; simpl;
    rewrite ?extract_paragraphs_process_text_body; reflexivity.
Qed.

Lemma extraction_view_process_shape self s space_width space_offset :
  extraction_view (_process_shape self s space_width space_offset)
  = extraction_view s.
Proof.
  unfold _process_shape.
  destruct (_get_bounding_box s) as [bbox|]; [|reflexivity].
  set (s1 := _set_offset_x s _).
  assert (H1 : extraction_view s1 = extraction_view s).
  { unfold extraction_view, s1.
    rewrite cNvPr_set_offset_x, y_position_set_offset_x, txBody_set_offset_x.
    reflexivity. }
  destruct (_should_flip_shape self (Sp s1) bbox _);
    rewrite extraction_view_text_body; [|exact H1].
  rewrite <- H1. unfold extraction_view.
  rewrite cNvPr_set_flip_h, y_position_set_flip_h, txBody_set_flip_h.
  reflexivity.
Qed.

Lemma sp_view_process_element self n space_width space_offset :
  match _process_element self n space_width space_offset with
  | Sp s => Some (extraction_view s) | _ => None end
  = match n with Sp s => Some (extraction_view s) | _ => None end.
Proof.
  destruct n as [s|s|s|g ch|f]; simpl; try reflexivity.
  - rewrite extraction_view_process_shape. reflexivity.
  - destruct (flip_connectors self); reflexivity.
  - destruct (group_geometry g) as [[[[[xf o] gx] gw] [cw co]]|]; reflexivity.
Qed.

Lemma views_of_all_sp ns :
  map extraction_view
      (omap (fun n => match n with Sp s => Some s | _ => None end) ns)
  = omap id (map (fun n => match n with
                           | Sp s => Some (extraction_view s)
                           | _ => None end) ns).
Proof.
  induction ns as [|n ns IH]; [reflexivity|].
  destruct n; simpl; try exact IH. f_equal. exact IH.
Qed.

Lemma extracted_by_views nv_prs l1 l2 :
  map extraction_view l1 = map extraction_view l2 ->
  map _extract_shape_content
      (zip_with (fun nv s => {| nvPr := nv; content := s |}) nv_prs l1)
  = map _extract_shape_content
      (zip_with (fun nv s => {| nvPr := nv; content := s |}) nv_prs l2).
Proof.
  revert l1 l2. induction nv_prs as [|nv nvs IH]; intros [|s1 l1] [|s2 l2];
    simpl; try reflexivity; try discriminate.
  intros H.
  assert (Hv : extraction_view s1 = extraction_view s2) by congruence.
  assert (Hl : map extraction_view l1 = map extraction_view l2) by congruence.
  rewrite (extract_by_view nv s1 s2 Hv), (IH l1 l2 Hl). reflexivity.
Qed.

Lemma extracted_elements_map shapes1 shapes2 :
  map _extract_shape_content shapes1 = map _extract_shape_content shapes2 ->
  extracted_elements shapes1 = extracted_elements shapes2.
Proof.
  unfold extracted_elements. revert shapes2.
  induction shapes1 as [|s1 l1 IH]; intros [|s2 l2]; simpl;
    try reflexivity; try discriminate.
  intros [= -> Hl]. specialize (IH l2 Hl).
  destruct (_extract_shape_content s2) as [el|]; [|exact IH].
  destruct (Py.truthy _); [f_equal|]; exact IH.
Qed.

(** X18. The content extracted from a part is the same before and after the
    RTL transform: the engine changes no id, no vertical position, no text,
    no level and no bold flag, so the pipeline may extract on either side of
    it. *)
Theorem extraction_unchanged_by_transform :
  forall self nv_prs root root',
    transform self root = Some root' ->
    extract_content_for_llm (sp_elements nv_prs root')
    = extract_content_for_llm (sp_elements nv_prs root).
Proof.
  intros self nv_prs root root' Ht.
  unfold extract_content_for_llm, sp_elements. do 4 f_equal.
  apply extracted_elements_map, extracted_by_views.
  unfold all_sp. rewrite !views_of_all_sp. f_equal.
  apply (transform_nodes_invariant _ self root root'); [|exact Ht].
  intros n space_width space_offset. apply sp_view_process_element.
Qed.

Lemma extraction_unchanged_by_transform_witness :
  exists root',
    transform default_engine scenario_D_slide = Some root'
    /\ extract_content_for_llm (sp_elements [None; None] root')
       = extract_content_for_llm (sp_elements [None; None] scenario_D_slide).
Proof.
  eexists. split; [reflexivity|].
  apply (extraction_unchanged_by_transform default_engine [None; None]
           scenario_D_slide _ eq_refl).
Defined.

(** ** Extraction after injection *)

Lemma truthy_nonblank s : is_blank s = false -> Py.truthy s = true.
Proof. destruct s; [discriminate|reflexivity]. Qed.

Lemma extract_updated_paragraph p new_text :
  flds p = [] -> is_blank new_text = false ->
  exists info,
    _extract_paragraph (_update_paragraph_text p new_text) = Some info
    /\ info_text info = new_text.
Proof.
  intros Hf Hnb. unfold _extract_paragraph.
  assert (Ht : text_parts (_update_paragraph_text p new_text) = [new_text]).
  { unfold text_parts.
    destruct (update_paragraph_text_runs p new_text) as (_ & -> & ->).
    rewrite Hf. simpl.
    assert (Htx : t match runs p with
                    | first_run :: _ => updated_first_run first_run new_text
                    | [] => _create_run new_text
                    end = Some new_text) by (destruct (runs p); reflexivity).
    rewrite Htx. simpl.
    rewrite filter_cons_True by (apply truthy_nonblank, Hnb). reflexivity. }
  rewrite Ht. unfold join_text. simpl. rewrite truthy_strip, Hnb. simpl.
  eexists. split; reflexivity.
Qed.

Lemma extract_updated_paragraphs existing news :
  Forall (fun p => flds p = []) existing ->
  Forall (fun np => is_blank (default "" (para_text np)) = false) news ->
  (length news <= length existing)%nat ->
  map info_text
      (omap _extract_paragraph
         (zip_with (fun p np =>
                      _update_paragraph_text p (default "" (para_text np)))
                   existing news))
  = map (fun np => default "" (para_text np)) news.
Proof.
  intros Hf. revert news. induction Hf as [|p ps Hp _ IH]; intros news Hn Hlen.
  - destruct news; [reflexivity|simpl in Hlen; lia].
  - destruct news as [|np news]; [reflexivity|].
    apply Forall_cons in Hn as [Hnp Hn]. simpl in Hlen. simpl.
    destruct (extract_updated_paragraph p _ Hp Hnp) as (info & -> & Hi).
    simpl. f_equal; [exact Hi|]. apply (IH news Hn). lia.
Qed.

Lemma length_omap_le {A B} (f : A -> option B) l :
  (length (omap f l) <= length l)%nat.
Proof.
  unfold omap. induction l as [|x l IH]; simpl; [lia|].
  destruct (f x); simpl; lia.
Qed.

(** X19. Extract, inject what was extracted, extract again: for a shape
    without text fields the second extraction finds the same id, role and
    position, the same paragraph texts and the same combined text as the
    first. *)
Theorem extract_inject_extract_same_texts :
  forall shape element tx_body,
    _extract_shape_content shape = Some element ->
    txBody (content shape) = Some tx_body ->
    Forall (fun p => flds p = []) (paragraphs tx_body) ->
    exists element',
      _extract_shape_content
        {| nvPr := nvPr shape;
           content := _update_shape_text (content shape)
                        (element_record element) |}
      = Some element'
      /\ map info_text (te_paragraphs element')
         = map info_text (te_paragraphs element)
      /\ te_original_text element' = te_original_text element
      /\ te_id element' = te_id element
      /\ te_role element' = te_role element
      /\ te_y_position element' = te_y_position element.
Proof.
  intros shape element tx_body He Htb Hf.
  destruct (extract_shape_content_Some shape element He)
    as (c & tb & Hc & Htb' & Hps & Hne & Htxt & Hid & Hrole & Hy).
  rewrite Htb in Htb'. injection Htb' as <-.
  assert (Hnews : new_paragraphs (element_record element)
                  = map (fun p => {| para_text := Some (info_text p);
                                     para_level := Some (info_level p);
                                     para_is_bold := Some (info_is_bold p) |})
                        (te_paragraphs element)).
  { unfold new_paragraphs, element_record. simpl.
    destruct (te_paragraphs element); [congruence|reflexivity]. }
  remember (te_paragraphs element) as infos eqn:Hinfos.
  remember (map (fun p => {| para_text := Some (info_text p);
                             para_level := Some (info_level p);
                             para_is_bold := Some (info_is_bold p) |})
                infos) as news eqn:Hnewsdef.
  pose proof (update_shape_text_paragraphs (content shape)
                (element_record element) tx_body Htb) as Hupd.
  rewrite Hnews in Hupd.
  assert (Hlen : (length news <= length (paragraphs tx_body))%nat).
  { rewrite Hnewsdef, length_map, Hps. apply length_omap_le. }
  rewrite (drop_ge news) in Hupd by exact Hlen.
  simpl in Hupd. rewrite app_nil_r in Hupd.
  assert (Htexts : map info_text
            (omap _extract_paragraph
               (zip_with (fun p np =>
                            _update_paragraph_text p
                              (default "" (para_text np)))
                         (paragraphs tx_body) news))
          = map info_text infos).
  { rewrite extract_updated_paragraphs; [|exact Hf| |exact Hlen].
    - rewrite Hnewsdef, map_map. reflexivity.
    - rewrite Hnewsdef. apply Forall_forall. intros np Hin.
      apply list_elem_of_In, in_map_iff in Hin as (info & <- & Hin).
      simpl. pose proof (extract_paragraphs_nonblank tx_body) as Hnb.
      rewrite <- Hps in Hnb.
      rewrite Forall_forall in Hnb. apply Hnb, list_elem_of_In, Hin. }
  assert (Hsome : is_Some (_extract_shape_content
            {| nvPr := nvPr shape;
               content := _update_shape_text (content shape)
                            (element_record element) |})).
  { unfold _extract_shape_content. simpl.
    rewrite cNvPr_update_shape_text, Hc, Hupd. unfold _extract_paragraphs.
    simpl.
    destruct (omap _extract_paragraph _) eqn:E; [|eauto].
    simpl in Htexts. destruct infos; [congruence|discriminate]. }
  destruct Hsome as [element' He']. exists element'. split; [exact He'|].
  destruct (extract_shape_content_Some _ element' He')
    as (c' & tb' & Hc' & Htb2 & Hps' & _ & Htxt' & Hid' & Hrole' & Hy').
  simpl in *. rewrite Hupd in Htb2. injection Htb2 as <-.
  rewrite cNvPr_update_shape_text, Hc in Hc'. injection Hc' as <-.
  unfold _extract_paragraphs in Hps'. simpl in Hps'.
  assert (Ht' : map info_text (te_paragraphs element') = map info_text infos)
    by (rewrite Hps'; exact Htexts).
  split; [exact Ht'|]. split; [rewrite Htxt', Htxt, Ht'; reflexivity|].
  split; [congruence|]. split; [congruence|].
  rewrite Hy', Hy. unfold _get_y_position, _update_shape_text.
  rewrite Htb. reflexivity.
Qed.

Lemma extract_inject_extract_same_texts_witness :
  exists element element',
    _extract_shape_content {| nvPr := None; content := three_paragraphs |}
    = Some element
    /\ _extract_shape_content
         {| nvPr := None;
            content := _update_shape_text three_paragraphs
                         (element_record element) |}
       = Some element'
    /\ map info_text (te_paragraphs element')
       = map info_text (te_paragraphs element).
Proof.
  eexists.
  destruct (extract_inject_extract_same_texts
              {| nvPr := None; content := three_paragraphs |} _ _
              eq_refl eq_refl)
    as (element' & H1 & H2 & _).
  - simpl. repeat constructor.
  - exists element'. split; [reflexivity|]. split; [exact H1|exact H2].
Defined.

(* ===================================================================== *)
(** * Further properties of the chart processor *)
(* ===================================================================== *)

Lemma ser_idx_inject translated_json ser :
  ser_idx (inject_categories translated_json
             (inject_series translated_json ser)) = ser_idx ser.
Proof.
  destruct ser as [idx name cats]. unfold inject_categories, inject_series.
  simpl. repeat case_match; simplify_eq; reflexivity.
Qed.

Lemma ser_name_inject_categories translated_json ser :
  ser_name (inject_categories translated_json ser) = ser_name ser.
Proof.
  unfold inject_categories.
  destruct (categories translated_json) as [[|c cs]|]; reflexivity.
Qed.

Lemma ser_cats_inject_series translated_json ser :
  ser_cats (inject_series translated_json ser) = ser_cats ser.
Proof.
  destruct ser as [idx name cats]. unfold inject_series. simpl.
  repeat case_match; simplify_eq; reflexivity.
Qed.

Lemma ser_name_present_inject_series translated_json ser :
  option_map (fun _ => tt) (ser_name (inject_series translated_json ser))
  = option_map (fun _ => tt) (ser_name ser).
Proof.
  destruct ser as [idx name cats]. unfold inject_series. simpl.
  repeat case_match; simplify_eq; reflexivity.
Qed.

Lemma imap_present {A} (g : nat -> A -> A) (l : list A) (h : A -> bool) :
  (forall i x, h (g i x) = h x) -> map h (imap g l) = map h l.
Proof.
  revert g. induction l as [|x l IH]; intros g Hg; [reflexivity|].
  simpl. rewrite Hg. f_equal. apply IH. intros i y. apply Hg.
Qed.

Lemma ser_cats_present_inject_categories translated_json ser :
  map (fun c => match c with Some _ => true | None => false end)
      (ser_cats (inject_categories translated_json ser))
  = map (fun c => match c with Some _ => true | None => false end)
        (ser_cats ser).
Proof.
  unfold inject_categories.
  destruct (categories translated_json) as [[|c cs]|]; try reflexivity.
  simpl. apply imap_present. intros i [x|]; destruct ((c :: cs) !! i);
    reflexivity.
Qed.

Lemma sers_inject root translated_json :
  sers (inject_chart_text root translated_json)
  = map (fun ser => inject_categories translated_json
                      (inject_series translated_json ser))
        (sers root).
Proof.
  unfold inject_chart_text, rtl_bar_chart_adjustment.
  destruct (is_horizontal_bar _);
    destruct (chart_title translated_json) as [[|c s]|], (title_t root);
    reflexivity.
Qed.

Lemma barChart_inject root translated_json :
  barChart (inject_chart_text root translated_json) = barChart root.
Proof.
  unfold inject_chart_text, rtl_bar_chart_adjustment.
  destruct (is_horizontal_bar _);
    destruct (chart_title translated_json) as [[|c s]|], (title_t root);
    reflexivity.
Qed.

(** X20. Injecting chart text changes texts only: the chart keeps its
    [c:barChart], its series in order with their indices, and for every
    series the name element and each category point it had or lacked. *)
Theorem chart_injection_keeps_structure :
  forall root translated_json,
    let out := inject_chart_text root translated_json in
    barChart out = barChart root
    /\ length (sers out) = length (sers root)
    /\ map ser_idx (sers out) = map ser_idx (sers root)
    /\ map (fun ser => option_map (fun _ => tt) (ser_name ser)) (sers out)
       = map (fun ser => option_map (fun _ => tt) (ser_name ser)) (sers root)
    /\ map (fun ser =>
              map (fun c => match c with Some _ => true | None => false end)
                  (ser_cats ser))
           (sers out)
       = map (fun ser =>
                map (fun c => match c with Some _ => true | None => false end)
                    (ser_cats ser))
             (sers root).
Proof.
  intros root translated_json out. subst out.
  split; [apply barChart_inject|]. rewrite sers_inject.
  split; [apply length_map|].
  repeat split; rewrite map_map; apply map_ext; intros ser.
  - apply ser_idx_inject.
  - rewrite ser_name_inject_categories. apply ser_name_present_inject_series.
  - rewrite ser_cats_present_inject_categories, ser_cats_inject_series.
    reflexivity.
Qed.






Lemma title_t_inject root translated_json :
  title_t (inject_chart_text root translated_json)
  = match chart_title translated_json, title_t root with
    | Some (String c s), Some _ => Some (String c s)
    | _, _ => title_t root
    end.
Proof.
  destruct root as [tt tl ss bc va].
  unfold inject_chart_text, rtl_bar_chart_adjustment. simpl.
  destruct (chart_title translated_json) as [[|c s]|], tt; simpl;
    destruct (is_horizontal_bar _); reflexivity.
Qed.

Lemma injected_categories_extracted cats l :
  Forall is_Some l -> (length l <= length cats)%nat ->
  omap id
    (imap (fun (i : nat) (cat_v : option string) =>
             match cats !! i, cat_v with
             | Some new_text, Some _ => Some new_text
             | _, _ => cat_v
             end) l)
  = take (length l) cats.
Proof.
  intros Hall. revert cats. induction Hall as [|x l [x0 ->] _ IH];
    intros cats Hlen; [reflexivity|].
  destruct cats as [|c0 cats]; [simpl in Hlen; lia|].
  simpl. f_equal. rewrite <- (IH cats) by (simpl in Hlen; lia).
  f_equal.
Qed.

Lemma filter_truthy_all l :
  Forall (fun c => c <> "") l -> filter (fun s => Py.truthy s = true) l = l.
Proof.
  induction 1 as [|c l Hc _ IH]; [reflexivity|].
  rewrite filter_cons_True by (destruct c; [congruence|reflexivity]).
  rewrite IH. reflexivity.
Qed.

(** X22. What is injected into a chart is what is extracted from it
    afterwards: a non-empty translated title replaces an existing title, the
    title stays when the JSON has none (or an empty one), and the categories
    extracted are the leading translated categories, one per category point
    of the first series. *)
Theorem chart_extraction_after_injection :
  forall root translated_json,
    let out := extract_chart_text (inject_chart_text root translated_json) in
    (forall old new,
       title_t root = Some old -> chart_title translated_json = Some new ->
       new <> "" -> text_chart_title out = Some new)
    /\ (chart_title translated_json = None
        \/ chart_title translated_json = Some "" ->
        text_chart_title out = text_chart_title (extract_chart_text root))
    /\ (forall first_series rest cats,
          sers root = first_series :: rest ->
          categories translated_json = Some cats ->
          Forall (fun c => c <> "") cats ->
          Forall is_Some (ser_cats first_series) ->
          (length (ser_cats first_series) <= length cats)%nat ->
          text_categories out = take (length (ser_cats first_series)) cats).
Proof.
  intros root translated_json out. subst out. unfold extract_chart_text.
  simpl. rewrite title_t_inject, sers_inject. split; [|split].
  - intros old new Hold Hnew Hne. rewrite Hold, Hnew.
    destruct new; [congruence|reflexivity].
  - intros [-> | ->]; reflexivity.
  - intros first_series rest cats Hsers Hcats Hne Hall Hlen.
    rewrite Hsers. simpl. unfold inject_categories at 1.
    rewrite Hcats, ser_cats_inject_series.
    destruct cats as [|c cs].
    + rewrite ser_cats_inject_series.
      destruct (ser_cats first_series); [reflexivity|simpl in Hlen; lia].
    + simpl ser_cats.
      rewrite (injected_categories_extracted (c :: cs) _ Hall Hlen).
      apply filter_truthy_all.
      apply Forall_take. exact Hne.
Qed.

Lemma chart_extraction_after_injection_witness :
  text_chart_title
    (extract_chart_text (inject_chart_text scenario_E_chart scenario_E_json))
  = Some "Translated title".
Proof.
  apply (proj1 (chart_extraction_after_injection scenario_E_chart
                  scenario_E_json) "Sales" "Translated title").
  - reflexivity.
  - reflexivity.
  - discriminate.
Defined.

(* ===================================================================== *)
(** * Degenerate boxes *)
(* ===================================================================== *)

Lemma aspect_ratio_flat bbox :
  bb_height bbox <= 0 -> aspect_ratio bbox = PyFloat.of_int 0.
Proof.
  intros H. unfold aspect_ratio.
  destruct (Z.ltb_spec 0 (bb_height bbox)); [lia|reflexivity].
Qed.

(** X23. A box without height is never divided by: its aspect ratio is 0, so
    the wide-banner rule does not flip the shape however wide it is (only an
    arrow geometry can), and the logo heuristic counts it as square. *)
Theorem flat_shape_not_flipped_as_banner :
  forall self element bbox name,
    bb_height bbox <= 0 ->
    is_squarish bbox = true
    /\ ((forall prst_geom, node_prstGeom element = Some prst_geom ->
           Py.mem (default "" (prst prst_geom)) ARROW_GEOMETRIES = false) ->
        _should_flip_shape self element bbox name = false).
Proof.
  intros self element bbox name Hflat. split.
  - unfold is_squarish. destruct (Z.ltb_spec 0 (bb_height bbox)); [lia|reflexivity].
  - intros Hgeom. unfold _should_flip_shape.
    rewrite (aspect_ratio_flat bbox Hflat).
    destruct (match node_txBody element with
              | Some tx_body => has_text tx_body | None => false end);
      [reflexivity|].
    destruct (_is_likely_logo self element name bbox); [reflexivity|].
    destruct (node_prstGeom element) as [pg|].
    + rewrite (Hgeom pg eq_refl). apply andb_false_r.
    + apply andb_false_r.
Qed.

Lemma flat_shape_not_flipped_as_banner_witness :
  _should_flip_shape default_engine
    (Sp (plain_shape "11" "Line 10" 1000000 9000000 (Some "rect")))
    {| bb_x := 1000000; bb_y := 0; bb_width := 9000000; bb_height := 0 |}
    "Line 10" = false.
Proof.
  apply (proj2 (flat_shape_not_flipped_as_banner default_engine
                  (Sp (plain_shape "11" "Line 10" 1000000 9000000 (Some "rect")))
                  {| bb_x := 1000000; bb_y := 0; bb_width := 9000000;
                     bb_height := 0 |} "Line 10" ltac:(simpl; lia))).
  intros prst_geom [= <-]. reflexivity.
Defined.

(* ===================================================================== *)
(** * Qualified names *)
(* ===================================================================== *)

Lemma split1_Some sep s before after :
  PyStr.split1 sep s = Some (before, after) ->
  s = (before ++ String sep after)%string /\ PyStr.split1 sep before = None.
Proof.
  revert before after. induction s as [|c rest IH]; intros before after; simpl.
  - discriminate.
  - destruct (Ascii.eqb_spec c sep) as [->|Hne].
    + intros [= <- <-]. split; reflexivity.
    + destruct (PyStr.split1 sep rest) as [[b a]|]; [|discriminate].
      intros [= <- <-]. destruct (IH b a eq_refl) as [-> Hb]. split.
      * reflexivity.
      * simpl. destruct (Ascii.eqb_spec c sep); [contradiction|].
        rewrite Hb. reflexivity.
Qed.

Lemma split1_app sep before after :
  PyStr.split1 sep before = None ->
  PyStr.split1 sep (before ++ String sep after)%string = Some (before, after).
Proof.
  induction before as [|c rest IH]; simpl.
  - intros _. rewrite Ascii.eqb_refl. reflexivity.
  - destruct (Ascii.eqb c sep); [discriminate|].
    destruct (PyStr.split1 sep rest) as [[b a]|] eqn:E; [discriminate|].
    intros _. rewrite (IH eq_refl). reflexivity.
Qed.

Lemma contains_char_split1 c s :
  Py.contains (String c EmptyString) s = true <-> is_Some (PyStr.split1 c s).
Proof.
  induction s as [|c' rest IH].
  - simpl. split; [discriminate|intros [x Hx]; discriminate].
  - simpl. destruct (Ascii.eqb_spec c' c) as [->|Hne].
    + destruct (ascii_dec c c) as [_|Hc]; [|contradiction].
      destruct rest; simpl; split; eauto.
    + destruct (ascii_dec c c') as [->|_]; [contradiction|]. simpl.
      rewrite IH. destruct (PyStr.split1 c rest) as [[b a]|]; split; eauto;
        intros [x Hx]; discriminate.
Qed.

Lemma prefix_empty s : String.prefix EmptyString s = true.
Proof. destruct s; reflexivity. Qed.

Lemma contains_char_app c s1 s2 :
  Py.contains (String c EmptyString) (s1 ++ s2)%string
  = Py.contains (String c EmptyString) s1
    || Py.contains (String c EmptyString) s2.
Proof.
  induction s1 as [|c' rest IH].
  - simpl. reflexivity.
  - simpl. destruct (ascii_dec c c') as [->|_].
    + rewrite !prefix_empty. reflexivity.
    + simpl. exact IH.
Qed.

Lemma dict_get_In {V} key (d : list (string * V)) v :
  PyStr.dict_get key d = Some v -> In (key, v) d.
Proof.
  induction d as [|[k w] rest IH]; simpl; [discriminate|].
  destruct (String.eqb_spec key k) as [->|_].
  - intros [= ->]. left. reflexivity.
  - intros H. right. exact (IH H).
Qed.

Lemma NoDup_snd_inj {A B} (l : list (A * B)) a1 a2 b :
  NoDup (map snd l) -> In (a1, b) l -> In (a2, b) l -> a1 = a2.
Proof.
  induction l as [|[a b'] rest IH]; simpl; [intros _ []|].
  intros Hnd. apply NoDup_cons in Hnd as [Hnotin Hnd].
  intros [[= -> ->]|H1] [[= ->]|H2].
  - reflexivity.
  - exfalso. apply Hnotin. apply list_elem_of_In.
    apply (in_map snd) in H2. exact H2.
  - subst. exfalso. apply Hnotin. apply list_elem_of_In.
    apply (in_map snd) in H1. exact H1.
  - exact (IH Hnd H1 H2).
Qed.

Lemma qn_cases NS tag r :
  qn NS tag = Some r ->
  (Py.contains ":" tag = false /\ r = tag)
  \/ (exists prefix local uri,
        tag = (prefix ++ String ":" local)%string
        /\ In (prefix, uri) NS
        /\ r = ("{" ++ uri ++ "}" ++ local)%string).
Proof.
  unfold qn. destruct (Py.contains ":" tag) eqn:Hc; simpl.
  - destruct (PyStr.split1 ":" tag) as [[prefix local]|] eqn:Hs; [|discriminate].
    destruct (PyStr.dict_get prefix NS) as [uri|] eqn:Hg; [|discriminate].
    intros [= <-]. right. exists prefix, local, uri.
    apply split1_Some in Hs as [-> _]. apply dict_get_In in Hg. auto.
  - intros [= <-]. left. auto.
Qed.

Lemma clark_safe_uri NS prefix uri :
  clark_safe NS -> In (prefix, uri) NS ->
  Py.contains ":" uri = true /\ PyStr.split1 "}" uri = None.
Proof.
  intros [Hall _] Hin. rewrite Forall_forall in Hall.
  destruct (Hall uri) as [H1 H2].
  { apply list_elem_of_In. apply (in_map snd) in Hin. exact Hin. }
  split; [exact H1|].
  destruct (PyStr.split1 "}" uri) eqn:E; [|reflexivity].
  assert (Py.contains "}" uri = true) as Hc
    by (apply contains_char_split1; rewrite E; eauto).
  congruence.
Qed.

Lemma clark_has_colon uri local :
  Py.contains ":" uri = true ->
  Py.contains ":" ("{" ++ uri ++ "}" ++ local)%string = true.
Proof.
  intros H. change ("{" ++ uri ++ "}" ++ local)%string
    with (String "{" (uri ++ "}" ++ local))%string.
  cbn [Py.contains String.prefix].
  rewrite contains_char_app, H. simpl.
  destruct (ascii_dec ":" "{"); [discriminate|reflexivity].
Qed.

Lemma namespaces_clark_safe :
  clark_safe visual_engine_NAMESPACES
  /\ clark_safe content_processor_NAMESPACES
  /\ clark_safe chart_processor_NAMESPACES.
Proof.
  unfold clark_safe. repeat split;
    try (apply Forall_forall; intros uri Hin; apply list_elem_of_In in Hin;
         simpl in Hin; intuition (subst; reflexivity));
    apply NoDup_ListNoDup; repeat constructor; simpl;
    intuition discriminate.
Qed.

(** X24. [qn] maps distinct tags to distinct qualified names: over each of
    the three namespace tables, two tags that resolve to the same name are the
    same tag, so a lookup by qualified name never reaches an element of
    another prefix.  It fails exactly on a tag whose text before the first
    colon is not a prefix of the table, and returns a tag without colon as it
    is. *)
Theorem qn_injective :
  forall NS,
    In NS [visual_engine_NAMESPACES; content_processor_NAMESPACES;
           chart_processor_NAMESPACES] ->
    (forall tag1 tag2 name,
       qn NS tag1 = Some name -> qn NS tag2 = Some name -> tag1 = tag2)
    /\ (forall tag,
          qn NS tag = None
          <-> exists prefix local,
                tag = (prefix ++ String ":" local)%string
                /\ Py.contains ":" prefix = false
                /\ PyStr.dict_get prefix NS = None)
    /\ (forall tag, Py.contains ":" tag = false -> qn NS tag = Some tag).
Proof.
  intros NS HNS.
  assert (clark_safe NS) as Hsafe.
  { destruct namespaces_clark_safe as (H1 & H2 & H3).
    simpl in HNS. destruct HNS as [<-|[<-|[<-|[]]]]; assumption. }
  split; [|split].
  - intros tag1 tag2 name H1 H2.
    apply qn_cases in H1, H2.
    destruct H1 as [[Hc1 ->]|(p1 & l1 & u1 & -> & Hin1 & ->)],
             H2 as [[Hc2 E2]|(p2 & l2 & u2 & -> & Hin2 & E2)].
    + exact E2.
    + subst tag1. destruct (clark_safe_uri NS p2 u2 Hsafe Hin2) as [Hu _].
      rewrite (clark_has_colon u2 l2 Hu) in Hc1. discriminate.
    + subst tag2. destruct (clark_safe_uri NS p1 u1 Hsafe Hin1) as [Hu _].
      rewrite (clark_has_colon u1 l1 Hu) in Hc2. discriminate.
    + destruct (clark_safe_uri NS p1 u1 Hsafe Hin1) as [_ Hb1].
      destruct (clark_safe_uri NS p2 u2 Hsafe Hin2) as [_ Hb2].
      change (String "{" (u1 ++ String "}" l1)
              = String "{" (u2 ++ String "}" l2))%string in E2.
      injection E2 as E2.
      pose proof (split1_app "}" u1 l1 Hb1) as S1.
      pose proof (split1_app "}" u2 l2 Hb2) as S2.
      rewrite E2 in S1. rewrite S1 in S2. injection S2 as -> ->.
      destruct Hsafe as [_ Hnd].
      rewrite (NoDup_snd_inj NS p1 p2 u2 Hnd Hin1 Hin2).
      reflexivity.
  - intros tag. unfold qn. split.
    + destruct (Py.contains ":" tag) eqn:Hc; simpl; [|discriminate].
      destruct (PyStr.split1 ":" tag) as [[prefix local]|] eqn:Hs.
      * destruct (PyStr.dict_get prefix NS) eqn:Hg; [discriminate|].
        intros _. exists prefix, local.
        apply split1_Some in Hs as [-> Hp]. split; [reflexivity|]. split.
        -- destruct (Py.contains ":" prefix) eqn:Hcp; [|reflexivity].
           apply contains_char_split1 in Hcp as [x Hx]. congruence.
        -- exact Hg.
      * apply contains_char_split1 in Hc as [x Hx]. congruence.
    + intros (prefix & local & -> & Hcp & Hg).
      assert (PyStr.split1 ":" prefix = None) as Hp.
      { destruct (PyStr.split1 ":" prefix) eqn:E; [|reflexivity].
        assert (Py.contains ":" prefix = true)
          by (apply contains_char_split1; rewrite E; eauto).
        congruence. }
      rewrite contains_char_app. cbn [Py.contains String.prefix].
      destruct (ascii_dec ":" ":") as [_|Hne]; [|contradiction].
      rewrite prefix_empty.
      rewrite orb_true_r. simpl.
      rewrite (split1_app ":" prefix local Hp), Hg. reflexivity.
  - intros tag Hc. unfold qn. rewrite Hc. reflexivity.
Qed.

Lemma qn_injective_witness :
  qn visual_engine_NAMESPACES "a:off"
  = Some "{http://schemas.openxmlformats.org/drawingml/2006/main}off"
  /\ forall tag,
       qn visual_engine_NAMESPACES tag
       = Some "{http://schemas.openxmlformats.org/drawingml/2006/main}off" ->
       tag = "a:off".
Proof.
  split; [reflexivity|]. intros tag H.
  apply (proj1 (qn_injective visual_engine_NAMESPACES
                  ltac:(left; reflexivity)) tag "a:off" _ H).
  reflexivity.
Defined.

(* ===================================================================== *)
(** * Translation service *)
(* ===================================================================== *)

Import TextTranslator.

Lemma by_id_last l1 (e : OriginalElement) l2 :
  Forall (fun o => oe_id o <> oe_id e) l2 ->
  foldl (fun m elem => <[oe_id elem := elem]> m)
        (∅ : gmap (option string) OriginalElement) (l1 ++ e :: l2)
  !! oe_id e = Some e.
Proof.
  induction l2 as [|x l2 IH] using rev_ind; intros Hall.
  - rewrite foldl_app. simpl. apply lookup_insert_eq.
  - apply Forall_app in Hall as [Hall Hx]. apply Forall_cons in Hx as [Hx _].
    change (l1 ++ e :: l2 ++ [x]) with (l1 ++ (e :: l2) ++ [x]).
    rewrite app_assoc, foldl_app. simpl.
    rewrite lookup_insert_ne by exact Hx. exact (IH Hall).
Qed.

Lemma by_id_elem (l : list OriginalElement) k o :
  foldl (fun m elem => <[oe_id elem := elem]> m)
        (∅ : gmap (option string) OriginalElement) l !! k = Some o ->
  o ∈ l /\ oe_id o = k.
Proof.
  induction l as [|x l IH] using rev_ind.
  - simpl. rewrite lookup_empty. discriminate.
  - rewrite foldl_app. simpl.
    destruct (decide (oe_id x = k)) as [<-|Hne].
    + rewrite lookup_insert_eq. intros [= <-]. split; [|reflexivity].
      apply elem_of_app. right. apply list_elem_of_here.
    + rewrite lookup_insert_ne by exact Hne. intros H.
      destruct (IH H) as [Hin Hk]. split; [|exact Hk].
      apply elem_of_app. left. exact Hin.
Qed.

Lemma by_id_None (l : list OriginalElement) k :
  Forall (fun o => oe_id o <> k) l ->
  foldl (fun m elem => <[oe_id elem := elem]> m)
        (∅ : gmap (option string) OriginalElement) l !! k = None.
Proof.
  intros Hall.
  destruct (foldl _ _ l !! k) as [o|] eqn:E; [|reflexivity].
  apply by_id_elem in E as [Hin Hk].
  rewrite Forall_forall in Hall. destruct (Hall o Hin Hk).
Qed.

Lemma merged_lookup original llm_response i e :
  m_elements (_merge_with_original original llm_response) !! i = Some e ->
  exists llm_elem,
    default [] (lr_elements llm_response) !! i = Some llm_elem
    /\ e = merge_element (original_by_id original) llm_elem.
Proof.
  unfold _merge_with_original. simpl.
  change (map ?f ?l) with (f <$> l). rewrite list_lookup_fmap.
  destruct (default [] (lr_elements llm_response) !! i) as [le|];
    simpl; [|discriminate].
  intros [= <-]. exists le. split; reflexivity.
Qed.

(** X25. [_merge_with_original] follows the answer, not the original: the
    merged document has one element per element of the answer, in the
    answer's order, with the answer's ids and paragraph texts (a missing text
    is the empty string), whatever elements and paragraphs the original has.
    Name and bounding box never come from the answer: they are those of the
    last original element with the same id, and the empty name and the zero
    box when no original element has that id. *)
Theorem merge_follows_answer :
  forall original llm_response,
    let merged := _merge_with_original original llm_response in
    let llm_elems := default [] (lr_elements llm_response) in
    map me_id (m_elements merged) = map le_id llm_elems
    /\ map (fun e => map tp_text (me_paragraphs e)) (m_elements merged)
       = map (fun e => map (fun p => default "" (lp_text p))
                           (default [] (le_paragraphs e)))
             llm_elems
    /\ (forall i e l1 orig_elem l2,
          m_elements merged !! i = Some e ->
          o_elements original = Some (l1 ++ orig_elem :: l2) ->
          oe_id orig_elem = me_id e ->
          Forall (fun o => oe_id o <> me_id e) l2 ->
          me_name e = default "" (oe_name orig_elem)
          /\ me_bbox e = default zero_bbox (oe_bbox orig_elem))
    /\ (forall i e,
          m_elements merged !! i = Some e ->
          Forall (fun o => oe_id o <> me_id e)
                 (default [] (o_elements original)) ->
          me_name e = "" /\ me_bbox e = zero_bbox).
Proof.
  intros original llm_response merged llm_elems. subst merged llm_elems.
  split; [|split; [|split]].
  - unfold _merge_with_original. simpl. rewrite map_map. reflexivity.
  - unfold _merge_with_original. simpl. rewrite map_map.
    apply map_ext. intros le. unfold merge_element. simpl.
    generalize (default [] (oe_paragraphs
      (default empty_element (original_by_id original !! le_id le)))).
    intros orig_paragraphs.
    change (map ?f ?l) with (f <$> l). rewrite fmap_imap.
    rewrite <- imap_const. apply imap_ext. intros j p _. reflexivity.
  - intros i e l1 orig_elem l2 He Ho Hid Hall.
    apply merged_lookup in He as (le & _ & ->). simpl in *.
    unfold original_by_id. rewrite Ho. simpl. rewrite <- Hid in *.
    rewrite (by_id_last l1 orig_elem l2 Hall). split; reflexivity.
  - intros i e He Hall.
    apply merged_lookup in He as (le & _ & ->). simpl in *.
    unfold original_by_id. rewrite (by_id_None _ _ Hall). split; reflexivity.
Qed.

Lemma merge_follows_answer_witness :
  exists e,
    m_elements (_merge_with_original translator_original translator_answer)
      !! 0%nat = Some e
    /\ me_name e = "Title 1"
    /\ me_bbox e = {| bbox_x := 0; bbox_y := 0; bbox_width := 9144000;
                      bbox_height := 1000000 |}.
Proof.
  eexists. split; [reflexivity|].
  refine (proj1 (proj2 (proj2 (merge_follows_answer translator_original
                                 translator_answer)))
            0%nat _ [] _ [] eq_refl eq_refl eq_refl _).
  constructor.
Defined.

Lemma merge_ids original llm_response :
  map me_id (m_elements (_merge_with_original original llm_response))
  = map le_id (default [] (lr_elements llm_response)).
Proof. unfold _merge_with_original. simpl. rewrite map_map. reflexivity. Qed.

Lemma validate_element_Some e te :
  validate_element e = Some te
  <-> me_id e = Some (tr_id te)
      /\ Py.truthy (Py.strip (tr_id te)) = true
      /\ Forall (fun p => 0 <= tp_lvl p <= 5) (me_paragraphs e)
      /\ te = {| tr_id := tr_id te; tr_role := me_role e;
                 tr_name := me_name e; tr_bbox := me_bbox e;
                 tr_paragraphs := me_paragraphs e |}.
Proof.
  assert (forall ps, forallb lvl_in_range ps = true
                     <-> Forall (fun p => 0 <= tp_lvl p <= 5) ps) as Hlvl.
  { intros ps. rewrite forallb_forall, Forall_forall.
    split; intros H p Hp.
    - apply list_elem_of_In in Hp. specialize (H p Hp).
      unfold lvl_in_range in H. lia.
    - apply list_elem_of_In in Hp. specialize (H p Hp).
      unfold lvl_in_range. lia. }
  unfold validate_element. split.
  - destruct (me_id e) as [v|]; [|discriminate].
    destruct (Py.truthy (Py.strip v)) eqn:Hv; simpl; [|discriminate].
    destruct (forallb lvl_in_range (me_paragraphs e)) eqn:Hl; [|discriminate].
    intros [= <-]. simpl. rewrite <- Hlvl. auto.
  - intros (Hid & Hv & Hl & ->). simpl in *. rewrite Hid, Hv.
    apply Hlvl in Hl. rewrite Hl. reflexivity.
Qed.

Lemma validate_element_is_Some e :
  is_Some (validate_element e)
  <-> (exists v, me_id e = Some v /\ Py.truthy (Py.strip v) = true)
      /\ Forall (fun p => 0 <= tp_lvl p <= 5) (me_paragraphs e).
Proof.
  split.
  - intros [te Hte]. apply validate_element_Some in Hte as (Hid & Hv & Hl & _).
    split; [exists (tr_id te); auto|exact Hl].
  - intros [(v & Hid & Hv) Hl].
    exists {| tr_id := v; tr_role := me_role e; tr_name := me_name e;
              tr_bbox := me_bbox e; tr_paragraphs := me_paragraphs e |}.
    apply validate_element_Some. simpl. auto.
Qed.

Lemma validated_elements es tes :
  mapM validate_element es = Some tes ->
  map (fun te => Some (tr_id te)) tes = map me_id es
  /\ map tr_role tes = map me_role es
  /\ map tr_name tes = map me_name es
  /\ map tr_bbox tes = map me_bbox es
  /\ map tr_paragraphs tes = map me_paragraphs es.
Proof.
  intros H. apply mapM_Some in H.
  induction H as [|e te es tes Hv _ IH]; [repeat split|].
  apply validate_element_Some in Hv as (Hid & _ & _ & ->). simpl in *.
  destruct IH as (-> & -> & -> & -> & ->). rewrite Hid. repeat split.
Qed.

Lemma verify_ids_is_Some original translated :
  is_Some (_verify_ids original translated)
  <-> Forall (fun o => oe_id o ∈ map (fun te => Some (tr_id te))
                                     (ts_elements translated))
             (default [] (o_elements original)).
Proof.
  unfold _verify_ids.
  generalize (default [] (o_elements original)). intros os.
  generalize (map (fun te => Some (tr_id te)) (ts_elements translated)).
  intros ids. rewrite Forall_forall.
  destruct (decide (list_to_set (map oe_id os) ∖ list_to_set ids
                    = (∅ : gset (option string)))) as [He|Hne].
  - split; [|eauto]. intros _ o Ho.
    destruct (decide (oe_id o ∈ ids)) as [Hin|Hnin]; [exact Hin|].
    exfalso. assert (oe_id o ∈ (∅ : gset (option string))) as Habs.
    { rewrite <- He. apply elem_of_difference. split.
      - apply elem_of_list_to_set. apply list_elem_of_In.
        apply in_map. apply list_elem_of_In. exact Ho.
      - rewrite elem_of_list_to_set. exact Hnin. }
    exact (not_elem_of_empty _ Habs).
  - split; [intros [u Hu]; discriminate|]. intros Hall.
    exfalso. apply Hne. apply elem_of_equiv_empty_L. intros k Hk.
    apply elem_of_difference in Hk as [Hk1 Hk2].
    apply elem_of_list_to_set in Hk1. apply list_elem_of_In in Hk1.
    apply in_map_iff in Hk1 as (o & <- & Ho).
    apply Hk2. apply elem_of_list_to_set. apply Hall.
    apply list_elem_of_In. exact Ho.
Qed.

(** Acceptance over the records of the model, that is, for an answer whose
    keys hold values of the types of the schema. *)
Lemma translate_typed_answer :
  forall content response_data,
    let merged := _merge_with_original content response_data in
    let llm_elems := default [] (lr_elements response_data) in
    (is_Some (translate content response_data)
     <-> Forall (fun e => exists v, le_id e = Some v
                                    /\ Py.truthy (Py.strip v) = true)
                llm_elems
         /\ Forall (fun e => Forall (fun p => 0 <= tp_lvl p <= 5)
                                    (me_paragraphs e))
                   (m_elements merged)
         /\ Forall (fun o => oe_id o ∈ map le_id llm_elems)
                   (default [] (o_elements content)))
    /\ (forall translated,
          translate content response_data = Some translated ->
          ts_slide_context translated = m_slide_context merged
          /\ map (fun te => Some (tr_id te)) (ts_elements translated)
             = map le_id llm_elems
          /\ map tr_role (ts_elements translated)
             = map me_role (m_elements merged)
          /\ map tr_name (ts_elements translated)
             = map me_name (m_elements merged)
          /\ map tr_bbox (ts_elements translated)
             = map me_bbox (m_elements merged)
          /\ map tr_paragraphs (ts_elements translated)
             = map me_paragraphs (m_elements merged)).
Proof.
  intros content response_data merged llm_elems.
  assert (map me_id (m_elements merged) = map le_id llm_elems) as Hids
    by apply merge_ids.
  assert (Forall (fun e => exists v, le_id e = Some v
                                     /\ Py.truthy (Py.strip v) = true)
                 llm_elems
          <-> Forall (fun e => exists v, me_id e = Some v
                                         /\ Py.truthy (Py.strip v) = true)
                     (m_elements merged)) as Hsame.
  { rewrite <- (Forall_fmap me_id
                  (fun k => exists v, k = Some v
                                      /\ Py.truthy (Py.strip v) = true)).
    rewrite <- (Forall_fmap le_id
                  (fun k => exists v, k = Some v
                                      /\ Py.truthy (Py.strip v) = true)).
    change (?f <$> ?l) with (map f l). rewrite Hids. reflexivity. }
  unfold translate. fold merged. unfold model_validate.
  split.
  - rewrite Hsame. split.
    + destruct (mapM validate_element (m_elements merged)) as [tes|] eqn:Hm;
        [|intros [u Hu]; discriminate].
      destruct (_verify_ids content _) as [u|] eqn:Hv;
        [|intros [x Hx]; discriminate].
      intros _.
      assert (is_Some (mapM validate_element (m_elements merged))) as Hs
        by (rewrite Hm; eauto).
      apply mapM_is_Some in Hs.
      assert (is_Some (_verify_ids content
                {| ts_slide_context := m_slide_context merged;
                   ts_elements := tes |})) as Hv' by (rewrite Hv; eauto).
      apply verify_ids_is_Some in Hv'. simpl in Hv'.
      destruct (validated_elements _ _ Hm) as (Htids & _).
      rewrite Htids, Hids in Hv'.
      split; [|split; [|exact Hv']].
      * eapply Forall_impl; [exact Hs|]. intros e He.
        apply validate_element_is_Some in He. tauto.
      * eapply Forall_impl; [exact Hs|]. intros e He.
        apply validate_element_is_Some in He. tauto.
    + intros (H1 & H2 & H3).
      assert (is_Some (mapM validate_element (m_elements merged)))
        as [tes Hm].
      { apply mapM_is_Some. rewrite Forall_forall in *. intros e He.
        apply validate_element_is_Some. split; [apply H1|apply H2]; exact He. }
      rewrite Hm.
      destruct (validated_elements _ _ Hm) as (Htids & _).
      assert (is_Some (_verify_ids content
                {| ts_slide_context := m_slide_context merged;
                   ts_elements := tes |})) as [u Hv].
      { apply verify_ids_is_Some. simpl. rewrite Htids, Hids. exact H3. }
      rewrite Hv. eauto.
  - intros translated.
    destruct (mapM validate_element (m_elements merged)) as [tes|] eqn:Hm;
      [|discriminate].
    destruct (_verify_ids content _) as [u|]; [|discriminate].
    intros [= <-]. simpl.
    destruct (validated_elements _ _ Hm) as (Htids & Hr & Hn & Hb & Hp).
    rewrite Htids, Hids. repeat split; assumption.
Qed.

(** X26. What acceptance implies, and what it does not check, for an answer
    whose keys hold values of the types of the schema.  An accepted answer
    has, in every element, an id that [strip] does not empty, has every
    merged level between 0 and 5, and carries the id of every element of the
    original; the accepted slide has the merged elements in the order of the
    answer.  The check of the ids is one-way: an accepted answer stays
    accepted when one more such element is appended whose id is not blank and
    whose merged levels are in range, be its id new, the id of no shape, or
    the id of another element; the number of paragraphs is never compared. *)
Theorem accepted_answer_checked_one_way :
  forall content response_data translated,
    translate content response_data = Some translated ->
    let merged := _merge_with_original content response_data in
    let llm_elems := default [] (lr_elements response_data) in
    Forall (fun e => exists v, le_id e = Some v
                               /\ Py.truthy (Py.strip v) = true)
           llm_elems
    /\ Forall (fun e => Forall (fun p => 0 <= tp_lvl p <= 5) (me_paragraphs e))
              (m_elements merged)
    /\ Forall (fun o => oe_id o ∈ map le_id llm_elems)
              (default [] (o_elements content))
    /\ ts_slide_context translated = m_slide_context merged
    /\ map (fun te => Some (tr_id te)) (ts_elements translated)
       = map le_id llm_elems
    /\ map tr_role (ts_elements translated) = map me_role (m_elements merged)
    /\ map tr_name (ts_elements translated) = map me_name (m_elements merged)
    /\ map tr_bbox (ts_elements translated) = map me_bbox (m_elements merged)
    /\ map tr_paragraphs (ts_elements translated)
       = map me_paragraphs (m_elements merged)
    /\ (forall extra v,
          le_id extra = Some v ->
          Py.truthy (Py.strip v) = true ->
          Forall (fun p => 0 <= tp_lvl p <= 5)
                 (me_paragraphs (merge_element (original_by_id content) extra)) ->
          is_Some (translate content
                     {| lr_slide_context := lr_slide_context response_data;
                        lr_elements := Some (llm_elems ++ [extra]) |})).
Proof.
  intros content response_data translated Hacc merged llm_elems.
  destruct (translate_typed_answer content response_data) as [Hiff Hslide].
  destruct (proj1 Hiff (ex_intro _ translated Hacc)) as (Hid & Hlvl & Hall).
  destruct (Hslide translated Hacc) as (Hc & Hi & Hr & Hn & Hb & Hp).
  fold merged llm_elems in Hid, Hlvl, Hall, Hc, Hi, Hr, Hn, Hb, Hp.
  repeat (split; [assumption|]).
  intros extra v Hv Hnb Hextra.
  apply (proj1 (translate_typed_answer content _)). simpl.
  split; [|split].
  - apply Forall_app. split; [exact Hid|].
    constructor; [exists v; auto|constructor].
  - unfold _merge_with_original. simpl. rewrite map_app.
    apply Forall_app. split; [exact Hlvl|].
    constructor; [exact Hextra|constructor].
  - eapply Forall_impl; [exact Hall|]. intros o Ho. simpl in Ho.
    rewrite map_app. apply elem_of_app. left. exact Ho.
Qed.

Lemma accepted_answer_checked_one_way_witness :
  exists translated,
    translate translator_original translator_answer = Some translated
    /\ map (fun te => Some (tr_id te)) (ts_elements translated)
       = [Some "5"; Some "9"]
    /\ is_Some (translate translator_original
                  {| lr_slide_context := None;
                     lr_elements :=
                       Some (default [] (lr_elements translator_answer)
                             ++ [ {| le_id := Some "5"; le_role := None;
                                     le_paragraphs := None |} ]) |}).
Proof.
  assert (exists translated,
            translate translator_original translator_answer = Some translated)
    as [translated HT] by (vm_compute; eexists; reflexivity).
  destruct (accepted_answer_checked_one_way translator_original
              translator_answer translated HT)
    as (_ & _ & _ & _ & Hids & _ & _ & _ & _ & Hmore).
  exists translated. split; [exact HT|]. split; [exact Hids|].
  apply (Hmore {| le_id := Some "5"; le_role := None; le_paragraphs := None |}
               "5" eq_refl eq_refl).
  vm_compute. constructor.
Defined.

Lemma by_id_of_content content k o :
  original_by_id (of_content content) !! k = Some o ->
  oe_name o = None /\ oe_bbox o = None
  /\ Forall (fun p => p = empty_paragraph) (default [] (oe_paragraphs o)).
Proof.
  unfold original_by_id. intros H. apply by_id_elem in H as [Hin _].
  unfold of_content in Hin. simpl in Hin.
  destruct (elements content) as [es|]; simpl in Hin;
    [|apply elem_of_nil in Hin; destruct Hin].
  apply list_elem_of_In in Hin. apply in_map_iff in Hin as (e & <- & _).
  simpl. split; [reflexivity|]. split; [reflexivity|].
  destruct (elem_paragraphs e) as [ps|]; simpl; [|constructor].
  apply Forall_forall. intros p Hp. apply list_elem_of_In in Hp.
  apply in_map_iff in Hp as (x & <- & _). reflexivity.
Qed.

(** X27. When the original is the content [extract_content_for_llm]
    returns, nothing of its formatting reaches the translated record: the
    merge reads [name], [bbox], [lvl], [bold], [alignment] and [bullet],
    the extraction writes none of these keys (it has [level] and [is_bold]),
    so every merged element has the empty name and the zero box, and every
    merged paragraph has the answer's level, bold flag, alignment and bullet,
    or the defaults 0, false, "r" and false. *)
Theorem extracted_formatting_not_merged :
  forall shapes response_data,
    let merged :=
      _merge_with_original (of_content (extract_content_for_llm shapes))
                           response_data in
    Forall (fun e => me_name e = "" /\ me_bbox e = zero_bbox)
           (m_elements merged)
    /\ map me_paragraphs (m_elements merged)
       = map (fun e =>
                map (fun p => {| tp_text := default "" (lp_text p);
                                 tp_lvl := default 0 (lp_lvl p);
                                 tp_bold := default false (lp_bold p);
                                 tp_alignment := default "r" (lp_alignment p);
                                 tp_bullet := default false (lp_bullet p) |})
                    (default [] (le_paragraphs e)))
             (default [] (lr_elements response_data)).
Proof.
  intros shapes response_data merged. subst merged.
  set (content := extract_content_for_llm shapes).
  assert (forall le,
            let o := default empty_element
                       (original_by_id (of_content content) !! le_id le) in
            oe_name o = None /\ oe_bbox o = None
            /\ Forall (fun p => p = empty_paragraph)
                      (default [] (oe_paragraphs o))) as Hplain.
  { intros le. simpl.
    destruct (original_by_id (of_content content) !! le_id le) as [o|] eqn:E.
    - simpl. exact (by_id_of_content content _ o E).
    - simpl. repeat split. constructor. }
  unfold _merge_with_original. simpl. split.
  - apply Forall_forall. intros e He. apply list_elem_of_In in He.
    apply in_map_iff in He as (le & <- & _).
    destruct (Hplain le) as (Hn & Hb & _). unfold merge_element. simpl.
    rewrite Hn, Hb. split; reflexivity.
  - rewrite map_map. apply map_ext. intros le.
    destruct (Hplain le) as (_ & _ & Hps). unfold merge_element. simpl.
    change (map ?f ?l) with (f <$> l). rewrite <- imap_const.
    apply imap_ext. intros i p _. unfold merge_paragraph.
    destruct (default [] (oe_paragraphs _) !! i) as [op|] eqn:E.
    + rewrite Forall_forall in Hps.
      rewrite (Hps op (list_elem_of_lookup_2 _ _ _ E)). reflexivity.
    + reflexivity.
Qed.

Lemma extracted_text_truthy shape element :
  _extract_shape_content shape = Some element ->
  Py.truthy (Py.strip (te_original_text element)) = true.
Proof.
  intros He.
  destruct (extract_shape_content_Some shape element He)
    as (c & tb & _ & _ & Hps & Hne & Htxt & _).
  rewrite truthy_strip, Htxt.
  pose proof (extract_paragraphs_nonblank tb) as Hnb. rewrite <- Hps in Hnb.
  destruct (te_paragraphs element) as [|i0 infos]; [congruence|].
  apply Forall_inv in Hnb. simpl.
  rewrite (is_blank_join_lines _ _ Hnb). reflexivity.
Qed.

Lemma last_occurrence {A} (f : A -> string) k (l : list A) :
  In k (map f l) ->
  exists l1 x l2,
    l = l1 ++ x :: l2 /\ f x = k /\ Forall (fun y => f y <> k) l2.
Proof.
  induction l as [|a l IH]; simpl; [intros []|].
  intros Hin.
  destruct (in_dec string_dec k (map f l)) as [Hl|Hl].
  - destruct (IH Hl) as (l1 & x & l2 & -> & Hx & Hall).
    exists (a :: l1), x, l2. auto.
  - destruct Hin as [Ha|Hin]; [|contradiction].
    exists [], a, l. split; [reflexivity|]. split; [exact Ha|].
    apply Forall_forall. intros y Hy Heq. apply Hl. rewrite <- Heq.
    apply in_map. apply list_elem_of_In. exact Hy.
Qed.

(** X28. An accepted translation reaches every shape the extraction found:
    the answer holds an element with the shape's id, and injecting the
    dumped slide rewrites the shape from the last such element, so the shape
    ends with one run per translated paragraph holding the translation.  An
    element accepted without paragraphs empties the shape: it is left with a
    single paragraph whose run holds the empty string. *)
Theorem accepted_translation_reaches_extracted_shapes :
  forall shapes response_data translated shape element,
    translate (of_content (extract_content_for_llm shapes)) response_data
    = Some translated ->
    shape ∈ shapes ->
    _extract_shape_content shape = Some element ->
    exists l1 te l2 tx_body',
      ts_elements translated = l1 ++ te :: l2
      /\ tr_id te = te_id element
      /\ Forall (fun te' => tr_id te' <> tr_id te) l2
      /\ txBody (inject_shape (translation_map (model_dump translated))
                              (content shape))
         = Some tx_body'
      /\ map (fun p => map t (runs p)) (paragraphs tx_body')
         = match tr_paragraphs te with
           | [] => [[Some ""]]
           | ps => map (fun p => [Some (tp_text p)]) ps
           end.
Proof.
  intros shapes response_data translated shape element Hacc Hshape He.
  unfold translate in Hacc.
  destruct (model_validate _) as [translated'|] eqn:Hval; [|discriminate].
  destruct (_verify_ids _ translated') as [u|] eqn:Hver; [|discriminate].
  injection Hacc as ->.
  assert (is_Some (_verify_ids
                     (of_content (extract_content_for_llm shapes)) translated))
    as Hv by (rewrite Hver; eauto).
  apply verify_ids_is_Some in Hv. simpl in Hv.
  rewrite Forall_forall in Hv.
  assert (element ∈ sort_by_y (extracted_elements shapes)) as Hin.
  { rewrite sort_by_y_perm. unfold extracted_elements.
    apply list_elem_of_omap. exists shape. split; [exact Hshape|].
    rewrite He, (extracted_text_truthy shape element He). reflexivity. }
  specialize (Hv {| oe_id := Some (te_id element);
                    oe_role := Some (te_role element);
                    oe_name := None; oe_bbox := None;
                    oe_paragraphs :=
                      Some (map (fun _ => empty_paragraph)
                                (map (fun p =>
                                        {| para_text := Some (info_text p);
                                           para_level := Some (info_level p);
                                           para_is_bold :=
                                             Some (info_is_bold p) |})
                                     (te_paragraphs element))) |}).
  simpl in Hv.
  assert (In (te_id element) (map tr_id (ts_elements translated))) as Hid.
  { assert (Some (te_id element)
            ∈ map (fun te => Some (tr_id te)) (ts_elements translated)) as H.
    { apply Hv. apply list_elem_of_In.
      apply in_map_iff. exists (element_record element).
      split; [reflexivity|]. apply in_map. apply list_elem_of_In. exact Hin. }
    apply list_elem_of_In in H. apply in_map_iff in H as (te & [= Hte] & Hte').
    apply in_map_iff. exists te. auto. }
  destruct (last_occurrence tr_id _ _ Hid) as (l1 & te & l2 & Hl & Hte & Hall).
  destruct (extract_shape_content_Some shape element He)
    as (c & tb & Hc & Htb & _ & _ & _ & Hsid & _).
  set (dump := fun e =>
         {| elem_id := tr_id e; elem_role := Some (tr_role e);
            elem_text := None;
            elem_paragraphs :=
              Some (map (fun p => {| para_text := Some (tp_text p);
                                     para_level := None;
                                     para_is_bold := None |})
                        (tr_paragraphs e)) |}).
  assert (translation_map (model_dump translated) !! te_id element
          = Some (dump te)) as Htm.
  { unfold model_dump. fold dump. rewrite Hl, map_app. simpl.
    rewrite <- Hte. change (tr_id te) with (elem_id (dump te)).
    apply translation_map_last. apply Forall_forall. intros r Hr.
    apply list_elem_of_In in Hr. apply in_map_iff in Hr as (te' & <- & Hin').
    simpl. rewrite Forall_forall in Hall. rewrite Hte.
    apply Hall. apply list_elem_of_In. exact Hin'. }
  assert (inject_shape (translation_map (model_dump translated))
                       (content shape)
          = _update_shape_text (content shape) (dump te)) as Hinj.
  { unfold inject_shape. rewrite Hc, <- Hsid, Htm. reflexivity. }
  rewrite Hinj, (update_shape_text_paragraphs _ (dump te) tb Htb).
  exists l1, te, l2. eexists.
  split; [exact Hl|]. split; [exact Hte|].
  split; [rewrite Hte; exact Hall|]. split; [reflexivity|].
  simpl. rewrite injected_texts. unfold new_paragraphs, dump. simpl.
  destruct (tr_paragraphs te) as [|p ps]; simpl; [reflexivity|].
  f_equal. rewrite map_map. reflexivity.
Qed.

Lemma accepted_translation_reaches_extracted_shapes_witness :
  exists translated l1 te l2 tx_body',
    translate (of_content (extract_content_for_llm scenario_D_shapes))
              scenario_D_answer
    = Some translated
    /\ ts_elements translated = l1 ++ te :: l2
    /\ tr_id te = "8"
    /\ Forall (fun te' => tr_id te' <> tr_id te) l2
    /\ txBody (inject_shape (translation_map (model_dump translated))
                            untouched_shape)
       = Some tx_body'
    /\ map (fun p => map t (runs p)) (paragraphs tx_body')
       = match tr_paragraphs te with
         | [] => [[Some ""]]
         | ps => map (fun p => [Some (tp_text p)]) ps
         end.
Proof.
  assert (exists translated,
            translate (of_content (extract_content_for_llm scenario_D_shapes))
                      scenario_D_answer = Some translated) as [translated HT]
    by (vm_compute; eexists; reflexivity).
  assert (exists element,
            _extract_shape_content
              {| nvPr := Some {| ph := Some {| ph_type := Some "ftr" |} |};
                 content := untouched_shape |} = Some element
            /\ te_id element = "8") as (element & He & Hid)
    by (vm_compute; eexists; split; reflexivity).
  destruct (accepted_translation_reaches_extracted_shapes
              scenario_D_shapes scenario_D_answer translated
              {| nvPr := Some {| ph := Some {| ph_type := Some "ftr" |} |};
                 content := untouched_shape |} element HT
              ltac:(apply list_elem_of_further, list_elem_of_here) He)
    as (l1 & te & l2 & tb & H1 & H2 & H3 & H4 & H5).
  exists translated, l1, te, l2, tb. rewrite Hid in H2.
  repeat split; assumption.
Defined.

(* ===================================================================== *)
(** * Slide selection *)
(* ===================================================================== *)

Lemma elem_of_range start stop n : n ∈ range start stop <-> start <= n < stop.
Proof. unfold range. rewrite elem_of_seqZ. lia. Qed.

Lemma sorted_le_nodup_lt l :
  StronglySorted Z.le l -> NoDup l -> StronglySorted Z.lt l.
Proof.
  induction 1 as [|x l Hs IH Hall]; intros Hnd; [constructor|].
  apply NoDup_cons in Hnd as [Hx Hnd].
  constructor; [exact (IH Hnd)|].
  rewrite Forall_forall in *. intros y Hy.
  specialize (Hall y Hy).
  assert (x <> y) by (intros ->; contradiction). lia.
Qed.

Lemma sorted_set_spec result :
  StronglySorted Z.lt (sorted_set result)
  /\ forall n, n ∈ sorted_set result <-> n ∈ result.
Proof.
  unfold sorted_set.
  pose proof (merge_sort_Permutation Z.le (remove_dups result)) as Hperm.
  split.
  - apply sorted_le_nodup_lt.
    + apply StronglySorted_merge_sort; apply _.
    + rewrite Hperm. apply NoDup_remove_dups.
  - intros n. rewrite Hperm. apply elem_of_remove_dups.
Qed.

(** X29. A selection other than "all" is read part by part, and the slide
    count plays no role in it: the call fails exactly when one of the
    comma-separated parts fails, and otherwise returns the numbers of all
    parts in strictly ascending order, each once, whatever [max_slides] is,
    so numbers beyond the last slide are returned as well. *)
Theorem parse_slides_arg_sorted_union :
  forall int slides_str max_slides,
    Py.lower slides_str <> "all" ->
    (parse_slides_arg int slides_str max_slides = None
     <-> exists part, part ∈ split_on "," slides_str
                      /\ parse_part int part = None)
    /\ (forall result,
          parse_slides_arg int slides_str max_slides = Some result ->
          StronglySorted Z.lt result
          /\ (forall n,
                n ∈ result
                <-> exists part numbers,
                      part ∈ split_on "," slides_str
                      /\ parse_part int part = Some numbers
                      /\ n ∈ numbers))
    /\ (forall other,
          parse_slides_arg int slides_str other
          = parse_slides_arg int slides_str max_slides).
Proof.
  intros int slides_str max_slides Hall.
  unfold parse_slides_arg.
  destruct (String.eqb_spec (Py.lower slides_str) "all") as [Heq|_];
    [contradiction|].
  split; [|split].
  - split.
    + destruct (mapM (parse_part int) (split_on "," slides_str)) eqn:E;
        [discriminate|]. intros _.
      destruct (decide (Forall (fun p => is_Some (parse_part int p))
                               (split_on "," slides_str))) as [Hf|Hf].
      * apply mapM_is_Some in Hf. rewrite E in Hf.
        destruct Hf as [x Hx]. discriminate.
      * apply not_Forall_Exists in Hf; [|apply _].
        apply Exists_exists in Hf as (part & Hin & Hpart).
        exists part. split; [exact Hin|].
        destruct (parse_part int part) eqn:Ep; [|reflexivity].
        exfalso. apply Hpart. rewrite Ep. eauto.
    + intros (part & Hin & Hpart).
      destruct (mapM (parse_part int) (split_on "," slides_str)) eqn:E;
        [|reflexivity].
      exfalso. assert (is_Some (mapM (parse_part int)
                                     (split_on "," slides_str))) as Hs
        by (rewrite E; eauto).
      apply mapM_is_Some in Hs. rewrite Forall_forall in Hs.
      destruct (Hs part Hin) as [x Hx]. simpl in Hx. congruence.
  - intros result.
    destruct (mapM (parse_part int) (split_on "," slides_str)) as [results|]
      eqn:E; [|discriminate].
    intros [= <-].
    destruct (sorted_set_spec (concat results)) as [Hs Hmem].
    split; [exact Hs|]. intros n. rewrite Hmem.
    apply mapM_Some in E. rewrite list_elem_of_In, in_concat. split.
    + intros (numbers & Hnumbers & Hn).
      apply list_elem_of_In in Hnumbers.
      apply list_elem_of_lookup in Hnumbers as [i Hi].
      destruct (Forall2_lookup_r _ _ _ _ _ E Hi) as (part & Hp & Hpart).
      exists part, numbers. split; [exact (list_elem_of_lookup_2 _ _ _ Hp)|].
      split; [exact Hpart|]. apply list_elem_of_In. exact Hn.
    + intros (part & numbers & Hin & Hpart & Hn).
      apply list_elem_of_lookup in Hin as [i Hi].
      destruct (Forall2_lookup_l _ _ _ _ _ E Hi) as (numbers' & Hn' & Hpart').
      rewrite Hpart in Hpart'. injection Hpart' as <-.
      exists numbers. split.
      * apply list_elem_of_In. exact (list_elem_of_lookup_2 _ _ _ Hn').
      * apply list_elem_of_In. exact Hn.
  - intros other. reflexivity.
Qed.

Lemma parse_slides_arg_sorted_union_witness :
  parse_slides_arg (decimal None) "3-5, 1,4" 2 = Some [1; 3; 4; 5]
  /\ StronglySorted Z.lt [1; 3; 4; 5].
Proof.
  split; [reflexivity|].
  apply (proj1 (proj2 (parse_slides_arg_sorted_union (decimal None)
                         "3-5, 1,4" 2 ltac:(discriminate)))
           [1; 3; 4; 5] eq_refl).
Defined.

(** X30. One part of a selection: with a hyphen it is a range read at the
    first hyphen, and gives the numbers from its start to its end, both
    included, none when the end is below the start; a part that begins with
    a hyphen is a range whose start is the empty string, never a negative
    number.  Without a hyphen it gives the one number it denotes.
    "all", in any case of letters, gives the slides from 1 to [max_slides],
    none when the count is not positive. *)
Theorem parse_part_range_and_all :
  forall int,
    (forall part numbers,
       Py.contains "-" (Py.strip part) = true ->
       parse_part int part = Some numbers ->
       exists start end_ first last,
         Py.strip part = (start ++ String "-" end_)%string
         /\ Py.contains "-" start = false
         /\ int (Py.strip start) = Some first
         /\ int (Py.strip end_) = Some last
         /\ (forall n, n ∈ numbers <-> first <= n <= last)
         /\ (last < first -> numbers = []))
    /\ (forall part rest,
          Py.strip part = String "-" rest ->
          parse_part int part
          = match int EmptyString, int (Py.strip rest) with
            | Some first, Some last => Some (range first (last + 1))
            | _, _ => None
            end)
    /\ (forall part,
          Py.contains "-" (Py.strip part) = false ->
          parse_part int part
          = option_map (fun n => [n]) (int (Py.strip part)))
    /\ (forall slides_str max_slides,
          Py.lower slides_str = "all" ->
          exists result,
            parse_slides_arg int slides_str max_slides = Some result
            /\ length result = Z.to_nat max_slides
            /\ forall n, n ∈ result <-> 1 <= n <= max_slides).
Proof.
  intros int. split; [|split; [|split]].
  - intros part numbers Hc. unfold parse_part. rewrite Hc.
    destruct (PyStr.split1 "-" (Py.strip part)) as [[start end_]|] eqn:Hs;
      [|discriminate].
    destruct (int (Py.strip start)) as [first|] eqn:Hfirst; [|discriminate].
    destruct (int (Py.strip end_)) as [last|] eqn:Hlast; [|discriminate].
    intros [= <-]. apply split1_Some in Hs as [Hpart Hstart].
    exists start, end_, first, last.
    split; [exact Hpart|]. split.
    { destruct (Py.contains "-" start) eqn:E; [|reflexivity].
      apply contains_char_split1 in E as [x Hx]. congruence. }
    split; [exact Hfirst|]. split; [exact Hlast|]. split.
    + intros n. rewrite elem_of_range. lia.
    + intros Hlt. unfold range, seqZ.
      replace (Z.to_nat (last + 1 - first)) with 0%nat by lia. reflexivity.
  - intros part rest Hpart. unfold parse_part. rewrite Hpart.
    simpl. destruct (ascii_dec "-" "-") as [_|Hne]; [|contradiction].
    rewrite prefix_empty. simpl.
    change (Py.strip "") with "".
    destruct (int ""); [|reflexivity].
    destruct (int (Py.strip rest)); reflexivity.
  - intros part Hc. unfold parse_part. rewrite Hc.
    destruct (int (Py.strip part)); reflexivity.
  - intros slides_str max_slides Hall. unfold parse_slides_arg.
    rewrite Hall. simpl. eexists. split; [reflexivity|]. split.
    + unfold range. rewrite length_seqZ. f_equal. lia.
    + intros n. rewrite elem_of_range. lia.
Qed.

Lemma parse_part_range_and_all_witness :
  parse_part (decimal None) " -3" = None
  /\ exists result,
       parse_slides_arg (decimal None) "ALL" 3 = Some result
       /\ length result = 3%nat
       /\ forall n, n ∈ result <-> 1 <= n <= 3.
Proof.
  split.
  - exact (proj1 (proj2 (parse_part_range_and_all (decimal None)))
             " -3" "3" eq_refl).
  - exact (proj2 (proj2 (proj2 (parse_part_range_and_all (decimal None))))
             "ALL" 3 eq_refl).
Defined.
